(** * Listening sessions and listening contexts of the Spotify analyzer

    A shallow embedding of the session and context methods of
    [SpotifyFeaturesMixin] (spotify_features.py): [detect_sessions],
    [session_statistics], [session_patterns], [session_content_analysis],
    [categorize_listening_contexts] and [predict_context].

    Conventions.
    - A pandas [Timestamp] is its number of nanoseconds since the epoch, a
      [Z]; a [Timedelta] is a number of nanoseconds.
    - A Python float is the rational it denotes, a [Q].  The sums and
      means of numpy and pandas round as binary64 arithmetic does
      ([Float64]); a quotient of two integers, a time span in minutes and
      a decimal literal such as [0.7] are read as the exact rationals.
    - A data frame is the list of its rows, in row order; [self.df is None]
      is [None].
    - Methods of the analyzer are functions from the analyzer's state to an
      outcome: a returned value with the new state, or a raised exception. *)

From Stdlib Require Import String Ascii DecimalString.
From Stdlib Require Import ZArith QArith Qround Qpower List Bool.
From Stdlib Require Import Permutation Sorted Lia Lqa.
Import ListNotations.

Open Scope Z_scope.

(** ** Timestamps, time deltas and the calendar *)

Module Timestamp.

Definition ns_per_minute : Z := 60 * 1000000000.
Definition ns_per_hour : Z := 60 * ns_per_minute.
Definition ns_per_day : Z := 24 * ns_per_hour.

(** [pd.Timedelta(minutes=m)]: the minutes are scaled to nanoseconds and
    cut to an integer (Python's [int], toward zero). *)
Definition Timedelta_minutes (m : Q) : Z :=
  Z.quot (Qnum m * ns_per_minute) (Zpos (Qden m)).

(** [td.total_seconds() / 60] *)
Definition total_minutes (td : Z) : Q := Qmake td 60000000000.

(** [ts.hour] *)
Definition hour (ts : Z) : Z := (ts / ns_per_hour) mod 24.

(** Days since 1970-01-01 (floor division, as for dates before the epoch). *)
Definition days (ts : Z) : Z := ts / ns_per_day.

(** [ts.dayofweek], Monday = 0; 1970-01-01 was a Thursday. *)
Definition dayofweek (ts : Z) : Z := (days ts + 3) mod 7.

(** Month (1..12) of the proleptic Gregorian calendar, by the usual
    era / day-of-era computation on days shifted to 0000-03-01. *)
Definition month (ts : Z) : Z :=
  let z := days ts + 719468 in
  let era := z / 146097 in
  let doe := z - era * 146097 in
  let yoe := (doe - doe / 1460 + doe / 36524 - doe / 146096) / 365 in
  let doy := doe - (365 * yoe + yoe / 4 - yoe / 100) in
  let mp := (5 * doy + 2) / 153 in
  if mp <? 10 then mp + 3 else mp - 9.

Definition all_weekdays : list string :=
  ["Monday"; "Tuesday"; "Wednesday"; "Thursday"; "Friday"; "Saturday";
   "Sunday"]%string.

Definition all_months : list string :=
  ["January"; "February"; "March"; "April"; "May"; "June"; "July";
   "August"; "September"; "October"; "November"; "December"]%string.

(** [ts.strftime('%A')] *)
Definition weekday_name (ts : Z) : string :=
  nth (Z.to_nat (dayofweek ts)) all_weekdays ""%string.

(** [ts.strftime('%B')] *)
Definition month_name (ts : Z) : string :=
  nth (Z.to_nat (month ts - 1)) all_months ""%string.

(** Nanoseconds since the epoch of a civil date and time of day
    (inverse of the day computation above; used to write test data). *)
Definition days_from_civil (y m d : Z) : Z :=
  let y' := if m <=? 2 then y - 1 else y in
  let era := y' / 400 in
  let yoe := y' - era * 400 in
  let mp := if m <=? 2 then m + 9 else m - 3 in
  let doy := (153 * mp + 2) / 5 + d - 1 in
  let doe := yoe * 365 + yoe / 4 - yoe / 100 + doy in
  era * 146097 + doe - 719468.

Definition to_datetime (y m d hh mm : Z) : Z :=
  days_from_civil y m d * ns_per_day + hh * ns_per_hour + mm * ns_per_minute.

End Timestamp.

(** ** Play events *)

Record event : Type := mkEvent {
  endTime : Z;
  artistName : string;
  trackName : string;
  msPlayed : Z;
  minutes_played : Q
}.

(** A session is a group of rows of the sorted frame. *)
Definition session : Type := list event.

Definition le_endTime (a b : event) : Prop := endTime a <= endTime b.

(** ** The pandas operations used by the session code *)

Module Pandas.

(** [df.sort_values('endTime')] with the default [kind='quicksort']: the
    rows come back rearranged in ascending order of the key.  pandas
    promises the order of rows with equal keys only for the kinds
    ['mergesort'] and ['stable'], so the order of ties is left to the
    instance. *)
Class SortValues : Type := {
  sort_values : list event -> list event;
  sort_values_perm : forall l, Permutation (sort_values l) l;
  sort_values_sorted : forall l, Sorted le_endTime (sort_values l)
}.

(** [series.diff()]: missing ([NaT]) for the first row, then the
    difference to the row before. *)
Fixpoint diff_from (prev : Z) (ts : list Z) : list (option Z) :=
  match ts with
  | [] => []
  | t :: ts' => Some (t - prev) :: diff_from t ts'
  end.

Definition diff (ts : list Z) : list (option Z) :=
  match ts with
  | [] => []
  | t :: ts' => None :: diff_from t ts'
  end.

(** [series.isna()] *)
Definition isna {A} (x : option A) : bool :=
  match x with None => true | Some _ => false end.

(** [series > c] on a float column: a comparison with a missing value is
    false. *)
Definition gt (x : option Q) (c : Q) : bool :=
  match x with
  | None => false
  | Some v => negb (Qle_bool v c)
  end.

(** [bools.cumsum()] *)
Fixpoint cumsum_from (acc : Z) (bs : list bool) : list Z :=
  match bs with
  | [] => []
  | b :: bs' => (acc + Z.b2z b) :: cumsum_from (acc + Z.b2z b) bs'
  end.

Definition cumsum (bs : list bool) : list Z := cumsum_from 0 bs.

(** The distinct keys of a column in ascending order. *)
Fixpoint insert_key (k : Z) (ks : list Z) : list Z :=
  match ks with
  | [] => [k]
  | k' :: ks' =>
      if k <? k' then k :: ks
      else if k =? k' then ks
      else k' :: insert_key k ks'
  end.

Definition unique_sorted (keys : list Z) : list Z :=
  fold_right insert_key [] keys.

(** [df.groupby(key)], iterated: one group per distinct key, keys
    ascending, each group holding the rows with that key in frame order. *)
Definition rows_with_key {A} (k : Z) (keyed : list (Z * A)) : list A :=
  map snd (filter (fun p => fst p =? k) keyed).

Definition groupby {A} (keys : list Z) (rows : list A) : list (Z * list A) :=
  let keyed := combine keys rows in
  map (fun k => (k, rows_with_key k keyed)) (unique_sorted keys).

(** [series.nunique()] on a column of strings. *)
Definition nunique (col : list string) : Z :=
  Z.of_nat (length (nodup string_dec col)).

(** [series.min()] and [series.max()] of a column of timestamps; the
    value on an empty column ([NaT]) is not used by the code below. *)
Definition col_min (ts : list Z) : Z :=
  match ts with [] => 0 | t :: ts' => fold_left Z.min ts' t end.

Definition col_max (ts : list Z) : Z :=
  match ts with [] => 0 | t :: ts' => fold_left Z.max ts' t end.

End Pandas.

Import Pandas.

(** ** Session detection: the frame computation of [detect_sessions] *)

Section Detect.

Context {SV : SortValues}.

Definition time_diff_minutes (sorted_df : list event) : list (option Q) :=
  map (option_map Timestamp.total_minutes) (diff (map endTime sorted_df)).

Definition new_session (gap_threshold : Q) (sorted_df : list event)
  : list bool :=
  map (fun d => isna d || gt d gap_threshold) (time_diff_minutes sorted_df).

Definition session_id (gap_threshold : Q) (sorted_df : list event)
  : list Z :=
  map (fun c => c - 1) (cumsum (new_session gap_threshold sorted_df)).

(** Lines 462-478 of spotify_features.py, on a frame with at least one
    row (the method returns before them on an empty frame). *)
Definition detect_sessions_frame (rows : list event) (gap_threshold : Q)
  : list session :=
  let sorted_df := sort_values rows in
  map snd (groupby (session_id gap_threshold sorted_df) sorted_df).

End Detect.

(** ** Exceptions, outcomes and the analyzer object *)

Inductive exn : Type :=
| AttributeError (attr : string)   (* the object has no attribute [attr] *)
| IndexError                        (* [iloc[0]] on a frame without rows *)
| ValueError (msg : string).

Inductive result (A : Type) : Type :=
| Ok (v : A)
| Err (e : exn).

Arguments Ok {A} v.
Arguments Err {A} e.

Definition rbind {A B} (r : result A) (k : A -> result B) : result B :=
  match r with
  | Ok v => k v
  | Err e => Err e
  end.

(** The attributes of the analyzer that the session methods read or write.
    [sessions = None] means that the attribute has not been set
    ([hasattr(self, 'sessions')] is false). *)
Record analyzer : Type := mkAnalyzer {
  df : option (list event);
  sessions : option (list session)
}.

(** A method: from the object to a returned value and the object after the
    call, or to an exception. *)
Definition M (A : Type) : Type := analyzer -> result (A * analyzer).

Definition ret {A} (v : A) : M A := fun self => Ok (v, self).

Definition bind {A B} (m : M A) (k : A -> M B) : M B :=
  fun self =>
    match m self with
    | Ok (v, self') => k v self'
    | Err e => Err e
    end.

Definition lift {A} (r : result A) : M A :=
  fun self => match r with Ok v => Ok (v, self) | Err e => Err e end.

Declare Scope method_scope.
Delimit Scope method_scope with method.
Notation "x <- m ;; k" := (bind m (fun x => k))
  (at level 61, m at next level, right associativity) : method_scope.
Notation "m ;;; k" := (bind m (fun _ => k))
  (at level 61, right associativity) : method_scope.

Declare Scope result_scope.
Delimit Scope result_scope with result.
Notation "x <- r ;; k" := (rbind r (fun x => k))
  (at level 61, r at next level, right associativity) : result_scope.

(** [self.sessions]: raises when the attribute is missing. *)
Definition get_sessions : M (list session) :=
  fun self =>
    match sessions self with
    | Some ss => Ok (ss, self)
    | None => Err (AttributeError "sessions")
    end.

(** [self.sessions = ss] *)
Definition set_sessions (ss : list session) : M unit :=
  fun self => Ok (tt, mkAnalyzer (df self) (Some ss)).

(** [not hasattr(self, 'sessions') or not self.sessions] *)
Definition no_sessions (self : analyzer) : bool :=
  match sessions self with
  | None => true
  | Some [] => true
  | Some (_ :: _) => false
  end.

(** [frame.iloc[0]] *)
Definition iloc0 {A} (rows : list A) : result A :=
  match rows with
  | [] => Err IndexError
  | r :: _ => Ok r
  end.

Fixpoint mapM {A B} (f : A -> result B) (l : list A) : result (list B) :=
  match l with
  | [] => Ok []
  | x :: l' =>
      (y <- f x ;; ys <- mapM f l' ;; Ok (y :: ys))%result
  end.

(** ** [detect_sessions] *)

Definition default_gap_threshold : Q := 30.

Section Methods.

Context {SV : SortValues}.

Definition detect_sessions (gap_threshold : Q) : M (list session) :=
  fun self =>
    match df self with
    | None => Ok ([], self)
    | Some rows =>
        if (length rows =? 0)%nat then Ok ([], self)
        else
          let ss := detect_sessions_frame rows gap_threshold in
          (set_sessions ss ;;; ret ss)%method self
    end.

(** The opening of the three session methods:
    [if not hasattr(self, 'sessions') or not self.sessions:
         self.detect_sessions()] *)
Definition ensure_sessions : M unit :=
  fun self =>
    if no_sessions self
    then (detect_sessions default_gap_threshold ;;; ret tt)%method self
    else Ok (tt, self).

End Methods.

(** ** Binary64 arithmetic *)

Module Float64.

(** A binary64 number is the rational it denotes.  An operation computes
    the exact result and rounds it to the nearest number with a
    significand of 53 bits, a tie going to the even significand.  The
    exponent is not bounded: overflow to an infinity and the subnormal
    numbers need magnitudes above 1.7e308 or below 2.3e-308 and are left
    out. *)
Definition precision : Z := 53.

Definition pow2 (e : Z) : Q := (inject_Z 2 ^ e)%Q.

(** The binary logarithm of a positive rational, rounded down. *)
Definition ilog2 (x : Q) : Z :=
  let z := Z.log2 (Qnum x) - Z.log2 (Zpos (Qden x)) in
  if Qle_bool (pow2 z) x then z else z - 1.

(** The nearest integer, a tie going to the even one. *)
Definition nearest_even (x : Q) : Z :=
  let f := Qfloor x in
  match (x - inject_Z f ?= 1 # 2)%Q with
  | Lt => f
  | Gt => f + 1
  | Eq => if Z.even f then f else f + 1
  end.

(** The exponent of the last bit of the significand of a positive [x]. *)
Definition exponent (x : Q) : Z := ilog2 x - (precision - 1).

Definition round_pos (x : Q) : Q :=
  let e := exponent x in
  (inject_Z (nearest_even (x / pow2 e)) * pow2 e)%Q.

Definition round (x : Q) : Q :=
  Qred match (x ?= 0)%Q with
       | Eq => 0%Q
       | Gt => round_pos x
       | Lt => (- round_pos (- x))%Q
       end.

Definition add (x y : Q) : Q := round (x + y).

Definition mul (x y : Q) : Q := round (x * y).

(** The quotient by a number other than zero (by zero the machine gives
    nan or an infinity; the callers divide by a count of at least one, or
    test the divisor first). *)
Definition div (x y : Q) : Q := round (x / y).

(** An integer converted to binary64. *)
Definition of_Z (n : Z) : Q := round (inject_Z n).

End Float64.

(** ** numpy reductions on lists of numbers *)

Module Numpy.

(** [added l s]: [s] is a binary64 sum of the numbers [l].  The library
    chooses the order and the grouping of the additions (numpy adds
    pairwise, in blocks); every addition is rounded. *)
Inductive added : list Q -> Q -> Prop :=
| added_one (x : Q) : added [x] x
| added_join (l1 l2 : list Q) (s1 s2 : Q) :
    added l1 s1 -> added l2 s2 -> added (l1 ++ l2) (Float64.add s1 s2)
| added_perm (l l' : list Q) (s : Q) :
    Permutation l l' -> added l s -> added l' s.

(** [np.sum], and [sum] on a pandas column: known by this contract. *)
Class Summation : Type := {
  np_sum : list Q -> Q;
  np_sum_nil : np_sum [] = 0%Q;
  np_sum_added : forall x xs, added (x :: xs) (np_sum (x :: xs))
}.

(** The sum taken from left to right. *)
Definition sequential_sum (xs : list Q) : Q :=
  match xs with
  | [] => 0%Q
  | x :: xs' => fold_left Float64.add xs' x
  end.

(** [np.mean]: the sum divided by the count (of a list without elements
    numpy gives [nan]; the code never takes that mean). *)
Definition mean {NS : Summation} (xs : list Q) : Q :=
  Float64.div (np_sum xs) (Float64.of_Z (Z.of_nat (length xs))).

Fixpoint insert_sorted (x : Q) (xs : list Q) : list Q :=
  match xs with
  | [] => [x]
  | y :: ys => if Qle_bool x y then x :: xs else y :: insert_sorted x ys
  end.

Definition sort (xs : list Q) : list Q := fold_right insert_sorted [] xs.

(** [np.median]: the middle of the sorted values, or the mean of the two
    middle ones. *)
Definition median (xs : list Q) : Q :=
  let s := sort xs in
  let n := length xs in
  if Nat.even n
  then Float64.div
         (Float64.add (nth (n / 2 - 1) s 0%Q) (nth (n / 2) s 0%Q)) 2%Q
  else nth (n / 2) s (0 : Q).

(** Python's [max] and [min] on a list with a first element. *)
Definition max_of (x : Q) (xs : list Q) : Q :=
  fold_left (fun m y => if Qle_bool y m then m else y) xs x.

Definition min_of (x : Q) (xs : list Q) : Q :=
  fold_left (fun m y => if Qle_bool m y then m else y) xs x.

(** One bin of [np.histogram]: [lo <= x < hi], and [lo <= x] for the last
    bin, whose upper edge is infinite. *)
Definition in_bin (lo : Q) (hi : option Q) (x : Q) : bool :=
  Qle_bool lo x &&
  match hi with
  | Some h => negb (Qle_bool h x)
  | None => true
  end.

Definition histogram (xs : list Q) (bins : list (Q * option Q)) : list Z :=
  map (fun b => Z.of_nat (length (filter (in_bin (fst b) (snd b)) xs))) bins.

End Numpy.

(** ** [session_statistics] *)

(** Values stored in the dictionaries the methods return. *)
Inductive value : Type :=
| VInt (n : Z)
| VFloat (q : Q)
| VDict (d : list (string * Z)).

Definition dict : Type := list (string * value).

Fixpoint dict_get {V} (k : string) (d : list (string * V)) : option V :=
  match d with
  | [] => None
  | (k', v) :: d' => if String.eqb k k' then Some v else dict_get k d'
  end.

Definition keys {K V} (d : list (K * V)) : list K := map fst d.

(** The start of a session as the code computes it:
    [session['endTime'].min()
       - pd.Timedelta(minutes=session.iloc[0]['minutes_played'])] *)
Definition first_track_start (s : session) : result Z :=
  (first <- iloc0 s ;;
   Ok (col_min (map endTime s)
       - Timestamp.Timedelta_minutes (minutes_played first)))%result.

(** Body of the loop of [session_statistics] (lines 512-519): the length
    of one session in minutes. *)
Definition session_length (s : session) : result Q :=
  if (1 <? length s)%nat then
    (start <- first_track_start s ;;
     let last_track_end := col_max (map endTime s) in
     Ok (Timestamp.total_minutes (last_track_end - start)))%result
  else
    (first <- iloc0 s ;; Ok (minutes_played first))%result.

Definition string_of_Z (z : Z) : string := NilZero.string_of_int (Z.to_int z).

Definition hist_edges : list Z := [0; 15; 30; 60; 120; 240].

(** [zip(hist_edges[:-1], hist_edges[1:])], the infinite last edge being
    [None]. *)
Fixpoint edge_pairs (edges : list Z) : list (Z * option Z) :=
  match edges with
  | [] => []
  | [lo] => [(lo, None)]
  | lo :: ((hi :: _) as rest) => (lo, Some hi) :: edge_pairs rest
  end.

Definition hist_range (b : Z * option Z) : string :=
  match snd b with
  | Some hi => (string_of_Z (fst b) ++ "-" ++ string_of_Z hi ++ "min")%string
  | None => (string_of_Z (fst b) ++ "min+")%string
  end.

Definition hist_ranges : list string := map hist_range (edge_pairs hist_edges).

Definition hist_bins : list (Q * option Q) :=
  map (fun b => (inject_Z (fst b), option_map inject_Z (snd b)))
      (edge_pairs hist_edges).

Definition artists_in (s : session) : Z := nunique (map artistName s).

Section SessionMethods.

Context {SV : SortValues} {NS : Numpy.Summation}.

Definition session_statistics : M dict :=
  (ensure_sessions ;;;
   ss <- get_sessions ;;
   match ss with
   | [] =>
       ret [("total_sessions", VInt 0);
            ("avg_session_length", VInt 0);
            ("median_session_length", VInt 0);
            ("avg_tracks_per_session", VInt 0);
            ("avg_artists_per_session", VInt 0)]%string
   | _ :: _ =>
       session_lengths <- lift (mapM session_length ss) ;;
       let tracks_per_session :=
         map (fun s => inject_Z (Z.of_nat (length s))) ss in
       let artists_per_session :=
         map (fun s => inject_Z (artists_in s)) ss in
       let hist_counts := Numpy.histogram session_lengths hist_bins in
       let length_distribution := combine hist_ranges hist_counts in
       ret [("total_sessions", VInt (Z.of_nat (length ss)));
            ("avg_session_length", VFloat (Numpy.mean session_lengths));
            ("median_session_length",
               VFloat (Numpy.median session_lengths));
            ("avg_tracks_per_session",
               VFloat (Numpy.mean tracks_per_session));
            ("avg_artists_per_session",
               VFloat (Numpy.mean artists_per_session));
            ("session_length_distribution", VDict length_distribution);
            ("longest_session_minutes",
               match session_lengths with
               | x :: xs => VFloat (Numpy.max_of x xs)
               | [] => VInt 0
               end);
            ("shortest_session_minutes",
               match session_lengths with
               | x :: xs => VFloat (Numpy.min_of x xs)
               | [] => VInt 0
               end)]%string
   end)%method.

End SessionMethods.

(** ** [session_patterns] *)

Record patterns : Type := mkPatterns {
  by_hour : list (Z * Z);
  by_weekday : list (string * Z);
  by_month : list (string * Z)
}.

(** [Counter(xs).get(k, 0)] *)
Definition counter_get {A} (eq_dec : forall x y : A, {x = y} + {x <> y})
  (xs : list A) (k : A) : Z :=
  Z.of_nat (count_occ eq_dec xs k).

(** [range(24)] *)
Definition all_hours : list Z := map Z.of_nat (seq 0 24).

Section PatternMethods.

Context {SV : SortValues}.

Definition session_patterns : M patterns :=
  (ensure_sessions ;;;
   ss <- get_sessions ;;
   match ss with
   | [] => ret (mkPatterns [] [] [])
   | _ :: _ =>
       starts <- lift (mapM first_track_start ss) ;;
       let session_starts := map Timestamp.hour starts in
       let session_weekdays := map Timestamp.weekday_name starts in
       let session_months := map Timestamp.month_name starts in
       ret (mkPatterns
              (map (fun h => (h, counter_get Z.eq_dec session_starts h))
                   all_hours)
              (map (fun d => (d, counter_get string_dec session_weekdays d))
                   Timestamp.all_weekdays)
              (map (fun m => (m, counter_get string_dec session_months m))
                   Timestamp.all_months))
   end)%method.

End PatternMethods.

(** ** [session_content_analysis] *)

Inductive session_type : Type :=
| single_artist
| album_listening
| variety
| mixed.

Definition session_type_eq_dec (a b : session_type) : {a = b} + {a <> b}.
Proof. decide equality. Defined.

(** [a / b > c] for [a / b] a quotient of integers, [b] positive. *)
Definition ratio (a b : Z) : Q := (inject_Z a / inject_Z b)%Q.

Definition Qgtb (x c : Q) : bool := negb (Qle_bool x c).

(** The chain of tests that classifies one session (lines 632-642). *)
Definition classify_session (s : session) : session_type :=
  let n := Z.of_nat (length s) in
  if (1 <? n) && (artists_in s =? 1) then single_artist
  else if (3 <? n) && (artists_in s <=? 2) then album_listening
  else if (1 <? n) && Qgtb (ratio (artists_in s) n) (8 # 10) then variety
  else mixed.

(** Number of adjacent pairs of rows by the same artist. *)
Fixpoint same_artist_count (s : session) : Z :=
  match s with
  | a :: ((b :: _) as s') =>
      Z.b2z (String.eqb (artistName a) (artistName b)) + same_artist_count s'
  | _ => 0
  end.

(** [Counter(labels)]: each label with its number of occurrences, in order
    of first occurrence. *)
Definition Counter {A} (eq_dec : forall x y : A, {x = y} + {x <> y})
  (xs : list A) : list (A * Z) :=
  map (fun k => (k, counter_get eq_dec xs k)) (rev (nodup eq_dec (rev xs))).

Record content : Type := mkContent {
  avg_artist_continuity : Q;
  avg_unique_artists_ratio : Q;
  session_types : list (session_type * Z)
}.

Definition mean_or_zero {NS : Numpy.Summation} (xs : list Q) : Q :=
  match xs with
  | [] => 0
  | _ :: _ => Numpy.mean xs
  end.

Section ContentMethods.

Context {SV : SortValues} {NS : Numpy.Summation}.

Definition session_content_analysis : M content :=
  (ensure_sessions ;;;
   ss <- get_sessions ;;
   match ss with
   | [] => ret (mkContent 0 0 [])
   | _ :: _ =>
       let longer := filter (fun s => (1 <? length s)%nat) ss in
       let artist_continuity :=
         map (fun s => ratio (same_artist_count s)
                             (Z.of_nat (length s) - 1)) longer in
       let unique_artists_ratio :=
         map (fun s => ratio (artists_in s) (Z.of_nat (length s))) longer in
       let types := map classify_session ss in
       ret (mkContent (mean_or_zero artist_continuity)
                      (mean_or_zero unique_artists_ratio)
                      (Counter session_type_eq_dec types))
   end)%method.

End ContentMethods.

(** ** [categorize_listening_contexts]: the rule of one row *)

Inductive context : Type :=
| workout
| commute
| work
| party
| relaxation
| other.

(** The columns of a row that [determine_context] reads.  [energy] and
    [tempo] are read only when the frame has both columns. *)
Record row : Type := mkRow {
  hour : Z;
  weekday : Z;
  energy : Q;
  tempo : Q
}.

Definition Qltb (x c : Q) : bool := negb (Qle_bool c x).

Definition determine_context (has_audio_features : bool) (r : row) : context :=
  let energy := if has_audio_features then energy r else (5 # 10)%Q in
  let tempo := if has_audio_features then tempo r else 120%Q in
  if has_audio_features && Qgtb energy (7 # 10) && Qgtb tempo 120
     && (((5 <=? hour r) && (hour r <=? 9))
         || ((17 <=? hour r) && (hour r <=? 20)))
  then workout
  else if (weekday r <? 5)
          && (((7 <=? hour r) && (hour r <=? 9))
              || ((16 <=? hour r) && (hour r <=? 19)))
  then commute
  else if (weekday r <? 5) && (9 <=? hour r) && (hour r <=? 17)
          && (negb has_audio_features || Qltb energy (7 # 10))
  then work
  else if (weekday r >=? 5) && (hour r >=? 20)
          && (negb has_audio_features || Qgtb energy (7 # 10))
  then party
  else if (hour r >=? 20)
          && (negb has_audio_features || Qltb energy (5 # 10))
  then relaxation
  else other.

(** [self.df['context'] = self.df.apply(determine_context, axis=1)] *)
Definition categorize_listening_contexts (has_audio_features : bool)
  (rows : list row) : list (row * context) :=
  map (fun r => (r, determine_context has_audio_features r)) rows.

(** ** [predict_context] *)

Module Predictor.

(** The fitted classifier is known by its [predict] on one feature
    vector; [context_features] are the feature names saved by training.
    [context_model = None]: the attribute has not been set. *)
Record state : Type := mkState {
  context_model : option (list Q -> context);
  context_features : list string
}.

(** The loop of lines 857-862: the values of the trained features, in
    the trained order, or the error for the first one that is missing. *)
Fixpoint collect_features (features : list string)
  (kwargs : list (string * Q)) : result (list Q) :=
  match features with
  | [] => Ok []
  | feature :: rest =>
      match dict_get feature kwargs with
      | Some v =>
          (vs <- collect_features rest kwargs ;; Ok (v :: vs))%result
      | None =>
          Err (ValueError ("Missing required feature: " ++ feature)%string)
      end
  end.

Section Predict.

(** [train_context_predictor] fits a scikit-learn decision tree; it is
    taken as given, as a method on the predictor's state. *)
Variable train_context_predictor : state -> result state.

Definition predict_context (kwargs : list (string * Q)) (self : state)
  : result (context * state) :=
  (self' <- match context_model self with
            | Some _ => Ok self
            | None => train_context_predictor self
            end ;;
   features <- collect_features (context_features self') kwargs ;;
   match context_model self' with
   | Some predict => Ok (predict features, self')
   | None => Err (AttributeError "context_model")
   end)%result.

End Predict.

End Predictor.

(** ** Two sorts that meet the contract of [sort_values] *)

(** Insertion sort on [endTime] that keeps rows with equal keys in frame
    order (what [kind='stable'] would give). *)
Fixpoint insert_event (x : event) (l : list event) : list event :=
  match l with
  | [] => [x]
  | y :: l' =>
      if endTime x <=? endTime y then x :: l else y :: insert_event x l'
  end.

Definition stable_sort (l : list event) : list event :=
  fold_right insert_event [] l.

(** The same keys ascending, rows with equal keys in reverse frame order. *)
Definition ties_reversed_sort (l : list event) : list event :=
  stable_sort (rev l).

(** ** The specification's reading of the session code *)

(** The rows of the event table of an analyzer. *)
Definition frame (self : analyzer) : list event :=
  match df self with
  | Some rows => rows
  | None => []
  end.

(** Gap in minutes between the end timestamps of two consecutive events. *)
Definition gap_minutes (prev cur : event) : Q :=
  Timestamp.total_minutes (endTime cur - endTime prev).

(** The gap strictly exceeds the threshold. *)
Definition exceeds (gap_threshold : Q) (prev cur : event) : Prop :=
  (gap_threshold < gap_minutes prev cur)%Q.

Definition exceedsb (gap_threshold : Q) (prev cur : event) : bool :=
  Qgtb (gap_minutes prev cur) gap_threshold.

(** The single left-to-right scan of the specification: the first event
    opens a session, and an event opens a new one exactly when its gap to
    the event before exceeds the threshold. *)
Fixpoint split_by_gap (gap_threshold : Q) (l : list event) : list session :=
  match l with
  | [] => []
  | e :: l' =>
      let later := split_by_gap gap_threshold l' in
      match l', later with
      | e' :: _, s :: ss =>
          if exceedsb gap_threshold e e' then [e] :: s :: ss
          else (e :: s) :: ss
      | _, _ => [[e]]
      end
  end.

(** Every two neighbours of a list are related by [R]. *)
Definition adjacent {A} (R : A -> A -> Prop) (l : list A) : Prop :=
  forall l1 a b l2, l = l1 ++ a :: b :: l2 -> R a b.

(** Two consecutive sessions: the gap from the last event of the first to
    the first event of the second exceeds the threshold. *)
Definition boundary (gap_threshold : Q) (s s' : session) : Prop :=
  forall s0 e e' s1, s = s0 ++ [e] -> s' = e' :: s1 ->
                     exceeds gap_threshold e e'.

(** Every event of the first session ends no later than every event of the
    second. *)
Definition session_before (s s' : session) : Prop :=
  forall e e', In e s -> In e' s' -> endTime e <= endTime e'.

(** Start of a session in the specification's words: the end time of its
    first event minus that event's own play duration. *)
Definition session_start (s : session) : option Z :=
  match s with
  | [] => None
  | first :: _ =>
      Some (endTime first - Timestamp.Timedelta_minutes (minutes_played first))
  end.

(** Number of sessions whose start falls in bucket [k] of [bucket]. *)
Definition sessions_starting_in {A} (eqb : A -> A -> bool) (bucket : Z -> A)
  (k : A) (ss : list session) : Z :=
  Z.of_nat (length (filter (fun s => match session_start s with
                                     | Some t => eqb (bucket t) k
                                     | None => false
                                     end) ss)).

(** Two sessions in the order of their starts, a start being what the
    code computes for a session ([first_track_start]). *)
Definition starts_before (s s' : session) : Prop :=
  exists t t',
    first_track_start s = Ok t /\ first_track_start s' = Ok t' /\ t <= t'.

(** The sum of rationals that a binary64 sum approximates. *)
Definition exact_sum (xs : list Q) : Q := fold_right Qplus 0%Q xs.

(** A rational that is a count: an integer, not negative. *)
Definition count_valued (x : Q) : Prop :=
  exists k : Z, 0 <= k /\ (x == inject_Z k)%Q.

(** The stored sessions are groups as [detect_sessions] makes them: none
    without rows, each in ascending order of [endTime]. *)
Definition sessions_wf (self : analyzer) : Prop :=
  match sessions self with
  | None => True
  | Some ss => Forall (fun s => s <> [] /\ Sorted le_endTime s) ss
  end.

(** The keys of the interface of [session_statistics]. *)
Definition declared_keys : list string :=
  ["total_sessions"; "avg_session_length"; "median_session_length";
   "avg_tracks_per_session"; "avg_artists_per_session";
   "session_length_distribution"; "longest_session_minutes";
   "shortest_session_minutes"]%string.

(** The rules of the typology, in the specification's words. *)
Definition single_artist_rule (s : session) : Prop :=
  (1 < length s)%nat /\ artists_in s = 1.

Definition album_listening_rule (s : session) : Prop :=
  (3 < length s)%nat /\ artists_in s <= 2.

Definition variety_rule (s : session) : Prop :=
  (1 < length s)%nat /\
  (8 # 10 < ratio (artists_in s) (Z.of_nat (length s)))%Q.

(** The rules of the context table, in the specification's words. *)
Definition workout_rule (has_audio_features : bool) (r : row) : Prop :=
  has_audio_features = true /\ (7 # 10 < energy r)%Q /\ (120 < tempo r)%Q /\
  (5 <= hour r <= 9 \/ 17 <= hour r <= 20).

Definition commute_rule (r : row) : Prop :=
  weekday r < 5 /\ (7 <= hour r <= 9 \/ 16 <= hour r <= 19).

Definition work_rule (has_audio_features : bool) (r : row) : Prop :=
  weekday r < 5 /\ 9 <= hour r <= 17 /\
  (has_audio_features = false \/ (energy r < 7 # 10)%Q).

Definition party_rule (has_audio_features : bool) (r : row) : Prop :=
  weekday r >= 5 /\ hour r >= 20 /\
  (has_audio_features = false \/ (7 # 10 < energy r)%Q).

Definition relaxation_rule (has_audio_features : bool) (r : row) : Prop :=
  hour r >= 20 /\ (has_audio_features = false \/ (energy r < 5 # 10)%Q).

(** The [new_session] column below the first row: the flags of the rows
    [l] that follow a row ending at [prev]. *)
Definition later_flags (gap_threshold : Q) (prev : Z) (l : list event)
  : list bool :=
  map (fun d => isna d || gt d gap_threshold)
      (map (option_map Timestamp.total_minutes) (diff_from prev (map endTime l))).

(** Session ids from a running count [acc] and a column of flags. *)
Definition ids_from (acc : Z) (flags : list bool) : list Z :=
  map (fun c => c - 1) (cumsum_from acc flags).

(** ** Test data of the repository (test_spotify_features.py) *)

Module TestData.

Definition play (y m d hh mm : Z) (artist track : string) (ms : Z) : event :=
  mkEvent (Timestamp.to_datetime y m d hh mm) artist track ms (ms # 60000).

(** [TestListeningSessionAnalysis.setUp] *)
Definition session_rows : list event :=
  [play 2022 1 1 10 0 "Artist A" "Track 1" 240000;
   play 2022 1 1 10 4 "Artist A" "Track 2" 180000;
   play 2022 1 1 10 8 "Artist B" "Track 3" 210000;
   play 2022 1 1 14 0 "Artist C" "Track 4" 195000;
   play 2022 1 1 14 5 "Artist C" "Track 5" 225000;
   play 2022 1 2 9 0 "Artist D" "Track 6" 230000;
   play 2022 1 2 9 5 "Artist E" "Track 7" 210000;
   play 2022 1 2 9 10 "Artist D" "Track 8" 180000]%string.

(** The three sessions of that table at the default threshold. *)
Definition session_groups : list session :=
  [firstn 3 session_rows; firstn 2 (skipn 3 session_rows);
   skipn 5 session_rows].

Definition session_analyzer : analyzer := mkAnalyzer (Some session_rows) None.

(** Two plays that end at the same minute. *)
Definition tied_rows : list event :=
  [play 2022 1 1 10 0 "Artist A" "Track 1" 240000;
   play 2022 1 1 10 0 "Artist B" "Track 2" 45000]%string.

(** A play of one minute that ends at 10:00 and a play of one hour that
    ends at 10:40. *)
Definition overlapping_rows : list event :=
  [play 2022 1 1 10 0 "Artist A" "Track 1" 60000;
   play 2022 1 1 10 40 "Artist B" "Track 2" 3600000]%string.

(** An analyzer whose table has no rows (every play was a skip) and on
    which no session method has run yet. *)
Definition empty_analyzer : analyzer := mkAnalyzer (Some []) None.

(** The same table, with an empty list stored as [sessions]. *)
Definition empty_stored_analyzer : analyzer := mkAnalyzer (Some []) (Some []).

(** [TestListeningContextPrediction.setUp]: hour, weekday, energy, tempo *)
Definition context_rows : list row :=
  [mkRow 7 0 (9 # 10) 160;
   mkRow 12 0 (4 # 10) 100;
   mkRow 18 0 (6 # 10) 120;
   mkRow 22 0 (3 # 10) 80;
   mkRow 21 5 (8 # 10) 140].

(** The scenario of the rule-priority regression. *)
Definition monday_morning : row := mkRow 8 0 (85 # 100) 150.

End TestData.

(** ** [classify_moods] (spotify_features.py) *)

Inductive mood : Type :=
| Happy
| Angry
| Relaxed
| Sad.

(** The nested [get_mood] of [classify_moods]. *)
Definition get_mood (energy valence : Q) : mood :=
  if Qgtb energy (5 # 10) && Qgtb valence (5 # 10) then Happy
  else if Qgtb energy (5 # 10) && Qle_bool valence (5 # 10) then Angry
  else if Qle_bool energy (5 # 10) && Qgtb valence (5 # 10) then Relaxed
  else Sad.

(** The two columns of a row that [classify_moods] reads; [None] is a
    missing value ([pd.notna] is false). *)
Record audio_row : Type := mkAudioRow {
  row_energy : option Q;
  row_valence : option Q
}.

(** [feature in self.df.columns] *)
Definition has_column (columns : list string) (name : string) : bool :=
  existsb (String.eqb name) columns.

(** [classify_moods]: the new [mood] column, or the error raised when
    one of the two feature columns is not in the frame. *)
Definition classify_moods (columns : list string) (rows : list audio_row)
  : result (list (option mood)) :=
  if forallb (has_column columns) ["energy"; "valence"]%string then
    Ok (map (fun r =>
               match row_energy r, row_valence r with
               | Some energy, Some valence => Some (get_mood energy valence)
               | _, _ => None
               end) rows)
  else
    Err (ValueError
           "Energy and valence features required. Run enrich_with_audio_features() first").

(** ** [average_audio_features] (spotify_features.py) *)

(** A row of the frame as [average_audio_features] reads it: its
    [hours_played] and the value of each feature column, [None] where the
    value is missing. *)
Record feature_row : Type := mkFeatureRow {
  hours_played : Q;
  feature : string -> option Q
}.


Definition feature_value (f : string) (r : feature_row) : Q :=
  match feature r f with Some v => v | None => 0 end.

(** [self.df[self.df[feature].notna()]] *)
Definition valid_rows (f : string) (rows : list feature_row)
  : list feature_row :=
  filter (fun r => match feature r f with Some _ => true | None => false end)
         rows.

(** What [average_audio_features] stores for a feature: [None] where no
    row has a value, the quotient otherwise.  Where the listening times
    add up to zero the quotient of the two floats is nan or an infinity
    and no exception is raised. *)
Inductive average : Type :=
| NoValue
| NotFinite
| Average (v : Q).

(** The body of the loop over the available features: the average of the
    feature weighted by listening time. *)
Definition weighted_avg {NS : Numpy.Summation} (f : string)
  (rows : list feature_row) : average :=
  let valid_data := valid_rows f rows in
  match valid_data with
  | [] => NoValue
  | _ :: _ =>
      let weighted :=
        map (fun r => Float64.mul (feature_value f r) (hours_played r))
            valid_data in
      let total := Numpy.np_sum (map hours_played valid_data) in
      if Qeq_bool total 0 then NotFinite
      else Average (Float64.div (Numpy.np_sum weighted) total)
  end.


(** ** [load_data] and [listening_streaks] (spotify_analyzer.py) *)

(** One decoded record of a streaming-history file. *)
Record raw_play : Type := mkRawPlay {
  raw_endTime : string;
  raw_artistName : string;
  raw_trackName : string;
  raw_msPlayed : Z
}.

Section LoadData.

(** [pd.to_datetime] on the text of an end time. *)
Variable to_datetime : string -> Z.

Definition to_event (p : raw_play) : event :=
  mkEvent (to_datetime (raw_endTime p)) (raw_artistName p) (raw_trackName p)
          (raw_msPlayed p) (raw_msPlayed p # 60000).

(** [load_data] from the records read from the files on: the error when
    there are none, otherwise the frame with its derived columns, short
    plays filtered out. *)
Definition load_data (data : list raw_play) : result (list event) :=
  match data with
  | [] => Err (ValueError "No data could be loaded from the provided files")
  | _ :: _ => Ok (filter (fun e => 30000 <? msPlayed e) (map to_event data))
  end.

End LoadData.

(** [self.df['date']]: the calendar day of the end time, as a day number. *)
Definition date_of (e : event) : Z := Timestamp.days (endTime e).

Record streak_state : Type := mkStreakState {
  longest : Z;
  current : Z;
  longest_end : Z
}.

(** One turn of the loop of [listening_streaks], at day [day] after day
    [prev]. *)
Definition streak_step (prev day : Z) (st : streak_state) : streak_state :=
  if day - prev =? 1 then
    if current st + 1 >? longest st
    then mkStreakState (current st + 1) (current st + 1) day
    else mkStreakState (longest st) (current st + 1) (longest_end st)
  else mkStreakState (longest st) 1 (longest_end st).

Fixpoint streak_loop (prev : Z) (days : list Z) (st : streak_state)
  : streak_state :=
  match days with
  | [] => st
  | day :: days' => streak_loop day days' (streak_step prev day st)
  end.

Record streak_report : Type := mkStreakReport {
  days_with_activity : Z;
  total_days_range : Z;
  activity_ratio : Q;
  longest_streak : Z;
  longest_streak_start : Z;
  longest_streak_end : Z
}.

(** What [listening_streaks] returns: the dictionary with the single key
    [longest_streak] when there is no active day, the full one otherwise. *)
Inductive streaks : Type :=
| OnlyLongestStreak (n : Z)
| FullReport (r : streak_report).

Definition listening_streaks (rows : list event) : streaks :=
  let active_days := unique_sorted (map date_of rows) in
  match active_days with
  | [] => OnlyLongestStreak 0
  | first :: rest =>
      let st := streak_loop first rest (mkStreakState 1 1 first) in
      let range := last active_days first - first + 1 in
      FullReport
        (mkStreakReport
           (Z.of_nat (length active_days))
           range
           (ratio (Z.of_nat (length active_days)) range)
           (longest st)
           (longest_end st - (longest st - 1))
           (longest_end st))
  end.

(** A day on which the table has a play. *)
Definition active_day (rows : list event) (d : Z) : Prop :=
  exists e, In e rows /\ date_of e = d.

(** What the loop of [listening_streaks] keeps true, for the days [A]
    seen so far, the last of them [prev], and [n] days seen: [current] is
    the length of the streak that ends at [prev], [longest] the length
    of a streak that ends at [longest_end], and no streak among the days
    seen is longer. *)
Definition streak_inv (A : Z -> Prop) (prev : Z) (st : streak_state) (n : Z)
  : Prop :=
  (forall d, A d -> d <= prev) /\
  A prev /\
  1 <= current st /\
  (forall k, 0 <= k < current st -> A (prev - k)) /\
  ~ A (prev - current st) /\
  current st <= longest st /\
  (forall k, 0 <= k < longest st -> A (longest_end st - k)) /\
  (forall a m, 0 < m -> (forall d, a <= d < a + m -> A d) ->
               m <= longest st) /\
  longest st <= n.

(** ** The tally of plays per song (script.py, [process_song_data]) *)

Module Tally.

(** One entry of an input file; [None] is a key the entry does not have. *)
Record entry : Type := mkEntry {
  artistName : option string;
  trackName : option string;
  msPlayed : option Z
}.

Record song : Type := mkSong {
  song_artistName : string;
  song_trackName : string
}.

Record stat : Type := mkStat {
  stat_artistName : string;
  stat_trackName : string;
  playCount : Z;
  totalMsPlayed : Z
}.

(** The two dictionaries and the counter of the function, dictionaries in
    insertion order. *)
Record tally : Type := mkTally {
  unique_songs : list (string * song);
  play_stats : list (string * stat);
  total_plays : Z
}.

Definition empty_tally : tally := mkTally [] [] 0.

(** [entry.get("msPlayed", 0)] *)
Definition ms_or_zero (e : entry) : Z :=
  match msPlayed e with Some ms => ms | None => 0 end.

(** [key in d] *)
Definition has_key {V} (k : string) (d : list (string * V)) : bool :=
  existsb (fun kv => String.eqb k (fst kv)) d.

(** [d[key] = f(d[key])], the key staying at its place. *)
Fixpoint update {V} (k : string) (f : V -> V) (d : list (string * V))
  : list (string * V) :=
  match d with
  | [] => []
  | (k', v) :: d' =>
      if String.eqb k k' then (k', f v) :: d' else (k', v) :: update k f d'
  end.

(** The body of the loop over the entries of a file; [None] when reading
    the artist or the track of the entry raises. *)
Definition process_entry (t : tally) (e : entry) : option tally :=
  match artistName e, trackName e with
  | Some artist, Some track =>
      let key := (artist ++ "|" ++ track)%string in
      let total_plays' := total_plays t + 1 in
      let unique_songs' :=
        if has_key key (unique_songs t) then unique_songs t
        else unique_songs t ++ [(key, mkSong artist track)] in
      let play_stats' :=
        if has_key key (play_stats t)
        then update key
               (fun s => mkStat (stat_artistName s) (stat_trackName s)
                                (playCount s + 1)
                                (totalMsPlayed s + ms_or_zero e))
               (play_stats t)
        else play_stats t ++ [(key, mkStat artist track 1 (ms_or_zero e))] in
      Some (mkTally unique_songs' play_stats' total_plays')
  | _, _ => None
  end.

(** The entries of one file, up to the first that raises: the exception
    leaves the loop, and what was tallied stays. *)
Fixpoint process_entries (t : tally) (entries : list entry) : tally :=
  match entries with
  | [] => t
  | e :: entries' =>
      match process_entry t e with
      | Some t' => process_entries t' entries'
      | None => t
      end
  end.

(** The loop over the input files; a file that could not be read or
    decoded ([None]) is passed over. *)
Definition process_files (files : list (option (list entry))) : tally :=
  fold_left (fun t file =>
               match file with
               | Some entries => process_entries t entries
               | None => t
               end) files empty_tally.

Record summary : Type := mkSummary {
  totalUniqueSongs : Z;
  totalPlays : Z;
  songStats : list stat
}.

(** [play_stats_summary] *)
Definition play_stats_summary (t : tally) : summary :=
  mkSummary (Z.of_nat (length (map snd (unique_songs t))))
            (total_plays t)
            (map snd (play_stats t)).

(** The entries of a file that are tallied: those before the first one
    without artist or track. *)
Fixpoint tallied (entries : list entry) : list entry :=
  match entries with
  | [] => []
  | e :: entries' =>
      match artistName e, trackName e with
      | Some _, Some _ => e :: tallied entries'
      | _, _ => []
      end
  end.

Definition tallied_of_files (files : list (option (list entry)))
  : list entry :=
  concat (map (fun file => match file with
                           | Some entries => tallied entries
                           | None => []
                           end) files).

(** The key under which a song is tallied. *)
Definition joined_key (artist track : string) : string :=
  (artist ++ "|" ++ track)%string.

Definition sum_of {A} (f : A -> Z) (l : list A) : Z :=
  fold_right Z.add 0 (map f l).

(** What the tally keeps true after the entries [done]: both dictionaries
    have the same keys in the same order, no key twice, each record under
    the joined key of its own names, every tallied entry under its key,
    and the counts and durations add up. *)
Definition tally_inv (t : tally) (done : list entry) : Prop :=
  map fst (unique_songs t) = map fst (play_stats t) /\
  NoDup (map fst (play_stats t)) /\
  Forall (fun kv => fst kv = joined_key (stat_artistName (snd kv))
                                        (stat_trackName (snd kv))
                    /\ 1 <= playCount (snd kv)) (play_stats t) /\
  Forall (fun kv => fst kv = joined_key (song_artistName (snd kv))
                                        (song_trackName (snd kv)))
         (unique_songs t) /\
  Forall (fun e => forall artist track,
              artistName e = Some artist -> trackName e = Some track ->
              In (joined_key artist track) (map fst (play_stats t))) done /\
  sum_of playCount (map snd (play_stats t)) = total_plays t /\
  total_plays t = Z.of_nat (length done) /\
  sum_of totalMsPlayed (map snd (play_stats t)) = sum_of ms_or_zero done.

End Tally.

(** * Properties *)

(** ** The two sorts meet the contract of [sort_values] *)

Lemma insert_event_perm (x : event) (l : list event) :
  Permutation (insert_event x l) (x :: l).
Proof.
  induction l as [|y l IH]; simpl.
  - apply Permutation_refl.
  - destruct (endTime x <=? endTime y).
    + apply Permutation_refl.
    + eapply perm_trans; [apply perm_skip, IH | apply perm_swap].
Qed.

Lemma stable_sort_perm (l : list event) : Permutation (stable_sort l) l.
Proof.
  induction l as [|x l IH]; simpl.
  - constructor.
  - eapply perm_trans; [apply insert_event_perm | apply perm_skip, IH].
Qed.

Lemma insert_event_hdrel (a x : event) (l : list event) :
  le_endTime a x -> HdRel le_endTime a l ->
  HdRel le_endTime a (insert_event x l).
Proof.
  intros Hax Hal. destruct l as [|y l]; simpl.
  - constructor; exact Hax.
  - destruct (endTime x <=? endTime y); constructor.
    + exact Hax.
    + inversion Hal; assumption.
Qed.

Lemma insert_event_sorted (x : event) (l : list event) :
  Sorted le_endTime l -> Sorted le_endTime (insert_event x l).
Proof.
  induction l as [|y l IH]; simpl; intros Hs.
  - repeat constructor.
  - destruct (endTime x <=? endTime y) eqn:E.
    + constructor; [exact Hs|]. constructor. unfold le_endTime. lia.
    + inversion Hs; subst. constructor.
      * apply IH; assumption.
      * apply insert_event_hdrel; [unfold le_endTime; lia | assumption].
Qed.

Lemma stable_sort_sorted (l : list event) : Sorted le_endTime (stable_sort l).
Proof.
  induction l as [|x l IH]; simpl.
  - constructor.
  - apply insert_event_sorted, IH.
Qed.

#[export] Instance StableSortValues : SortValues := {
  sort_values := stable_sort;
  sort_values_perm := stable_sort_perm;
  sort_values_sorted := stable_sort_sorted
}.

Lemma ties_reversed_sort_perm (l : list event) :
  Permutation (ties_reversed_sort l) l.
Proof.
  unfold ties_reversed_sort.
  eapply perm_trans; [apply stable_sort_perm|].
  apply Permutation_sym, Permutation_rev.
Qed.

Lemma ties_reversed_sort_sorted (l : list event) :
  Sorted le_endTime (ties_reversed_sort l).
Proof. apply stable_sort_sorted. Qed.

Definition TiesReversedSortValues : SortValues := {|
  sort_values := ties_reversed_sort;
  sort_values_perm := ties_reversed_sort_perm;
  sort_values_sorted := ties_reversed_sort_sorted
|}.

(** ** The sum from left to right meets the contract of [np_sum] *)

Lemma fold_left_add_added (xs : list Q) (x : Q) :
  Numpy.added (x :: xs) (fold_left Float64.add xs x).
Proof.
  induction xs as [|y xs IH] using rev_ind.
  - constructor.
  - rewrite fold_left_app. cbn [fold_left]. rewrite app_comm_cons.
    apply Numpy.added_join; [exact IH | constructor].
Qed.

#[export] Instance SequentialSummation : Numpy.Summation := {
  np_sum := Numpy.sequential_sum;
  np_sum_nil := eq_refl;
  np_sum_added := fun x xs => fold_left_add_added xs x
}.

(** ** The repository's tests, replayed on the embedding *)

Module Tests.
Import TestData.

(** [test_detect_sessions]: three sessions, of 3, 2 and 3 tracks. *)
Example test_detect_sessions :
  exists ss self',
    detect_sessions 30 session_analyzer = Ok (ss, self') /\
    map (@length event) ss = [3; 2; 3]%nat /\
    sessions self' = Some ss.
Proof. eexists; eexists. vm_compute. repeat split. Qed.

End Tests.

(** ** [groupby] on a column of keys that never decreases *)

Lemma insert_key_above (k : Z) (ks : list Z) :
  Forall (fun u => k < u) ks -> insert_key k ks = k :: ks.
Proof.
  destruct ks as [|k' ks]; simpl; [reflexivity|].
  intros H. inversion H; subst.
  destruct (k <? k') eqn:E; [reflexivity | lia].
Qed.

Lemma unique_sorted_head (k : Z) (ks : list Z) :
  Sorted Z.le (k :: ks) ->
  exists U, unique_sorted (k :: ks) = k :: U /\ Forall (fun u => k < u) U.
Proof.
  revert k. induction ks as [|k' ks IH]; intros k Hs.
  - exists []. split; [reflexivity | constructor].
  - inversion Hs as [|? ? Hs' Hhd]; subst.
    inversion Hhd as [|? ? Hle]; subst.
    destruct (IH k' Hs') as [U [HU Hall]].
    change (unique_sorted (k :: k' :: ks))
      with (insert_key k (unique_sorted (k' :: ks))).
    rewrite HU. simpl.
    destruct (k <? k') eqn:E1.
    + exists (k' :: U). split; [reflexivity|].
      constructor; [lia|].
      eapply Forall_impl; [|exact Hall]. simpl; intros; lia.
    + destruct (k =? k') eqn:E2; [|lia].
      assert (k = k') by lia. subst k'.
      exists U. split; [reflexivity | exact Hall].
Qed.

Lemma sorted_le_all (k : Z) (ks : list Z) :
  Sorted Z.le (k :: ks) -> Forall (fun u => k <= u) ks.
Proof.
  intros Hs. apply Sorted_StronglySorted in Hs.
  - inversion Hs; assumption.
  - intros x y z; apply Z.le_trans.
Qed.

Lemma rows_with_key_absent {A} (k : Z) (keys : list Z) (rows : list A) :
  Forall (fun u => u <> k) keys -> rows_with_key k (combine keys rows) = [].
Proof.
  revert rows. induction keys as [|k' keys IH]; intros rows H; simpl.
  - reflexivity.
  - destruct rows as [|r rows]; [reflexivity|].
    inversion H; subst. unfold rows_with_key in *. simpl.
    destruct (k' =? k) eqn:E; [lia|]. apply IH; assumption.
Qed.

Lemma rows_with_key_skip {A} (k u : Z) (r : A) (keyed : list (Z * A)) :
  k <> u -> rows_with_key u ((k, r) :: keyed) = rows_with_key u keyed.
Proof.
  intros H. unfold rows_with_key. simpl.
  destruct (k =? u) eqn:E; [lia | reflexivity].
Qed.

Lemma rows_with_key_take {A} (k : Z) (r : A) (keyed : list (Z * A)) :
  rows_with_key k ((k, r) :: keyed) = r :: rows_with_key k keyed.
Proof. unfold rows_with_key. simpl. rewrite Z.eqb_refl. reflexivity. Qed.

Lemma groups_skip {A} (k : Z) (r : A) (keyed : list (Z * A)) (U : list Z) :
  Forall (fun u => k < u) U ->
  map (fun u => (u, rows_with_key u ((k, r) :: keyed))) U =
  map (fun u => (u, rows_with_key u keyed)) U.
Proof.
  intros H. apply map_ext_in. intros u Hu.
  rewrite Forall_forall in H. specialize (H u Hu).
  rewrite rows_with_key_skip by lia. reflexivity.
Qed.

(** A row whose key equals the next key joins the group that follows. *)
Lemma groupby_cons_same {A} (k : Z) (ks : list Z) (r : A) (rs : list A) :
  Sorted Z.le (k :: ks) ->
  map snd (groupby (k :: k :: ks) (r :: rs)) =
  match map snd (groupby (k :: ks) rs) with
  | g :: gs => (r :: g) :: gs
  | [] => [[r]]
  end.
Proof.
  intros Hs. destruct (unique_sorted_head k ks Hs) as [U [HU Hall]].
  unfold groupby.
  change (unique_sorted (k :: k :: ks))
    with (insert_key k (unique_sorted (k :: ks))).
  rewrite HU. simpl insert_key.
  rewrite Z.ltb_irrefl, Z.eqb_refl.
  change (combine (k :: k :: ks) (r :: rs))
    with ((k, r) :: combine (k :: ks) rs).
  cbn [map snd]. rewrite rows_with_key_take.
  rewrite (groups_skip k r _ U Hall). reflexivity.
Qed.

(** A row whose key is below the next key is a group of its own. *)
Lemma groupby_cons_below {A} (k k' : Z) (ks : list Z) (r : A) (rs : list A) :
  k < k' -> Sorted Z.le (k' :: ks) ->
  map snd (groupby (k :: k' :: ks) (r :: rs)) =
  [r] :: map snd (groupby (k' :: ks) rs).
Proof.
  intros Hlt Hs. destruct (unique_sorted_head k' ks Hs) as [U [HU Hall]].
  pose proof (sorted_le_all k' ks Hs) as Hle.
  unfold groupby.
  change (unique_sorted (k :: k' :: ks))
    with (insert_key k (unique_sorted (k' :: ks))).
  rewrite HU.
  rewrite insert_key_above.
  2:{ constructor; [lia|]. eapply Forall_impl; [|exact Hall].
      simpl; intros; lia. }
  change (combine (k :: k' :: ks) (r :: rs))
    with ((k, r) :: combine (k' :: ks) rs).
  cbn [map snd]. rewrite rows_with_key_take.
  rewrite rows_with_key_absent.
  2:{ constructor; [lia|]. eapply Forall_impl; [|exact Hle].
      simpl; intros; lia. }
  rewrite rows_with_key_skip by lia.
  rewrite (groups_skip k r _ U).
  2:{ eapply Forall_impl; [|exact Hall]. simpl; intros; lia. }
  reflexivity.
Qed.

Lemma groupby_one {A} (k : Z) (r : A) (rs : list A) :
  map snd (groupby [k] (r :: rs)) = [[r]].
Proof. unfold groupby, rows_with_key. simpl. rewrite Z.eqb_refl. reflexivity. Qed.

(** ** The session ids never decrease *)

Lemma cumsum_from_lower (acc : Z) (bs : list bool) :
  Forall (fun c => acc <= c) (cumsum_from acc bs).
Proof.
  revert acc. induction bs as [|b bs IH]; intros acc; simpl.
  - constructor.
  - constructor.
    + destruct b; simpl; lia.
    + eapply Forall_impl; [|apply IH]. simpl. destruct b; simpl; intros; lia.
Qed.

Lemma ids_from_sorted (acc : Z) (bs : list bool) :
  Sorted Z.le (ids_from acc bs).
Proof.
  revert acc. induction bs as [|b bs IH]; intros acc; unfold ids_from; simpl.
  - constructor.
  - constructor; [apply IH|].
    pose proof (cumsum_from_lower (acc + Z.b2z b) bs) as Hl.
    destruct (cumsum_from (acc + Z.b2z b) bs); simpl; constructor.
    inversion Hl; subst. lia.
Qed.

(** ** The frame computation is the scan of the specification *)

Lemma later_flags_cons (t : Q) (prev : Z) (e : event) (l : list event) :
  later_flags t prev (e :: l) =
  Qgtb (Timestamp.total_minutes (endTime e - prev)) t
  :: later_flags t (endTime e) l.
Proof. reflexivity. Qed.

Lemma ids_from_cons (acc : Z) (b : bool) (bs : list bool) :
  ids_from acc (b :: bs) = (acc + Z.b2z b - 1) :: ids_from (acc + Z.b2z b) bs.
Proof. reflexivity. Qed.

Lemma groupby_ids_scan (t : Q) (l : list event) :
  forall (e : event) (acc : Z) (b : bool),
    map snd (groupby (ids_from acc (b :: later_flags t (endTime e) l))
                     (e :: l)) =
    split_by_gap t (e :: l).
Proof.
  induction l as [|e' l IH]; intros e acc b.
  - apply groupby_one.
  - specialize (IH e' (acc + Z.b2z b)
                   (Qgtb (Timestamp.total_minutes (endTime e' - endTime e)) t)).
    rewrite later_flags_cons, ids_from_cons.
    pose proof (ids_from_sorted (acc + Z.b2z b)
                  (Qgtb (Timestamp.total_minutes (endTime e' - endTime e)) t
                   :: later_flags t (endTime e') l)) as Hs.
    rewrite ids_from_cons in IH, Hs |- *.
    change (split_by_gap t (e :: e' :: l))
      with (match split_by_gap t (e' :: l) with
            | s :: ss =>
                if exceedsb t e e' then [e] :: s :: ss else (e :: s) :: ss
            | [] => [[e]]
            end).
    unfold exceedsb, gap_minutes.
    destruct (Qgtb (Timestamp.total_minutes (endTime e' - endTime e)) t) eqn:E;
      cbn [Z.b2z] in *.
    + rewrite groupby_cons_below; [|lia|exact Hs].
      rewrite IH. destruct (split_by_gap t (e' :: l)); reflexivity.
    + rewrite Z.add_0_r in *.
      rewrite groupby_cons_same by exact Hs.
      rewrite IH. reflexivity.
Qed.

Lemma detect_sessions_frame_scan {SV : SortValues} (rows : list event)
  (gap_threshold : Q) :
  detect_sessions_frame rows gap_threshold =
  split_by_gap gap_threshold (sort_values rows).
Proof.
  unfold detect_sessions_frame.
  destruct (sort_values rows) as [|e l]; [reflexivity|].
  apply (groupby_ids_scan gap_threshold l e 0 true).
Qed.

(** ** The scan, case by case *)

Lemma Qgtb_true (x c : Q) : Qgtb x c = true <-> (c < x)%Q.
Proof.
  unfold Qgtb. rewrite negb_true_iff, <- not_true_iff_false, Qle_bool_iff.
  split; [apply Qnot_le_lt | apply Qlt_not_le].
Qed.

Lemma Qgtb_false (x c : Q) : Qgtb x c = false <-> (x <= c)%Q.
Proof.
  unfold Qgtb. rewrite negb_false_iff. apply Qle_bool_iff.
Qed.

Lemma exceedsb_true (t : Q) (a b : event) :
  exceedsb t a b = true <-> exceeds t a b.
Proof. apply Qgtb_true. Qed.

Lemma exceedsb_false (t : Q) (a b : event) :
  exceedsb t a b = false <-> ~ exceeds t a b.
Proof.
  unfold exceedsb, exceeds. rewrite Qgtb_false.
  split; [apply Qle_not_lt | apply Qnot_lt_le].
Qed.

Lemma split_by_gap_head (t : Q) (l : list event) (e : event) :
  exists s ss, split_by_gap t (e :: l) = (e :: s) :: ss.
Proof.
  revert e. induction l as [|e' l IH]; intros e.
  - exists [], []. reflexivity.
  - destruct (IH e') as [s [ss H]].
    change (split_by_gap t (e :: e' :: l))
      with (match split_by_gap t (e' :: l) with
            | s :: ss =>
                if exceedsb t e e' then [e] :: s :: ss else (e :: s) :: ss
            | [] => [[e]]
            end).
    rewrite H. destruct (exceedsb t e e'); eauto.
Qed.

(** Induction along the scan: the empty table, a single event, an event
    that is cut off from the next one, an event that joins it. *)
Lemma split_by_gap_ind (t : Q) (P : list event -> list session -> Prop) :
  P [] [] ->
  (forall e, P [e] [[e]]) ->
  (forall e e' l s ss,
      split_by_gap t (e' :: l) = (e' :: s) :: ss ->
      P (e' :: l) ((e' :: s) :: ss) ->
      exceedsb t e e' = true ->
      P (e :: e' :: l) ([e] :: (e' :: s) :: ss)) ->
  (forall e e' l s ss,
      split_by_gap t (e' :: l) = (e' :: s) :: ss ->
      P (e' :: l) ((e' :: s) :: ss) ->
      exceedsb t e e' = false ->
      P (e :: e' :: l) ((e :: e' :: s) :: ss)) ->
  forall l, P l (split_by_gap t l).
Proof.
  intros H0 H1 Hcut Hjoin l.
  destruct l as [|e l]; [exact H0|].
  revert e. induction l as [|e' l IH]; intros e; [apply H1|].
  destruct (split_by_gap_head t l e') as [s [ss H]].
  specialize (IH e'). rewrite H in IH.
  change (split_by_gap t (e :: e' :: l))
    with (match split_by_gap t (e' :: l) with
          | s :: ss =>
              if exceedsb t e e' then [e] :: s :: ss else (e :: s) :: ss
          | [] => [[e]]
          end).
  rewrite H. destruct (exceedsb t e e') eqn:E.
  - apply Hcut; assumption.
  - apply Hjoin; assumption.
Qed.

Lemma split_by_gap_concat (t : Q) (l : list event) :
  concat (split_by_gap t l) = l.
Proof.
  apply (split_by_gap_ind t (fun l ss => concat ss = l)); simpl; auto.
  - intros e e' l0 s ss _ IH _. simpl in IH. rewrite IH. reflexivity.
  - intros e e' l0 s ss _ IH _. simpl in IH. rewrite IH. reflexivity.
Qed.

Lemma split_by_gap_nonempty (t : Q) (l : list event) :
  Forall (fun s => s <> []) (split_by_gap t l).
Proof.
  apply (split_by_gap_ind t (fun _ ss => Forall (fun s => s <> []) ss)).
  - constructor.
  - intros e. constructor; [discriminate | constructor].
  - intros e e' l0 s ss _ IH _. constructor; [discriminate | exact IH].
  - intros e e' l0 s ss _ IH _. inversion IH; subst.
    constructor; [discriminate | assumption].
Qed.

Lemma split_by_gap_within (t : Q) (l : list event) :
  Forall (Sorted (fun a b => ~ exceeds t a b)) (split_by_gap t l).
Proof.
  apply (split_by_gap_ind t
           (fun _ ss => Forall (Sorted (fun a b => ~ exceeds t a b)) ss)).
  - constructor.
  - intros e. repeat constructor.
  - intros e e' l0 s ss _ IH _. constructor; [repeat constructor | exact IH].
  - intros e e' l0 s ss _ IH E. inversion IH; subst.
    constructor; [|assumption].
    constructor; [assumption|]. constructor.
    apply exceedsb_false; exact E.
Qed.

Lemma boundary_cons (t : Q) (e : event) (s s' : session) :
  s <> [] -> boundary t s s' -> boundary t (e :: s) s'.
Proof.
  intros Hne Hb s0 x x' s1 Hs Hs'.
  destruct s0 as [|y s0].
  - simpl in Hs. injection Hs as _ Hs. contradiction.
  - simpl in Hs. injection Hs as _ Hs. eapply Hb; eauto.
Qed.

Lemma split_by_gap_between (t : Q) (l : list event) :
  Sorted (boundary t) (split_by_gap t l).
Proof.
  apply (split_by_gap_ind t (fun _ ss => Sorted (boundary t) ss)).
  - constructor.
  - intros e. repeat constructor.
  - intros e e' l0 s ss _ IH E. constructor; [exact IH|].
    constructor. intros s0 x x' s1 Hs Hs'.
    destruct s0 as [|y s0].
    + simpl in Hs. injection Hs as <-. injection Hs' as <- _.
      apply exceedsb_true; exact E.
    + destruct s0; discriminate Hs.
  - intros e e' l0 s ss _ IH _. inversion IH as [|? ? Hs Hhd]; subst.
    constructor; [assumption|].
    inversion Hhd; subst; constructor.
    apply boundary_cons; [discriminate | assumption].
Qed.

(** ** From [Sorted] to neighbours, and through [concat] *)

Lemma Sorted_app_r {A} (R : A -> A -> Prop) (l1 l2 : list A) :
  Sorted R (l1 ++ l2) -> Sorted R l2.
Proof.
  induction l1 as [|x l1 IH]; simpl; intros H; [exact H|].
  inversion H; subst. apply IH; assumption.
Qed.

Lemma Sorted_app_l {A} (R : A -> A -> Prop) (l1 l2 : list A) :
  Sorted R (l1 ++ l2) -> Sorted R l1.
Proof.
  induction l1 as [|x l1 IH]; simpl; intros H; [constructor|].
  inversion H as [|? ? Hs Hhd]; subst. constructor; [apply IH; exact Hs|].
  destruct l1; simpl in *; [constructor|].
  inversion Hhd; subst. constructor; assumption.
Qed.

Lemma Sorted_adjacent {A} (R : A -> A -> Prop) (l : list A) :
  Sorted R l -> adjacent R l.
Proof.
  intros Hs l1 a b l2 ->. apply Sorted_app_r in Hs.
  inversion Hs as [|? ? _ Hhd]; subst. inversion Hhd; assumption.
Qed.

Lemma Sorted_concat_each {A} (R : A -> A -> Prop) (ls : list (list A)) :
  Sorted R (concat ls) -> Forall (Sorted R) ls.
Proof.
  induction ls as [|l ls IH]; simpl; intros H; constructor.
  - eapply Sorted_app_l; exact H.
  - apply IH. eapply Sorted_app_r; exact H.
Qed.

Lemma StronglySorted_app_inv {A} (R : A -> A -> Prop) (l1 l2 : list A) :
  StronglySorted R (l1 ++ l2) ->
  StronglySorted R l2 /\ (forall a b, In a l1 -> In b l2 -> R a b).
Proof.
  induction l1 as [|x l1 IH]; simpl; intros H.
  - split; [exact H | intros ? ? []].
  - inversion H as [|? ? Hs Hall]; subst.
    destruct (IH Hs) as [H2 Hc]. split; [exact H2|].
    intros a b [<-|Ha] Hb.
    + rewrite Forall_forall in Hall. apply Hall, in_or_app. right; exact Hb.
    + apply Hc; assumption.
Qed.

Lemma StronglySorted_concat {A} (R : A -> A -> Prop) (ls : list (list A)) :
  StronglySorted R (concat ls) ->
  StronglySorted (fun l l' => forall a b, In a l -> In b l' -> R a b) ls.
Proof.
  induction ls as [|l ls IH]; simpl; intros H; constructor.
  - apply IH. apply (StronglySorted_app_inv R l (concat ls) H).
  - apply StronglySorted_app_inv in H. destruct H as [_ Hc].
    rewrite Forall_forall. intros l' Hl' a b Ha Hb.
    apply Hc; [exact Ha|]. apply in_concat. exists l'. split; assumption.
Qed.

Lemma le_endTime_trans : Relations_1.Transitive le_endTime.
Proof. intros x y z. unfold le_endTime. lia. Qed.

(** ** What [detect_sessions] returns and stores *)

Lemma sort_values_nil {SV : SortValues} : sort_values [] = [].
Proof. apply Permutation_nil, Permutation_sym, sort_values_perm. Qed.

Lemma detect_sessions_eq {SV : SortValues} (gap : Q) (self : analyzer) :
  detect_sessions gap self =
  let ss := split_by_gap gap (sort_values (frame self)) in
  match frame self with
  | [] => Ok (ss, self)
  | _ :: _ => Ok (ss, mkAnalyzer (df self) (Some ss))
  end.
Proof.
  unfold detect_sessions, frame.
  destruct self as [[[|e rows]|] stored]; simpl.
  - rewrite sort_values_nil. reflexivity.
  - rewrite <- detect_sessions_frame_scan. reflexivity.
  - rewrite sort_values_nil. reflexivity.
Qed.

Lemma detect_sessions_returns {SV : SortValues} (gap : Q) (self : analyzer) :
  exists self',
    detect_sessions gap self =
    Ok (split_by_gap gap (sort_values (frame self)), self').
Proof.
  rewrite detect_sessions_eq. destruct (frame self); eexists; reflexivity.
Qed.

Lemma split_by_gap_sorted (t : Q) (l : list event) :
  Sorted le_endTime l ->
  Forall (fun s => s <> [] /\ Sorted le_endTime s) (split_by_gap t l).
Proof.
  intros Hs.
  pose proof (split_by_gap_nonempty t l) as Hne.
  assert (Hall : Forall (Sorted le_endTime) (split_by_gap t l)).
  { apply Sorted_concat_each. rewrite split_by_gap_concat. exact Hs. }
  rewrite Forall_forall in *. intros s Hin. split; auto.
Qed.

(** [detect_sessions] leaves the stored sessions well formed. *)
Lemma detect_sessions_wf {SV : SortValues} (gap : Q) (self self' : analyzer)
  (ss : list session) :
  sessions_wf self -> detect_sessions gap self = Ok (ss, self') ->
  sessions_wf self'.
Proof.
  intros Hwf. rewrite detect_sessions_eq. cbv zeta.
  destruct (frame self); intros H; injection H as <- <-; [exact Hwf|].
  unfold sessions_wf. simpl. apply split_by_gap_sorted, sort_values_sorted.
Qed.

(** ** Claims about session detection *)

(** C1, as the code has it.  The sessions returned by [detect_sessions]
    partition the event table: put end to end they are a rearrangement of its rows, so every
    event is in exactly one session; no session is empty; the events of a
    session are in ascending order of end timestamp; and every event of a
    session ends no later than every event of a later session. *)
Theorem detect_sessions_partition {SV : SortValues} (self : analyzer)
  (gap_threshold : Q) :
  exists ss self',
    detect_sessions gap_threshold self = Ok (ss, self') /\
    Permutation (concat ss) (frame self) /\
    Forall (fun s => s <> []) ss /\
    Forall (Sorted le_endTime) ss /\
    StronglySorted session_before ss.
Proof.
  destruct (detect_sessions_returns gap_threshold self) as [self' H].
  exists (split_by_gap gap_threshold (sort_values (frame self))), self'.
  pose proof (sort_values_sorted (frame self)) as Hs.
  split; [exact H|]. split; [|split; [|split]].
  - rewrite split_by_gap_concat. apply sort_values_perm.
  - apply split_by_gap_nonempty.
  - apply Sorted_concat_each. rewrite split_by_gap_concat. exact Hs.
  - apply (StronglySorted_concat le_endTime).
    rewrite split_by_gap_concat.
    apply Sorted_StronglySorted; [exact le_endTime_trans | exact Hs].
Qed.

(** A table of two rows with different end times has one sorted order. *)
Lemma sort_values_two {SV : SortValues} (a b : event) :
  endTime a < endTime b -> sort_values [a; b] = [a; b].
Proof.
  intros Hlt.
  pose proof (sort_values_perm [a; b]) as Hp.
  pose proof (sort_values_sorted [a; b]) as Hs.
  apply Permutation_sym, Permutation_length_2_inv in Hp.
  destruct Hp as [Hp|Hp]; [exact Hp|].
  rewrite Hp in Hs. exfalso.
  inversion Hs as [|? ? _ Hhd]; subst.
  inversion Hhd as [|? ? Hle]; subst.
  unfold le_endTime in Hle. lia.
Qed.

(** C1 read with the invariant of the specification, sessions ordered by
    start time, fails.  A play of one minute that ends at 10:00 and a play
    of one hour that ends at 10:40 are two sessions at the threshold of 30
    minutes, in this order under every sort; the second started at 09:40,
    before the first, which started at 09:59.  So under no sort are the
    sessions of every table in the order of their starts. *)
Lemma detect_sessions_not_ordered_by_start :
  ~ (exists SV : SortValues,
        forall (self : analyzer) (gap_threshold : Q),
        exists ss self',
          @detect_sessions SV gap_threshold self = Ok (ss, self') /\
          Sorted starts_before ss).
Proof.
  intros [SV H].
  destruct (H (mkAnalyzer (Some TestData.overlapping_rows) None) 30%Q)
    as [ss [self' [Hd Hs]]].
  rewrite detect_sessions_eq in Hd. cbv zeta in Hd.
  cbn [frame df] in Hd. unfold TestData.overlapping_rows in Hd.
  rewrite sort_values_two in Hd by (vm_compute; reflexivity).
  injection Hd as <- _.
  change (Sorted starts_before
            [[TestData.play 2022 1 1 10 0 "Artist A" "Track 1" 60000];
             [TestData.play 2022 1 1 10 40 "Artist B" "Track 2" 3600000]])
    in Hs.
  inversion Hs as [|? ? _ Hhd]; subst.
  inversion Hhd as [|? ? Hst]; subst.
  destruct Hst as [t [t' [Ht [Ht' Hle]]]].
  vm_compute in Ht. injection Ht as <-.
  vm_compute in Ht'. injection Ht' as <-.
  vm_compute in Hle. apply Hle. reflexivity.
Qed.

Lemma split_by_gap_length (t : Q) (e e' : event) (l : list event) :
  length (split_by_gap t (e :: e' :: l)) =
  ((if exceedsb t e e' then 1 else 0) + length (split_by_gap t (e' :: l)))%nat.
Proof.
  destruct (split_by_gap_head t l e') as [s [ss H]].
  change (split_by_gap t (e :: e' :: l))
    with (match split_by_gap t (e' :: l) with
          | s :: ss =>
              if exceedsb t e e' then [e] :: s :: ss else (e :: s) :: ss
          | [] => [[e]]
          end).
  rewrite H. destruct (exceedsb t e e'); reflexivity.
Qed.

Lemma split_by_gap_length_mono (t1 t2 : Q) (l : list event) :
  (t1 <= t2)%Q ->
  (length (split_by_gap t2 l) <= length (split_by_gap t1 l))%nat.
Proof.
  intros Hle. destruct l as [|e l]; [apply Nat.le_refl|].
  revert e. induction l as [|e' l IH]; intros e; [apply Nat.le_refl|].
  rewrite !split_by_gap_length. specialize (IH e').
  destruct (exceedsb t2 e e') eqn:E2.
  - assert (E1 : exceedsb t1 e e' = true).
    { apply exceedsb_true. apply exceedsb_true in E2.
      unfold exceeds in *. eapply Qle_lt_trans; eassumption. }
    rewrite E1. lia.
  - destruct (exceedsb t1 e e'); lia.
Qed.

(** C3. Raising the gap threshold never raises the number of sessions:
    for thresholds [t1 <= t2], [detect_sessions] with [t2] returns at most
    as many sessions as with [t1] on the same event table. *)
Theorem detect_sessions_threshold_monotone {SV : SortValues}
  (self : analyzer) (t1 t2 : Q) :
  (t1 <= t2)%Q ->
  exists ss1 self1 ss2 self2,
    detect_sessions t1 self = Ok (ss1, self1) /\
    detect_sessions t2 self = Ok (ss2, self2) /\
    (length ss2 <= length ss1)%nat.
Proof.
  intros Hle.
  destruct (detect_sessions_returns t1 self) as [self1 H1].
  destruct (detect_sessions_returns t2 self) as [self2 H2].
  do 4 eexists. split; [exact H1|]. split; [exact H2|].
  apply split_by_gap_length_mono; exact Hle.
Qed.

Lemma detect_sessions_threshold_monotone_witness :
  (30 <= 300)%Q /\
  exists ss1 self1 ss2 self2,
    detect_sessions 30 TestData.session_analyzer = Ok (ss1, self1) /\
    detect_sessions 300 TestData.session_analyzer = Ok (ss2, self2) /\
    (length ss2 <= length ss1)%nat.
Proof.
  assert (H : (30 <= 300)%Q) by (unfold Qle; simpl; lia).
  split; [exact H|].
  exact (detect_sessions_threshold_monotone TestData.session_analyzer 30 300 H).
Defined.

(** C2, as the code has it.  [detect_sessions] sorts the events by end
    timestamp ascending (the order among events with equal end timestamps
    is whatever the sort leaves), and cuts the sorted table into sessions:
    the sessions put end to end are the sorted table, none is empty, two
    neighbours inside a session have a gap that does not exceed the
    threshold, and the gap from the last event of a session to the first
    of the next strictly exceeds it.  So an event opens a session exactly
    when it is the first or its gap to the event before is strictly above
    the threshold.  An empty table gives no sessions, without error. *)
Theorem detect_sessions_scan {SV : SortValues} (self : analyzer)
  (gap_threshold : Q) :
  exists ss self',
    detect_sessions gap_threshold self = Ok (ss, self') /\
    Permutation (sort_values (frame self)) (frame self) /\
    Sorted le_endTime (sort_values (frame self)) /\
    concat ss = sort_values (frame self) /\
    Forall (fun s => s <> []) ss /\
    Forall (adjacent (fun a b => ~ exceeds gap_threshold a b)) ss /\
    adjacent (boundary gap_threshold) ss /\
    (frame self = [] -> ss = []).
Proof.
  destruct (detect_sessions_returns gap_threshold self) as [self' H].
  exists (split_by_gap gap_threshold (sort_values (frame self))), self'.
  split; [exact H|].
  split; [apply sort_values_perm|].
  split; [apply sort_values_sorted|].
  split; [apply split_by_gap_concat|].
  split; [apply split_by_gap_nonempty|].
  split; [|split].
  - eapply Forall_impl; [|apply split_by_gap_within].
    intros s. apply Sorted_adjacent.
  - apply Sorted_adjacent, split_by_gap_between.
  - intros ->. rewrite sort_values_nil. reflexivity.
Qed.

(** A gap of exactly the threshold does not open a session: two plays
    30 minutes apart, threshold 30, one session. *)
Example gap_equal_to_threshold_joins :
  exists self',
    detect_sessions 30
      (mkAnalyzer
         (Some [TestData.play 2022 1 1 10 0 "Artist A" "Track 1" 240000;
                TestData.play 2022 1 1 10 30 "Artist A" "Track 2" 180000])
         None) =
    Ok ([[TestData.play 2022 1 1 10 0 "Artist A" "Track 1" 240000;
          TestData.play 2022 1 1 10 30 "Artist A" "Track 2" 180000]], self').
Proof. eexists. vm_compute. reflexivity. Qed.

(** C2 as stated asks for more: that the sort keeps events with equal end
    timestamps in their original order.  The code calls [sort_values] with
    its default kind, which does not promise that; a sort that meets the
    contract and returns two tied plays in the other order makes
    [detect_sessions] return them in that order. *)
Lemma detect_sessions_ties_not_stable :
  ~ (forall (SV : SortValues) (gap_threshold : Q),
        exists self',
          @detect_sessions SV gap_threshold
            (mkAnalyzer (Some TestData.tied_rows) None) =
          Ok (split_by_gap gap_threshold (stable_sort TestData.tied_rows),
              self')).
Proof.
  intros H. destruct (H TiesReversedSortValues 30%Q) as [self' Heq].
  vm_compute in Heq. discriminate Heq.
Qed.

(** ** Session length *)

Lemma fold_min_first (a : Z) (ts : list Z) :
  Forall (fun t => a <= t) ts -> fold_left Z.min ts a = a.
Proof.
  induction ts as [|t ts IH]; simpl; intros H; [reflexivity|].
  inversion H; subst. rewrite Z.min_l by assumption. apply IH; assumption.
Qed.

Lemma fold_max_last (m : Z) (ts : list Z) :
  forall a, a <= m -> Forall (fun t => t <= m) ts ->
            fold_left Z.max (ts ++ [m]) a = m.
Proof.
  induction ts as [|t ts IH]; simpl; intros a Ha H.
  - apply Z.max_r; exact Ha.
  - inversion H; subst. apply IH; [lia | assumption].
Qed.

Lemma col_min_sorted (first : event) (rest : list event) :
  Sorted le_endTime (first :: rest) ->
  col_min (map endTime (first :: rest)) = endTime first.
Proof.
  intros Hs. apply Sorted_StronglySorted in Hs; [|exact le_endTime_trans].
  inversion Hs as [|? ? _ Hall]; subst. simpl. apply fold_min_first.
  rewrite Forall_map. exact Hall.
Qed.

Lemma col_max_sorted (first lst : event) (mid : list event) :
  Sorted le_endTime (first :: mid ++ [lst]) ->
  col_max (map endTime (first :: mid ++ [lst])) = endTime lst.
Proof.
  intros Hs. apply Sorted_StronglySorted in Hs; [|exact le_endTime_trans].
  change (first :: mid ++ [lst]) with ((first :: mid) ++ [lst]) in Hs.
  apply StronglySorted_app_inv in Hs. destruct Hs as [_ Hc].
  simpl. rewrite map_app. simpl. apply fold_max_last.
  - apply (Hc first lst); simpl; auto.
  - rewrite Forall_map, Forall_forall. intros x Hx.
    apply (Hc x lst); simpl; auto.
Qed.

Lemma session_length_sorted (first lst : event) (mid : list event) :
  Sorted le_endTime (first :: mid ++ [lst]) ->
  session_length (first :: mid ++ [lst]) =
  Ok (Timestamp.total_minutes
        (endTime lst
         - (endTime first - Timestamp.Timedelta_minutes (minutes_played first)))).
Proof.
  intros Hs. unfold session_length, first_track_start.
  assert (Hlen : (1 <? length (first :: mid ++ [lst]))%nat = true).
  { apply Nat.ltb_lt. simpl. rewrite length_app. simpl. lia. }
  rewrite Hlen. cbn [iloc0 rbind].
  rewrite (col_min_sorted first (mid ++ [lst]) Hs).
  rewrite (col_max_sorted first lst mid Hs). reflexivity.
Qed.

(** C6. For a session returned by [detect_sessions]: with one event, the
    length computed by [session_statistics] is that event's play duration;
    with more than one, it is the minutes from (the first event's end time
    minus the first event's play duration) to the last event's end time. *)
Theorem session_length_spans_first_start_to_last_end {SV : SortValues}
  (self self' : analyzer) (gap_threshold : Q) (ss : list session)
  (s : session) :
  detect_sessions gap_threshold self = Ok (ss, self') ->
  In s ss ->
  (forall e, s = [e] -> session_length s = Ok (minutes_played e)) /\
  (forall first mid lst,
      s = first :: mid ++ [lst] ->
      session_length s =
      Ok (Timestamp.total_minutes
            (endTime lst
             - (endTime first
                - Timestamp.Timedelta_minutes (minutes_played first))))).
Proof.
  intros Hd Hin.
  rewrite detect_sessions_eq in Hd. cbv zeta in Hd.
  assert (Hss : ss = split_by_gap gap_threshold (sort_values (frame self))).
  { destruct (frame self); injection Hd as <- _; reflexivity. }
  pose proof (split_by_gap_sorted gap_threshold (sort_values (frame self))
                (sort_values_sorted (frame self))) as Hall.
  rewrite <- Hss, Forall_forall in Hall. destruct (Hall s Hin) as [_ Hs].
  split.
  - intros e ->. reflexivity.
  - intros first mid lst ->. apply session_length_sorted; exact Hs.
Qed.

Lemma session_length_spans_first_start_to_last_end_witness :
  detect_sessions 30 TestData.session_analyzer =
    Ok (TestData.session_groups,
        mkAnalyzer (Some TestData.session_rows)
                   (Some TestData.session_groups)) /\
  In (firstn 3 TestData.session_rows) TestData.session_groups /\
  (forall e, firstn 3 TestData.session_rows = [e] ->
             session_length (firstn 3 TestData.session_rows) =
             Ok (minutes_played e)) /\
  (forall first mid lst,
      firstn 3 TestData.session_rows = first :: mid ++ [lst] ->
      session_length (firstn 3 TestData.session_rows) =
      Ok (Timestamp.total_minutes
            (endTime lst
             - (endTime first
                - Timestamp.Timedelta_minutes (minutes_played first))))).
Proof.
  assert (Hd : detect_sessions 30 TestData.session_analyzer =
               Ok (TestData.session_groups,
                   mkAnalyzer (Some TestData.session_rows)
                              (Some TestData.session_groups)))
    by (vm_compute; reflexivity).
  assert (Hin : In (firstn 3 TestData.session_rows) TestData.session_groups)
    by (left; reflexivity).
  split; [exact Hd|]. split; [exact Hin|].
  exact (session_length_spans_first_start_to_last_end
           TestData.session_analyzer _ 30 _ _ Hd Hin).
Defined.

(** ** The opening of the session methods *)

Lemma split_by_gap_cons (t : Q) (e : event) (l : list event) :
  split_by_gap t (e :: l) <> [].
Proof.
  destruct (split_by_gap_head t l e) as [s [ss H]]. rewrite H. discriminate.
Qed.

Lemma sort_values_cons {SV : SortValues} (e : event) (l : list event) :
  sort_values (e :: l) <> [].
Proof.
  intros H. pose proof (sort_values_perm (e :: l)) as Hp.
  rewrite H in Hp. apply Permutation_nil in Hp. discriminate Hp.
Qed.

(** On a table with rows, the opening leaves a stored list of at least one
    session, all well formed: the stored one when there was one, otherwise
    the sessions detected at the default threshold of 30 minutes. *)
Lemma ensure_sessions_ready {SV : SortValues} (self : analyzer) :
  frame self <> [] -> sessions_wf self ->
  exists s ss,
    ensure_sessions self = Ok (tt, mkAnalyzer (df self) (Some (s :: ss))) /\
    Forall (fun s => s <> [] /\ Sorted le_endTime s) (s :: ss) /\
    (if no_sessions self
     then s :: ss =
          split_by_gap default_gap_threshold (sort_values (frame self))
     else sessions self = Some (s :: ss)).
Proof.
  intros Hne Hwf. unfold ensure_sessions.
  destruct (no_sessions self) eqn:Hno.
  - unfold bind. rewrite detect_sessions_eq. cbv zeta.
    destruct (frame self) as [|e rows] eqn:Hf; [contradiction|].
    destruct (split_by_gap default_gap_threshold (sort_values (e :: rows)))
      as [|s ss] eqn:Hsp.
    + exfalso. destruct (sort_values (e :: rows)) as [|e0 l0] eqn:Hsv.
      * exact (sort_values_cons e rows Hsv).
      * exact (split_by_gap_cons _ e0 l0 Hsp).
    + exists s, ss. split; [reflexivity|]. split; [|reflexivity].
      rewrite <- Hsp. apply split_by_gap_sorted, sort_values_sorted.
  - unfold no_sessions in Hno. unfold sessions_wf in Hwf.
    destruct self as [d stored]. simpl in *.
    destruct stored as [[|s ss]|]; try discriminate.
    exists s, ss. repeat split; assumption.
Qed.

(** On a table without rows and with no stored sessions, the opening
    stores nothing: [detect_sessions] returns before its assignment. *)
Lemma ensure_sessions_empty {SV : SortValues} (self : analyzer) :
  frame self = [] -> ensure_sessions self = Ok (tt, self).
Proof.
  intros Hf. unfold ensure_sessions. destruct (no_sessions self); [|reflexivity].
  unfold bind. rewrite detect_sessions_eq. cbv zeta. rewrite Hf. reflexivity.
Qed.

(** ** Claims about [session_statistics] on no sessions *)

(** C7, as the code has it.  When the event table has no rows and the
    stored session list is empty, [session_statistics] returns without
    error the five keys [total_sessions], [avg_session_length],
    [median_session_length], [avg_tracks_per_session] and
    [avg_artists_per_session], each 0, and no other key. *)
Theorem session_statistics_no_sessions {SV : SortValues}
  {NS : Numpy.Summation} (self : analyzer) :
  frame self = [] -> sessions self = Some [] ->
  session_statistics self =
  Ok ([("total_sessions", VInt 0);
       ("avg_session_length", VInt 0);
       ("median_session_length", VInt 0);
       ("avg_tracks_per_session", VInt 0);
       ("avg_artists_per_session", VInt 0)]%string, self).
Proof.
  intros Hf Hs. unfold session_statistics, bind.
  rewrite (ensure_sessions_empty self Hf).
  unfold get_sessions. rewrite Hs. reflexivity.
Qed.

Lemma session_statistics_no_sessions_witness :
  frame TestData.empty_stored_analyzer = [] /\
  sessions TestData.empty_stored_analyzer = Some [] /\
  session_statistics TestData.empty_stored_analyzer =
  Ok ([("total_sessions", VInt 0);
       ("avg_session_length", VInt 0);
       ("median_session_length", VInt 0);
       ("avg_tracks_per_session", VInt 0);
       ("avg_artists_per_session", VInt 0)]%string,
      TestData.empty_stored_analyzer).
Proof.
  split; [reflexivity|]. split; [reflexivity|].
  apply (session_statistics_no_sessions TestData.empty_stored_analyzer);
    reflexivity.
Defined.

(** C7 as stated fails: with no rows and an empty stored list, the result
    of [session_statistics] does not have every key of the interface
    ([session_length_distribution] and the two extremes are missing). *)
Lemma session_statistics_no_sessions_lacks_keys :
  ~ (exists d self',
        session_statistics TestData.empty_stored_analyzer = Ok (d, self') /\
        Forall (fun k => dict_get k d <> None) declared_keys).
Proof.
  intros [d [self' [H Hall]]].
  vm_compute in H. injection H as <- _.
  rewrite Forall_forall in Hall.
  apply (Hall "session_length_distribution"%string).
  - unfold declared_keys. simpl. tauto.
  - reflexivity.
Qed.

(** ** Claims about [session_patterns] *)

Lemma first_track_start_wf (s : session) :
  s <> [] -> Sorted le_endTime s ->
  exists t, first_track_start s = Ok t /\ session_start s = Some t.
Proof.
  intros Hne Hs. destruct s as [|first rest]; [contradiction|].
  eexists. split; [|reflexivity].
  unfold first_track_start. cbn [iloc0 rbind].
  rewrite (col_min_sorted first rest Hs). reflexivity.
Qed.

Lemma mapM_first_track_start (ss : list session) :
  Forall (fun s => s <> [] /\ Sorted le_endTime s) ss ->
  exists starts,
    mapM first_track_start ss = Ok starts /\
    Forall2 (fun s t => session_start s = Some t) ss starts.
Proof.
  induction ss as [|s ss IH]; intros H.
  - exists []. split; [reflexivity | constructor].
  - inversion H as [|? ? [Hne Hs] Hrest]; subst.
    destruct (first_track_start_wf s Hne Hs) as [t [Ht Hst]].
    destruct (IH Hrest) as [starts [Hm Hf2]].
    exists (t :: starts). split.
    + cbn [mapM]. rewrite Ht. cbn [rbind]. rewrite Hm. reflexivity.
    + constructor; assumption.
Qed.

(** The [Counter] of the bucket of each start counts the sessions that
    start in the bucket. *)
Lemma counter_get_starts {A} (eq_dec : forall x y : A, {x = y} + {x <> y})
  (eqb : A -> A -> bool) (bucket : Z -> A) (k : A)
  (ss : list session) (starts : list Z) :
  (forall x y, eqb x y = true <-> x = y) ->
  Forall2 (fun s t => session_start s = Some t) ss starts ->
  counter_get eq_dec (map bucket starts) k =
  sessions_starting_in eqb bucket k ss.
Proof.
  intros Heqb H. unfold counter_get, sessions_starting_in. f_equal.
  induction H as [|s t ss starts Hst _ IH]; [reflexivity|].
  cbn [map count_occ filter]. rewrite Hst.
  destruct (eq_dec (bucket t) k) as [E|E].
  - apply Heqb in E. rewrite E. simpl. f_equal. exact IH.
  - destruct (eqb (bucket t) k) eqn:E'; [apply Heqb in E'; contradiction|].
    exact IH.
Qed.

(** C8, as the code has it.  On an event table with at least one row,
    [session_patterns] returns [by_hour] with every hour 0..23,
    [by_weekday] with the seven weekday names and [by_month] with the
    twelve month names, in that order, and each count is the number of
    stored sessions whose start (first event's end time minus its play
    duration) falls in the bucket, zero included.  The stored sessions are
    the ones detected at the default threshold when none were stored. *)
Theorem session_patterns_all_buckets {SV : SortValues} (self : analyzer) :
  frame self <> [] -> sessions_wf self ->
  exists p ss,
    session_patterns self = Ok (p, mkAnalyzer (df self) (Some ss)) /\
    (if no_sessions self
     then ss = split_by_gap default_gap_threshold (sort_values (frame self))
     else sessions self = Some ss) /\
    by_hour p =
      map (fun h => (h, sessions_starting_in Z.eqb Timestamp.hour h ss))
          all_hours /\
    by_weekday p =
      map (fun d => (d, sessions_starting_in String.eqb Timestamp.weekday_name d ss))
          Timestamp.all_weekdays /\
    by_month p =
      map (fun m => (m, sessions_starting_in String.eqb Timestamp.month_name m ss))
          Timestamp.all_months.
Proof.
  intros Hne Hwf.
  destruct (ensure_sessions_ready self Hne Hwf) as [s [ss [He [Hall Hfrom]]]].
  destruct (mapM_first_track_start (s :: ss) Hall) as [starts [Hm Hf2]].
  unfold session_patterns, bind. rewrite He.
  unfold get_sessions. cbn [sessions]. unfold lift. rewrite Hm.
  eexists. exists (s :: ss). split; [reflexivity|]. split; [exact Hfrom|].
  cbn [by_hour by_weekday by_month].
  split; [|split]; apply map_ext; intros k; f_equal.
  - apply counter_get_starts; [apply Z.eqb_eq | exact Hf2].
  - apply counter_get_starts; [apply String.eqb_eq | exact Hf2].
  - apply counter_get_starts; [apply String.eqb_eq | exact Hf2].
Qed.

Lemma session_patterns_all_buckets_witness :
  frame TestData.session_analyzer <> [] /\
  sessions_wf TestData.session_analyzer /\
  exists p ss,
    session_patterns TestData.session_analyzer =
      Ok (p, mkAnalyzer (df TestData.session_analyzer) (Some ss)) /\
    (if no_sessions TestData.session_analyzer
     then ss = split_by_gap default_gap_threshold
                 (sort_values (frame TestData.session_analyzer))
     else sessions TestData.session_analyzer = Some ss) /\
    by_hour p =
      map (fun h => (h, sessions_starting_in Z.eqb Timestamp.hour h ss))
          all_hours /\
    by_weekday p =
      map (fun d => (d, sessions_starting_in String.eqb Timestamp.weekday_name d ss))
          Timestamp.all_weekdays /\
    by_month p =
      map (fun m => (m, sessions_starting_in String.eqb Timestamp.month_name m ss))
          Timestamp.all_months.
Proof.
  assert (Hne : frame TestData.session_analyzer <> []) by discriminate.
  assert (Hwf : sessions_wf TestData.session_analyzer) by exact I.
  split; [exact Hne|]. split; [exact Hwf|].
  exact (session_patterns_all_buckets TestData.session_analyzer Hne Hwf).
Defined.

(** C8 as stated fails on a table without rows: with an empty stored list
    the three distributions come back empty, so hour 0 is not a key of
    [by_hour]. *)
Lemma session_patterns_empty_table_no_buckets :
  ~ (exists p self',
        session_patterns TestData.empty_stored_analyzer = Ok (p, self') /\
        keys (by_hour p) = all_hours /\
        keys (by_weekday p) = Timestamp.all_weekdays /\
        keys (by_month p) = Timestamp.all_months).
Proof.
  intros [p [self' [H [Hh _]]]].
  vm_compute in H. injection H as <- _. discriminate Hh.
Qed.

(** The last sentence of the amended C8: on a table without rows and with
    an empty stored list of sessions the three distributions are empty. *)
Lemma session_patterns_no_sessions {SV : SortValues} (self : analyzer) :
  frame self = [] -> sessions self = Some [] ->
  session_patterns self = Ok (mkPatterns [] [] [], self).
Proof.
  intros Hf Hs. unfold session_patterns, bind.
  rewrite (ensure_sessions_empty self Hf).
  unfold get_sessions. rewrite Hs. reflexivity.
Qed.

(** ** The opening of the session methods on a table without rows *)

(** C10 at its failing input.  On an analyzer whose table has no rows and
    on which no sessions were stored, [detect_sessions] returns the empty
    list without storing it, and each of the three session methods then
    raises [AttributeError] when it reads [self.sessions]. *)
Theorem session_methods_raise_on_empty_table {SV : SortValues}
  {NS : Numpy.Summation} :
  detect_sessions default_gap_threshold TestData.empty_analyzer =
    Ok ([], TestData.empty_analyzer) /\
  session_statistics TestData.empty_analyzer =
    Err (AttributeError "sessions") /\
  session_patterns TestData.empty_analyzer =
    Err (AttributeError "sessions") /\
  session_content_analysis TestData.empty_analyzer =
    Err (AttributeError "sessions").
Proof. repeat split. Qed.

(** Where the table has rows and nothing usable is stored, the opening
    does what C10 says: the sessions detected at the default threshold of
    30 minutes are stored, and the method goes on with them. *)
Lemma ensure_sessions_detects_default {SV : SortValues} (self : analyzer) :
  frame self <> [] -> no_sessions self = true ->
  exists ss self',
    detect_sessions 30 self = Ok (ss, self') /\
    ensure_sessions self = Ok (tt, self') /\
    sessions self' = Some ss /\ ss <> [].
Proof.
  intros Hne Hno.
  assert (Hwf : sessions_wf self).
  { unfold no_sessions in Hno. unfold sessions_wf.
    destruct (sessions self) as [[|? ?]|]; try discriminate; constructor. }
  destruct (ensure_sessions_ready self Hne Hwf) as [s [ss [He [_ Hfrom]]]].
  rewrite Hno in Hfrom. exists (s :: ss). eexists. split.
  - rewrite detect_sessions_eq. cbv zeta.
    destruct (frame self) eqn:Hf; [contradiction|].
    fold default_gap_threshold. rewrite <- Hfrom. reflexivity.
  - split; [exact He|]. split; [reflexivity | discriminate].
Qed.

(** ** The typology of sessions *)

Lemma Qltb_true (x c : Q) : Qltb x c = true <-> (x < c)%Q.
Proof.
  unfold Qltb. rewrite negb_true_iff, <- not_true_iff_false, Qle_bool_iff.
  split; [apply Qnot_le_lt | apply Qlt_not_le].
Qed.

Lemma single_artist_test (s : session) :
  (1 <? Z.of_nat (length s)) && (artists_in s =? 1) = true <->
  single_artist_rule s.
Proof.
  unfold single_artist_rule.
  rewrite andb_true_iff, Z.ltb_lt, Z.eqb_eq. lia.
Qed.

Lemma album_listening_test (s : session) :
  (3 <? Z.of_nat (length s)) && (artists_in s <=? 2) = true <->
  album_listening_rule s.
Proof.
  unfold album_listening_rule.
  rewrite andb_true_iff, Z.ltb_lt, Z.leb_le. lia.
Qed.

Lemma variety_test (s : session) :
  (1 <? Z.of_nat (length s))
  && Qgtb (ratio (artists_in s) (Z.of_nat (length s))) (8 # 10) = true <->
  variety_rule s.
Proof.
  unfold variety_rule.
  rewrite andb_true_iff, Z.ltb_lt, Qgtb_true. split; intros [H1 H2]; split;
    solve [lia | exact H2].
Qed.

(** C5. [classify_session] gives every session one of the four types, by
    the first rule that matches in the order single_artist,
    album_listening, variety, and mixed when none does; a session with a
    single event is mixed. *)
Theorem classify_session_first_match (s : session) :
  (classify_session s = single_artist <-> single_artist_rule s) /\
  (classify_session s = album_listening <->
   ~ single_artist_rule s /\ album_listening_rule s) /\
  (classify_session s = variety <->
   ~ single_artist_rule s /\ ~ album_listening_rule s /\ variety_rule s) /\
  (classify_session s = mixed <->
   ~ single_artist_rule s /\ ~ album_listening_rule s /\ ~ variety_rule s) /\
  (length s = 1%nat -> classify_session s = mixed).
Proof.
  pose proof (single_artist_test s) as H1.
  pose proof (album_listening_test s) as H2.
  pose proof (variety_test s) as H3.
  assert (Hone : length s = 1%nat ->
                 ~ single_artist_rule s /\ ~ album_listening_rule s /\
                 ~ variety_rule s).
  { unfold single_artist_rule, album_listening_rule, variety_rule.
    intros ->. repeat split; intros [Hlen _]; lia. }
  unfold classify_session. cbv zeta.
  destruct ((1 <? Z.of_nat (length s)) && (artists_in s =? 1)) eqn:E1;
    [|destruct ((3 <? Z.of_nat (length s)) && (artists_in s <=? 2)) eqn:E2;
      [|destruct ((1 <? Z.of_nat (length s))
                  && Qgtb (ratio (artists_in s) (Z.of_nat (length s)))
                          (8 # 10)) eqn:E3]].
  all: assert (N1 : forall P : Prop, (false = true <-> P) -> ~ P)
         by (intros P [_ HP] HP'; discriminate (HP HP')).
  all: assert (Y1 : forall P : Prop, (true = true <-> P) -> P)
         by (intros P [HP _]; exact (HP eq_refl)).
  all: repeat match goal with
              | H : true = true <-> _ |- _ => apply Y1 in H
              | H : false = true <-> _ |- _ => apply N1 in H
              end.
  all: split; [|split; [|split; [|split]]].
  all: try solve [intuition congruence].
  all: intros Hl; destruct (Hone Hl) as [? [? ?]];
    solve [reflexivity | exfalso; tauto].
Qed.

(** ** The context rules *)

Lemma in_hours_test (h a b c d : Z) :
  ((a <=? h) && (h <=? b)) || ((c <=? h) && (h <=? d)) = true <->
  (a <= h <= b \/ c <= h <= d).
Proof. rewrite orb_true_iff, !andb_true_iff, !Z.leb_le. tauto. Qed.

Lemma workout_test (has : bool) (r : row) :
  has && Qgtb (if has then energy r else 5 # 10) (7 # 10)
      && Qgtb (if has then tempo r else 120) 120
      && (((5 <=? hour r) && (hour r <=? 9))
          || ((17 <=? hour r) && (hour r <=? 20))) = true <->
  workout_rule has r.
Proof.
  unfold workout_rule. rewrite !andb_true_iff, in_hours_test.
  destruct has.
  - rewrite !Qgtb_true. tauto.
  - split; [intros [[[H _] _] _] | intros [H _]]; discriminate H.
Qed.

Lemma commute_test (r : row) :
  (weekday r <? 5)
  && (((7 <=? hour r) && (hour r <=? 9))
      || ((16 <=? hour r) && (hour r <=? 19))) = true <->
  commute_rule r.
Proof.
  unfold commute_rule. rewrite andb_true_iff, in_hours_test, Z.ltb_lt. tauto.
Qed.

Lemma work_test (has : bool) (r : row) :
  (weekday r <? 5) && (9 <=? hour r) && (hour r <=? 17)
  && (negb has || Qltb (if has then energy r else 5 # 10) (7 # 10)) = true <->
  work_rule has r.
Proof.
  unfold work_rule.
  rewrite !andb_true_iff, orb_true_iff, Z.ltb_lt, !Z.leb_le, negb_true_iff.
  destruct has.
  - rewrite Qltb_true. intuition congruence.
  - intuition congruence.
Qed.

Lemma party_test (has : bool) (r : row) :
  (weekday r >=? 5) && (hour r >=? 20)
  && (negb has || Qgtb (if has then energy r else 5 # 10) (7 # 10)) = true <->
  party_rule has r.
Proof.
  unfold party_rule.
  rewrite !andb_true_iff, orb_true_iff, !Z.geb_le, negb_true_iff.
  destruct has.
  - rewrite Qgtb_true. intuition (congruence || lia).
  - intuition (congruence || lia).
Qed.

Lemma relaxation_test (has : bool) (r : row) :
  (hour r >=? 20)
  && (negb has || Qltb (if has then energy r else 5 # 10) (5 # 10)) = true <->
  relaxation_rule has r.
Proof.
  unfold relaxation_rule.
  rewrite !andb_true_iff, orb_true_iff, !Z.geb_le, negb_true_iff.
  destruct has.
  - rewrite Qltb_true. intuition (congruence || lia).
  - intuition (congruence || lia).
Qed.

(** C4. [determine_context] labels a play by the first rule that matches
    in the order workout, commute, work, party, relaxation, and [other]
    when none does, every hour and weekday bound included; the play at
    hour 8 on a Monday with energy 0.85 and tempo 150, audio features
    present, matches both the workout and the commute rule and is labelled
    workout. *)
Theorem determine_context_first_match (has_audio_features : bool) (r : row) :
  let W := workout_rule has_audio_features r in
  let C := commute_rule r in
  let K := work_rule has_audio_features r in
  let P := party_rule has_audio_features r in
  let R := relaxation_rule has_audio_features r in
  let label := determine_context has_audio_features r in
  (label = workout <-> W) /\
  (label = commute <-> ~ W /\ C) /\
  (label = work <-> ~ W /\ ~ C /\ K) /\
  (label = party <-> ~ W /\ ~ C /\ ~ K /\ P) /\
  (label = relaxation <-> ~ W /\ ~ C /\ ~ K /\ ~ P /\ R) /\
  (label = other <-> ~ W /\ ~ C /\ ~ K /\ ~ P /\ ~ R) /\
  workout_rule true TestData.monday_morning /\
  commute_rule TestData.monday_morning /\
  determine_context true TestData.monday_morning = workout.
Proof.
  intros W C K P R label.
  pose proof (workout_test has_audio_features r) as H1.
  pose proof (commute_test r) as H2.
  pose proof (work_test has_audio_features r) as H3.
  pose proof (party_test has_audio_features r) as H4.
  pose proof (relaxation_test has_audio_features r) as H5.
  fold W in H1. fold C in H2. fold K in H3. fold P in H4. fold R in H5.
  assert (Hex : workout_rule true TestData.monday_morning /\
                commute_rule TestData.monday_morning /\
                determine_context true TestData.monday_morning = workout).
  { split; [|split]; [| |reflexivity].
    - unfold workout_rule. simpl. repeat split; try reflexivity.
      left. lia.
    - unfold commute_rule. simpl. split; [lia | left; lia]. }
  clearbody W C K P R.
  assert (Hmain :
            (label = workout <-> W) /\
            (label = commute <-> ~ W /\ C) /\
            (label = work <-> ~ W /\ ~ C /\ K) /\
            (label = party <-> ~ W /\ ~ C /\ ~ K /\ P) /\
            (label = relaxation <-> ~ W /\ ~ C /\ ~ K /\ ~ P /\ R) /\
            (label = other <-> ~ W /\ ~ C /\ ~ K /\ ~ P /\ ~ R)).
  { clear Hex. subst label. unfold determine_context. cbv zeta.
    repeat match goal with
           | H : ?c = true <-> _ |- context [if ?c then _ else _] =>
               destruct c; cbv iota
           end.
    all: assert (N1 : forall X : Prop, (false = true <-> X) -> ~ X)
           by (intros X [_ HX] HX'; discriminate (HX HX')).
    all: assert (Y1 : forall X : Prop, (true = true <-> X) -> X)
           by (intros X [HX _]; exact (HX eq_refl)).
    all: repeat match goal with
                | H : true = true <-> _ |- _ => apply Y1 in H
                | H : false = true <-> _ |- _ => apply N1 in H
                end.
    all: split; [|split; [|split; [|split; [|split]]]];
      solve [intuition congruence]. }
  destruct Hmain as [M1 [M2 [M3 [M4 [M5 M6]]]]].
  exact (conj M1 (conj M2 (conj M3 (conj M4 (conj M5 (conj M6 Hex)))))).
Qed.

(** [test_categorize_listening_contexts] *)
Example test_categorize_listening_contexts :
  map snd (categorize_listening_contexts true TestData.context_rows) =
  [workout; work; commute; relaxation; party].
Proof. reflexivity. Qed.

(** ** [predict_context] *)

Lemma collect_features_missing (features : list string)
  (kwargs : list (string * Q)) :
  (exists f, In f features /\ dict_get f kwargs = None) ->
  exists pre f post,
    features = pre ++ f :: post /\
    (forall g, In g pre -> dict_get g kwargs <> None) /\
    dict_get f kwargs = None /\
    Predictor.collect_features features kwargs =
    Err (ValueError ("Missing required feature: " ++ f)%string).
Proof.
  induction features as [|g features IH]; intros [f [Hin Hf]].
  - destruct Hin.
  - destruct (dict_get g kwargs) as [v|] eqn:Hg.
    + destruct Hin as [->|Hin]; [congruence|].
      destruct (IH (ex_intro _ f (conj Hin Hf)))
        as [pre [f' [post [Heq [Hpre [Hf' Hc]]]]]].
      exists (g :: pre), f', post. split; [simpl; f_equal; exact Heq|].
      split; [|split; [exact Hf'|]].
      * intros g' [<-|Hg']; [congruence | apply Hpre; exact Hg'].
      * simpl. rewrite Hg, Hc. reflexivity.
    + exists [], g, features. split; [reflexivity|].
      split; [intros ? []|]. split; [exact Hg|].
      simpl. rewrite Hg. reflexivity.
Qed.

Lemma collect_features_complete (features : list string)
  (kwargs : list (string * Q)) :
  (forall f, In f features -> dict_get f kwargs <> None) ->
  exists vs,
    Predictor.collect_features features kwargs = Ok vs /\
    Forall2 (fun f v => dict_get f kwargs = Some v) features vs.
Proof.
  induction features as [|g features IH]; intros Hall.
  - exists []. split; [reflexivity | constructor].
  - destruct (dict_get g kwargs) as [v|] eqn:Hg.
    + destruct IH as [vs [Hc Hf2]].
      { intros f Hf. apply Hall. right; exact Hf. }
      exists (v :: vs). split.
      * simpl. rewrite Hg, Hc. reflexivity.
      * constructor; assumption.
    + exfalso. apply (Hall g); [left; reflexivity | exact Hg].
Qed.

(** C9. For a trained model: when the keyword arguments omit a feature
    the model was trained with, [predict_context] raises the error that
    names the first such feature in training order, and no default is
    put in its place; when every trained feature is given, the model
    predicts on the values of the trained features in training order. *)
Theorem predict_context_requires_trained_features
  (train_context_predictor : Predictor.state -> result Predictor.state)
  (model : list Q -> context) (features : list string)
  (kwargs : list (string * Q)) :
  let self := Predictor.mkState (Some model) features in
  ((exists f, In f features /\ dict_get f kwargs = None) ->
   exists pre f post,
     features = pre ++ f :: post /\
     (forall g, In g pre -> dict_get g kwargs <> None) /\
     dict_get f kwargs = None /\
     Predictor.predict_context train_context_predictor kwargs self =
     Err (ValueError ("Missing required feature: " ++ f)%string)) /\
  ((forall f, In f features -> dict_get f kwargs <> None) ->
   exists vs,
     Forall2 (fun f v => dict_get f kwargs = Some v) features vs /\
     Predictor.predict_context train_context_predictor kwargs self =
     Ok (model vs, self)).
Proof.
  intros self. split.
  - intros Hm.
    destruct (collect_features_missing features kwargs Hm)
      as [pre [f [post [Heq [Hpre [Hf Hc]]]]]].
    exists pre, f, post. repeat (split; [assumption|]).
    unfold Predictor.predict_context, self. simpl. rewrite Hc. reflexivity.
  - intros Hall.
    destruct (collect_features_complete features kwargs Hall) as [vs [Hc Hf2]].
    exists vs. split; [exact Hf2|].
    unfold Predictor.predict_context, self. simpl. rewrite Hc. reflexivity.
Qed.

(** ** More of the repository's tests *)

(** [test_session_statistics]: 3 sessions, 8 tracks. *)
Example test_session_statistics :
  exists d self',
    session_statistics TestData.session_analyzer = Ok (d, self') /\
    dict_get "total_sessions" d = Some (VInt 3) /\
    dict_get "avg_tracks_per_session" d = Some (VFloat (Float64.div 8 3)).
Proof. eexists; eexists. vm_compute. repeat split. Qed.

(** The scenario of [test_session_patterns], as the code computes it: the
    sessions start 4, 3.25 and about 3.83 minutes before the first end
    times 10:00, 14:00 and 09:00, so in the hours 9, 13 and 8. *)
Example session_patterns_start_hours :
  exists p self',
    session_patterns TestData.session_analyzer = Ok (p, self') /\
    filter (fun hc => negb (snd hc =? 0)) (by_hour p) =
    [(8, 1); (9, 1); (13, 1)].
Proof. eexists; eexists. vm_compute. repeat split. Qed.

(** * Further properties of the session methods *)

(** ** Rounding to binary64 *)

Lemma pow2_pos e : (0 < Float64.pow2 e)%Q.
Proof. apply Qpower_0_lt. reflexivity. Qed.

Lemma pow2_le e e' : e <= e' -> (Float64.pow2 e <= Float64.pow2 e')%Q.
Proof. intros H. apply Qpower_le_compat_l; [exact H | discriminate]. Qed.

Lemma pow2_add e e' :
  (Float64.pow2 (e + e') == Float64.pow2 e * Float64.pow2 e')%Q.
Proof. apply Qpower_plus. discriminate. Qed.

Lemma pow2_inject e : 0 <= e -> (Float64.pow2 e == inject_Z (2 ^ e))%Q.
Proof.
  intros H. unfold Float64.pow2. symmetry. apply Zpower_Qpower. exact H.
Qed.

Lemma pow2_opp e : (Float64.pow2 (- e) * Float64.pow2 e == 1)%Q.
Proof.
  rewrite <- pow2_add. replace (- e + e) with 0 by lia. reflexivity.
Qed.

Lemma ilog2_spec (x : Q) :
  (0 < x)%Q ->
  (Float64.pow2 (Float64.ilog2 x) <= x /\
   x < Float64.pow2 (Float64.ilog2 x + 1))%Q.
Proof.
  intros Hx. destruct x as [n d]. unfold Float64.ilog2. cbn [Qnum Qden].
  assert (Hn : 0 < n) by (unfold Qlt in Hx; cbn in Hx; lia).
  pose proof (Z.log2_spec n Hn) as [Hn1 Hn2].
  pose proof (Z.log2_spec (Zpos d) (Pos2Z.is_pos d)) as [Hd1 Hd2].
  pose proof (Z.log2_nonneg n) as Han.
  pose proof (Z.log2_nonneg (Zpos d)) as Hbn.
  set (a := Z.log2 n) in *. set (b := Z.log2 (Zpos d)) in *.
  assert (Hq : (n # d == inject_Z n / inject_Z (Zpos d))%Q)
    by (rewrite Qmake_Qdiv; reflexivity).
  assert (Hdpos : (0 < inject_Z (Zpos d))%Q) by reflexivity.
  (* bounds 2^(a-b-1) < n/d < 2^(a-b+1) *)
  assert (Hup : (n # d < Float64.pow2 (a - b + 1))%Q).
  { rewrite Hq. apply Qlt_shift_div_r; [exact Hdpos|].
    apply Qlt_le_trans with (inject_Z (2 ^ (a + 1))).
    - rewrite <- Zlt_Qlt. replace (Z.succ a) with (a + 1) in Hn2 by lia.
      exact Hn2.
    - replace (a + 1) with ((a - b + 1) + b) at 1 by lia.
      rewrite <- (pow2_inject (a - b + 1 + b)) by lia.
      rewrite pow2_add. apply Qmult_le_l; [apply pow2_pos|].
      rewrite pow2_inject by lia. rewrite <- Zle_Qle. exact Hd1. }
  assert (Hlo : (Float64.pow2 (a - b - 1) <= n # d)%Q).
  { rewrite Hq. apply Qle_shift_div_l; [exact Hdpos|].
    apply Qle_trans with (inject_Z (2 ^ a)).
    - apply Qle_trans with (Float64.pow2 (a - b - 1) * Float64.pow2 (b + 1))%Q.
      + apply Qmult_le_l; [apply pow2_pos|].
        rewrite pow2_inject by lia. rewrite <- Zle_Qle.
        replace (Z.succ b) with (b + 1) in Hd2 by lia. lia.
      + rewrite <- pow2_add. replace (a - b - 1 + (b + 1)) with a by lia.
        rewrite pow2_inject by lia. apply Qle_refl.
    - rewrite <- Zle_Qle. exact Hn1. }
  destruct (Qle_bool (Float64.pow2 (a - b)) (n # d)) eqn:E.
  - apply Qle_bool_iff in E. split; assumption.
  - replace (a - b - 1 + 1) with (a - b) by lia. split; [exact Hlo|].
    apply Qnot_le_lt. intros H. apply Qle_bool_iff in H. congruence.
Qed.

Lemma ilog2_le (x y : Q) :
  (0 < x)%Q -> (x <= y)%Q -> Float64.ilog2 x <= Float64.ilog2 y.
Proof.
  intros Hx Hxy.
  assert (Hy : (0 < y)%Q) by lra.
  destruct (ilog2_spec x Hx) as [A _]. destruct (ilog2_spec y Hy) as [_ B].
  destruct (Z_lt_le_dec (Float64.ilog2 y) (Float64.ilog2 x)) as [H|H];
    [|exact H].
  exfalso.
  assert (C : (Float64.pow2 (Float64.ilog2 y + 1)
               <= Float64.pow2 (Float64.ilog2 x))%Q)
    by (apply pow2_le; lia).
  lra.
Qed.

Lemma nearest_even_floor (x : Q) :
  Qfloor x <= Float64.nearest_even x <= Qfloor x + 1.
Proof.
  unfold Float64.nearest_even.
  destruct (x - inject_Z (Qfloor x) ?= 1 # 2)%Q; [destruct (Z.even _)| |]; lia.
Qed.

Lemma nearest_even_inject (n : Z) : Float64.nearest_even (inject_Z n) = n.
Proof.
  unfold Float64.nearest_even. rewrite Qfloor_Z.
  assert (E : (inject_Z n - inject_Z n ?= 1 # 2)%Q = Lt).
  { rewrite <- Qlt_alt.
    setoid_replace (inject_Z n - inject_Z n)%Q with 0%Q by ring.
    reflexivity. }
  rewrite E. reflexivity.
Qed.

Lemma nearest_even_le (x y : Q) :
  (x <= y)%Q -> Float64.nearest_even x <= Float64.nearest_even y.
Proof.
  intros Hxy. pose proof (Qfloor_resp_le x y Hxy) as Hf.
  pose proof (nearest_even_floor x) as Bx.
  pose proof (nearest_even_floor y) as By.
  destruct (Z.eq_dec (Qfloor x) (Qfloor y)) as [E|NE]; [|lia].
  unfold Float64.nearest_even in *. rewrite <- E in *.
  set (f := Qfloor x) in *. clearbody f.
  remember (inject_Z f) as qf eqn:Hqf. clear Hqf.
  destruct (x - qf ?= 1 # 2)%Q eqn:Ex;
    destruct (y - qf ?= 1 # 2)%Q eqn:Ey;
    first [apply Qeq_alt in Ex | apply Qlt_alt in Ex | apply Qgt_alt in Ex];
    first [apply Qeq_alt in Ey | apply Qlt_alt in Ey | apply Qgt_alt in Ey];
    try lia; try (exfalso; lra);
    destruct (Z.even f); try lia; exfalso; lra.
Qed.

Lemma nearest_even_comp (x y : Q) :
  (x == y)%Q -> Float64.nearest_even x = Float64.nearest_even y.
Proof.
  intros H. apply Z.le_antisymm; apply nearest_even_le; lra.
Qed.

Lemma nearest_even_ge (x : Q) (k : Z) :
  (inject_Z k <= x)%Q -> k <= Float64.nearest_even x.
Proof.
  intros H. rewrite <- (nearest_even_inject k). apply nearest_even_le. exact H.
Qed.

Lemma nearest_even_upper (x : Q) (k : Z) :
  (x <= inject_Z k)%Q -> Float64.nearest_even x <= k.
Proof.
  intros H. rewrite <- (nearest_even_inject k). apply nearest_even_le. exact H.
Qed.

Lemma scaled_bounds (x : Q) :
  (0 < x)%Q ->
  (inject_Z (2 ^ 52) <= x / Float64.pow2 (Float64.exponent x) /\
   x / Float64.pow2 (Float64.exponent x) < inject_Z (2 ^ 53))%Q.
Proof.
  intros Hx. destruct (ilog2_spec x Hx) as [A B].
  unfold Float64.exponent, Float64.precision.
  set (l := Float64.ilog2 x) in *.
  pose proof (pow2_pos (l - (53 - 1))) as Hp.
  rewrite <- !pow2_inject by lia.
  split.
  - apply Qle_shift_div_l; [exact Hp|]. rewrite <- pow2_add.
    replace (52 + (l - (53 - 1))) with l by lia. exact A.
  - apply Qlt_shift_div_r; [exact Hp|]. rewrite <- pow2_add.
    replace (53 + (l - (53 - 1))) with (l + 1) by lia. exact B.
Qed.

Lemma round_pos_le (x y : Q) :
  (0 < x)%Q -> (x <= y)%Q -> (Float64.round_pos x <= Float64.round_pos y)%Q.
Proof.
  intros Hx Hxy. assert (Hy : (0 < y)%Q) by lra.
  pose proof (ilog2_le x y Hx Hxy) as Hl.
  unfold Float64.round_pos. cbv zeta.
  destruct (Z.eq_dec (Float64.ilog2 x) (Float64.ilog2 y)) as [E|NE].
  - unfold Float64.exponent. rewrite E.
    pose proof (pow2_pos (Float64.ilog2 y - (Float64.precision - 1))) as Hp.
    apply Qmult_le_compat_r; [|lra].
    rewrite <- Zle_Qle. apply nearest_even_le.
    apply Qle_shift_div_l; [exact Hp|].
    setoid_replace (x / Float64.pow2 (Float64.ilog2 y - (Float64.precision - 1))
                    * Float64.pow2 (Float64.ilog2 y - (Float64.precision - 1)))%Q
      with x by (field; lra).
    exact Hxy.
  - destruct (scaled_bounds x Hx) as [_ Bx].
    destruct (scaled_bounds y Hy) as [By _].
    assert (Ex : Float64.exponent x + 1 <= Float64.exponent y)
      by (unfold Float64.exponent; lia).
    pose proof (pow2_pos (Float64.exponent x)) as Hpx.
    pose proof (pow2_pos (Float64.exponent y)) as Hpy.
    apply Qle_trans
      with (inject_Z (2 ^ 53) * Float64.pow2 (Float64.exponent x))%Q.
    + apply Qmult_le_compat_r; [|lra].
      rewrite <- Zle_Qle. apply nearest_even_upper. lra.
    + apply Qle_trans
        with (inject_Z (2 ^ 52) * Float64.pow2 (Float64.exponent y))%Q.
      * apply Qle_trans
          with (inject_Z (2 ^ 52) * Float64.pow2 (Float64.exponent x + 1))%Q.
        -- rewrite pow2_add.
           setoid_replace (Float64.pow2 1) with (inject_Z 2) by reflexivity.
           setoid_replace (inject_Z (2 ^ 53))
             with (inject_Z (2 ^ 52) * inject_Z 2)%Q by reflexivity.
           lra.
        -- apply Qmult_le_l; [reflexivity|]. apply pow2_le. exact Ex.
      * apply Qmult_le_compat_r; [|lra].
        rewrite <- Zle_Qle. apply nearest_even_ge. exact By.
Qed.

Lemma round_pos_pos (x : Q) : (0 < x)%Q -> (0 < Float64.round_pos x)%Q.
Proof.
  intros Hx. destruct (scaled_bounds x Hx) as [B _].
  unfold Float64.round_pos. cbv zeta.
  apply Qmult_lt_0_compat; [|apply pow2_pos].
  apply Qlt_le_trans with (inject_Z (2 ^ 52)); [reflexivity|].
  rewrite <- Zle_Qle. apply nearest_even_ge. exact B.
Qed.

Lemma round_eq (x : Q) :
  (Float64.round x == match (x ?= 0)%Q with
              | Eq => 0
              | Gt => Float64.round_pos x
              | Lt => - Float64.round_pos (- x)
              end)%Q.
Proof. unfold Float64.round. apply Qred_correct. Qed.

Lemma round_zero (x : Q) : (x == 0)%Q -> (Float64.round x == 0)%Q.
Proof.
  intros H. rewrite round_eq. destruct (x ?= 0)%Q eqn:E.
  - reflexivity.
  - apply Qlt_alt in E. exfalso. lra.
  - apply Qgt_alt in E. exfalso. lra.
Qed.

Lemma round_of_pos (x : Q) :
  (0 < x)%Q -> (Float64.round x == Float64.round_pos x)%Q.
Proof.
  intros H. rewrite round_eq. destruct (x ?= 0)%Q eqn:E.
  - apply Qeq_alt in E. exfalso. lra.
  - apply Qlt_alt in E. exfalso. lra.
  - reflexivity.
Qed.

Lemma round_of_neg (x : Q) :
  (x < 0)%Q -> (Float64.round x == - Float64.round_pos (- x))%Q.
Proof.
  intros H. rewrite round_eq. destruct (x ?= 0)%Q eqn:E.
  - apply Qeq_alt in E. exfalso. lra.
  - reflexivity.
  - apply Qgt_alt in E. exfalso. lra.
Qed.

(** Rounding keeps the order. *)
Lemma round_le (x y : Q) :
  (x <= y)%Q -> (Float64.round x <= Float64.round y)%Q.
Proof.
  intros Hxy.
  destruct (Q_dec x 0) as [[Hx|Hx]|Hx]; destruct (Q_dec y 0) as [[Hy|Hy]|Hy];
    try (exfalso; lra).
  - rewrite (round_of_neg x Hx), (round_of_neg y Hy).
    apply Qopp_le_compat. apply round_pos_le; lra.
  - rewrite (round_of_neg x Hx), (round_of_pos y Hy).
    assert (0 < Float64.round_pos (- x))%Q by (apply round_pos_pos; lra).
    pose proof (round_pos_pos y Hy). lra.
  - rewrite (round_of_neg x Hx), (round_zero y Hy).
    assert (0 < Float64.round_pos (- x))%Q by (apply round_pos_pos; lra). lra.
  - rewrite (round_of_pos x Hx), (round_of_pos y Hy).
    apply round_pos_le; lra.
  - rewrite (round_zero x Hx), (round_of_pos y Hy).
    pose proof (round_pos_pos y Hy). lra.
  - rewrite (round_zero x Hx), (round_zero y Hy). lra.
Qed.

Lemma round_comp (x y : Q) :
  (x == y)%Q -> (Float64.round x == Float64.round y)%Q.
Proof. intros H. apply Qle_antisym; apply round_le; lra. Qed.

Lemma round_pos_integer (n : Z) :
  0 < n < 2 ^ 53 -> (Float64.round_pos (inject_Z n) == inject_Z n)%Q.
Proof.
  intros [Hn Hb].
  assert (Hx : (0 < inject_Z n)%Q) by (rewrite Zlt_Qlt in Hn; exact Hn).
  destruct (ilog2_spec _ Hx) as [A B].
  unfold Float64.round_pos. cbv zeta.
  assert (He : Float64.exponent (inject_Z n) <= 0).
  { unfold Float64.exponent, Float64.precision.
    destruct (Z_lt_le_dec (Float64.ilog2 (inject_Z n)) 53) as [H|H]; [lia|].
    exfalso.
    assert (C : (Float64.pow2 53
                 <= Float64.pow2 (Float64.ilog2 (inject_Z n)))%Q)
      by (apply pow2_le; exact H).
    rewrite pow2_inject in C by lia.
    assert (D : (inject_Z (2 ^ 53) <= inject_Z n)%Q) by lra.
    rewrite <- Zle_Qle in D. lia. }
  set (e := Float64.exponent (inject_Z n)) in *.
  pose proof (pow2_pos e) as Hp.
  assert (Hs : (inject_Z n / Float64.pow2 e == inject_Z (n * 2 ^ (- e)))%Q).
  { rewrite inject_Z_mult. rewrite <- pow2_inject by lia.
    unfold Float64.pow2. rewrite Qpower_opp. unfold Qdiv. reflexivity. }
  rewrite (nearest_even_comp _ _ Hs), nearest_even_inject.
  rewrite <- Hs. field. lra.
Qed.

(** Every integer below [2 ^ 53] in magnitude is a binary64 number. *)
Lemma round_integer (n : Z) :
  Z.abs n < 2 ^ 53 -> (Float64.round (inject_Z n) == inject_Z n)%Q.
Proof.
  intros Hb. destruct (Z.lt_trichotomy n 0) as [H|[H|H]].
  - assert (Hx : (inject_Z n < 0)%Q) by (rewrite Zlt_Qlt in H; exact H).
    rewrite (round_of_neg _ Hx).
    change (- inject_Z n)%Q with (inject_Z (- n)).
    rewrite round_pos_integer by lia.
    rewrite inject_Z_opp. ring.
  - subst n. apply round_zero. reflexivity.
  - assert (Hx : (0 < inject_Z n)%Q) by (rewrite Zlt_Qlt in H; exact H).
    rewrite (round_of_pos _ Hx). apply round_pos_integer. lia.
Qed.

(** ** Binary64 sums *)




(** A rounded value is on the same side of an integer below [2 ^ 53] as
    the exact one. *)
Lemma round_le_integer (x : Q) (k : Z) :
  Z.abs k < 2 ^ 53 -> (x <= inject_Z k)%Q -> (Float64.round x <= inject_Z k)%Q.
Proof.
  intros Hk H. rewrite <- (round_integer k Hk). apply round_le. exact H.
Qed.

Lemma round_ge_integer (x : Q) (k : Z) :
  Z.abs k < 2 ^ 53 -> (inject_Z k <= x)%Q -> (inject_Z k <= Float64.round x)%Q.
Proof.
  intros Hk H. rewrite <- (round_integer k Hk). apply round_le. exact H.
Qed.

Lemma added_nonempty (l : list Q) (s : Q) : Numpy.added l s -> l <> [].
Proof.
  induction 1 as [x|l1 l2 s1 s2 _ IH1 _ _|l l' s Hp _ IH].
  - discriminate.
  - intros H. apply app_eq_nil in H. destruct H as [H _]. exact (IH1 H).
  - intros H. subst l'. apply Permutation_sym, Permutation_nil in Hp.
    exact (IH Hp).
Qed.

Lemma added_length (l : list Q) (s : Q) :
  Numpy.added l s -> 0 < Z.of_nat (length l).
Proof.
  intros H. apply added_nonempty in H. destruct l; [contradiction|].
  cbn [length]. lia.
Qed.

(** A sum of [n] numbers between the integers [lo] and [hi] lies between
    [n * lo] and [n * hi], as long as these products stay below
    [2 ^ 53], where every integer is a binary64 number. *)
Lemma added_bounds (l : list Q) (s : Q) (lo hi B : Z) :
  Numpy.added l s ->
  Forall (fun x => inject_Z lo <= x /\ x <= inject_Z hi)%Q l ->
  - B <= lo -> hi <= B ->
  Z.of_nat (length l) * B < 2 ^ 53 ->
  (inject_Z (Z.of_nat (length l) * lo) <= s /\
   s <= inject_Z (Z.of_nat (length l) * hi))%Q.
Proof.
  intros Hadd. revert lo hi B.
  induction Hadd as [x|l1 l2 s1 s2 H1 IH1 H2 IH2|l l' s Hp _ IH];
    intros lo hi B Hall Hlo Hhi Hb.
  - inversion Hall as [|? ? [A1 A2] _]; subst. cbn [length].
    change (Z.of_nat 1) with 1. rewrite !Z.mul_1_l. split; assumption.
  - apply Forall_app in Hall. destruct Hall as [Hall1 Hall2].
    pose proof (added_length _ _ H1) as N1.
    pose proof (added_length _ _ H2) as N2.
    assert (Hlh : lo <= hi).
    { destruct l1 as [|x l1]; [cbn in N1; lia|].
      inversion Hall1 as [|? ? [A1 A2] _]; subst.
      assert (A : (inject_Z lo <= inject_Z hi)%Q) by lra.
      rewrite <- Zle_Qle in A. exact A. }
    rewrite length_app, Nat2Z.inj_add in *.
    set (n1 := Z.of_nat (length l1)) in *.
    set (n2 := Z.of_nat (length l2)) in *.
    destruct (IH1 lo hi B Hall1 Hlo Hhi) as [A1 A2]; [nia|].
    destruct (IH2 lo hi B Hall2 Hlo Hhi) as [B1 B2]; [nia|].
    assert (Rlo : - ((n1 + n2) * B) <= (n1 + n2) * lo <= (n1 + n2) * B)
      by nia.
    assert (Rhi : - ((n1 + n2) * B) <= (n1 + n2) * hi <= (n1 + n2) * B)
      by nia.
    rewrite inject_Z_mult in A1, A2, B1, B2.
    unfold Float64.add. split.
    + apply round_ge_integer; [lia|].
      rewrite inject_Z_mult, inject_Z_plus. lra.
    + apply round_le_integer; [lia|].
      rewrite inject_Z_mult, inject_Z_plus. lra.
  - rewrite <- (Permutation_length Hp) in *.
    apply IH with (B := B); try assumption.
    apply (Permutation_Forall (Permutation_sym Hp)). exact Hall.
Qed.

(** The mean of numbers between two integers lies between them. *)
Lemma mean_integer_bounds {NS : Numpy.Summation} (xs : list Q)
  (lo hi B : Z) :
  xs <> [] ->
  Forall (fun x => inject_Z lo <= x /\ x <= inject_Z hi)%Q xs ->
  - B <= lo -> hi <= B -> 0 < B ->
  Z.of_nat (length xs) * B < 2 ^ 53 ->
  (inject_Z lo <= Numpy.mean xs /\ Numpy.mean xs <= inject_Z hi)%Q.
Proof.
  intros Hne Hall Hlo Hhi HB Hb.
  destruct xs as [|x xs]; [contradiction|].
  pose proof (Numpy.np_sum_added x xs) as Hadd.
  pose proof (added_length _ _ Hadd) as Hn.
  destruct (added_bounds _ _ lo hi B Hadd Hall Hlo Hhi Hb) as [A1 A2].
  unfold Numpy.mean, Float64.div, Float64.of_Z.
  set (n := Z.of_nat (length (x :: xs))) in *.
  set (s := Numpy.np_sum (x :: xs)) in *.
  assert (Hround : (Float64.round (inject_Z n) == inject_Z n)%Q)
    by (apply round_integer; nia).
  assert (Hpos : (0 < inject_Z n)%Q) by (rewrite <- (Zlt_Qlt 0); exact Hn).
  assert (Hlh : lo <= hi).
  { inversion Hall as [|? ? [D1 D2] _]; subst.
    assert (A : (inject_Z lo <= inject_Z hi)%Q) by lra.
    rewrite <- Zle_Qle in A. exact A. }
  assert (HB' : B < 2 ^ 53) by nia.
  rewrite inject_Z_mult in A1, A2.
  split.
  - apply round_ge_integer; [lia|]. rewrite Hround.
    apply Qle_shift_div_l; [exact Hpos|]. lra.
  - apply round_le_integer; [lia|]. rewrite Hround.
    apply Qle_shift_div_r; [exact Hpos|]. lra.
Qed.

Lemma exact_sum_app (l1 l2 : list Q) :
  (exact_sum (l1 ++ l2) == exact_sum l1 + exact_sum l2)%Q.
Proof.
  unfold exact_sum. induction l1 as [|x l1 IH]; simpl.
  - ring.
  - rewrite IH. ring.
Qed.

Lemma exact_sum_perm (l l' : list Q) :
  Permutation l l' -> (exact_sum l == exact_sum l')%Q.
Proof.
  unfold exact_sum.
  induction 1 as [|x l l' _ IH|x y l|l l' l'' _ IH1 _ IH2]; simpl.
  - reflexivity.
  - rewrite IH. reflexivity.
  - ring.
  - rewrite IH1. exact IH2.
Qed.

Lemma exact_sum_counts (l : list Q) :
  Forall count_valued l -> count_valued (exact_sum l).
Proof.
  induction 1 as [|x l [k [Hk Hx]] _ [t [Ht Hs]]].
  - exists 0. split; [lia | reflexivity].
  - exists (k + t). split; [lia|].
    unfold exact_sum in *. simpl. rewrite Hx, Hs, inject_Z_plus. reflexivity.
Qed.

(** Counts that add up to less than [2 ^ 53] are added without error,
    in whatever order. *)
Lemma added_counts (l : list Q) (s : Q) :
  Numpy.added l s ->
  Forall count_valued l ->
  (exact_sum l < inject_Z (2 ^ 53))%Q ->
  (s == exact_sum l)%Q.
Proof.
  induction 1 as [x|l1 l2 s1 s2 H1 IH1 H2 IH2|l l' s Hp _ IH];
    intros Hall Hb.
  - unfold exact_sum. simpl. ring.
  - apply Forall_app in Hall. destruct Hall as [Hall1 Hall2].
    pose proof (exact_sum_app l1 l2) as E.
    destruct (exact_sum_counts l1 Hall1) as [t1 [Ht1 E1]].
    destruct (exact_sum_counts l2 Hall2) as [t2 [Ht2 E2]].
    assert (P1 : (0 <= inject_Z t1)%Q) by (rewrite <- (Zle_Qle 0); exact Ht1).
    assert (P2 : (0 <= inject_Z t2)%Q) by (rewrite <- (Zle_Qle 0); exact Ht2).
    assert (Hs1 : (s1 == exact_sum l1)%Q) by (apply IH1; [assumption | lra]).
    assert (Hs2 : (s2 == exact_sum l2)%Q) by (apply IH2; [assumption | lra]).
    assert (Ht : (inject_Z (t1 + t2) < inject_Z (2 ^ 53))%Q)
      by (rewrite inject_Z_plus; lra).
    rewrite <- Zlt_Qlt in Ht.
    unfold Float64.add.
    rewrite (round_comp (s1 + s2) (inject_Z (t1 + t2)))
      by (rewrite inject_Z_plus; lra).
    rewrite round_integer by lia.
    rewrite inject_Z_plus. lra.
  - pose proof (exact_sum_perm _ _ Hp) as E. rewrite <- E.
    apply IH; [|lra].
    apply (Permutation_Forall (Permutation_sym Hp)). exact Hall.
Qed.




(** ** [session_statistics] on a table with rows *)

Lemma session_length_defined (s : session) :
  s <> [] -> exists q, session_length s = Ok q.
Proof.
  intros Hne. destruct s as [|e s]; [contradiction|].
  unfold session_length, first_track_start. cbn [iloc0 rbind].
  destruct (1 <? length (e :: s))%nat; eexists; reflexivity.
Qed.

Lemma mapM_session_length (ss : list session) :
  Forall (fun s => s <> []) ss ->
  exists lens,
    mapM session_length ss = Ok lens /\
    Forall2 (fun s q => session_length s = Ok q) ss lens.
Proof.
  induction ss as [|s ss IH]; intros H.
  - exists []. split; [reflexivity | constructor].
  - inversion H as [|? ? Hne Hrest]; subst.
    destruct (session_length_defined s Hne) as [q Hq].
    destruct (IH Hrest) as [lens [Hm Hf2]].
    exists (q :: lens). split.
    + cbn [mapM]. rewrite Hq. cbn [rbind]. rewrite Hm. reflexivity.
    + constructor; assumption.
Qed.

(** What [session_statistics] returns once a stored list with at least
    one session is in place and every session length is defined. *)
Lemma session_statistics_stored {SV : SortValues}
  {NS : Numpy.Summation} (self self1 : analyzer)
  (s : session) (ss : list session) (lens : list Q) :
  ensure_sessions self = Ok (tt, self1) ->
  sessions self1 = Some (s :: ss) ->
  mapM session_length (s :: ss) = Ok lens ->
  session_statistics self =
  Ok ([("total_sessions", VInt (Z.of_nat (length (s :: ss))));
       ("avg_session_length", VFloat (Numpy.mean lens));
       ("median_session_length", VFloat (Numpy.median lens));
       ("avg_tracks_per_session",
          VFloat (Numpy.mean
                    (map (fun s => inject_Z (Z.of_nat (length s))) (s :: ss))));
       ("avg_artists_per_session",
          VFloat (Numpy.mean (map (fun s => inject_Z (artists_in s)) (s :: ss))));
       ("session_length_distribution",
          VDict (combine hist_ranges (Numpy.histogram lens hist_bins)));
       ("longest_session_minutes",
          match lens with
          | x :: xs => VFloat (Numpy.max_of x xs)
          | [] => VInt 0
          end);
       ("shortest_session_minutes",
          match lens with
          | x :: xs => VFloat (Numpy.min_of x xs)
          | [] => VInt 0
          end)]%string, self1).
Proof.
  intros He Hs Hm. unfold session_statistics, bind. rewrite He.
  unfold get_sessions. rewrite Hs. unfold lift. rewrite Hm. reflexivity.
Qed.

Lemma wf_nonempty (ss : list session) :
  Forall (fun s => s <> [] /\ Sorted le_endTime s) ss ->
  Forall (fun s => s <> []) ss.
Proof. apply Forall_impl. intros s [H _]. exact H. Qed.

(** X1. On a table with at least one row [session_statistics] returns without
    error the eight keys of its interface, in their order, and
    [total_sessions] is the number of stored sessions, which is at least
    one. *)
Theorem session_statistics_with_rows {SV : SortValues}
  {NS : Numpy.Summation} (self : analyzer) :
  frame self <> [] -> sessions_wf self ->
  exists d ss,
    session_statistics self = Ok (d, mkAnalyzer (df self) (Some ss)) /\
    keys d = declared_keys /\
    dict_get "total_sessions" d = Some (VInt (Z.of_nat (length ss))) /\
    (0 < length ss)%nat.
Proof.
  intros Hne Hwf.
  destruct (ensure_sessions_ready self Hne Hwf) as [s [ss [He [Hall _]]]].
  destruct (mapM_session_length (s :: ss) (wf_nonempty _ Hall))
    as [lens [Hm _]].
  eexists. exists (s :: ss). split.
  - apply (session_statistics_stored self _ s ss lens He eq_refl Hm).
  - split; [reflexivity|]. split; [reflexivity|]. simpl. lia.
Qed.

Lemma session_statistics_with_rows_witness :
  frame TestData.session_analyzer <> [] /\
  sessions_wf TestData.session_analyzer /\
  exists d ss,
    session_statistics TestData.session_analyzer =
      Ok (d, mkAnalyzer (df TestData.session_analyzer) (Some ss)) /\
    keys d = declared_keys /\
    dict_get "total_sessions" d = Some (VInt (Z.of_nat (length ss))) /\
    (0 < length ss)%nat.
Proof.
  assert (Hne : frame TestData.session_analyzer <> []) by discriminate.
  assert (Hwf : sessions_wf TestData.session_analyzer) by exact I.
  split; [exact Hne|]. split; [exact Hwf|].
  exact (session_statistics_with_rows TestData.session_analyzer Hne Hwf).
Defined.

(** X2. The sessions a call of [detect_sessions] stored are the ones the
    statistics are taken of: after [detect_sessions] with any threshold on
    a table with rows, [session_statistics] does not detect again, leaves
    the analyzer as it is and reports the number of sessions of that
    call. *)
Theorem session_statistics_after_detect {SV : SortValues} {NS : Numpy.Summation}
  (self self' : analyzer) (gap_threshold : Q) (ss : list session) :
  frame self <> [] ->
  detect_sessions gap_threshold self = Ok (ss, self') ->
  exists d,
    session_statistics self' = Ok (d, self') /\
    dict_get "total_sessions" d = Some (VInt (Z.of_nat (length ss))).
Proof.
  intros Hne Hd. rewrite detect_sessions_eq in Hd. cbv zeta in Hd.
  destruct (frame self) as [|e rows] eqn:Hf; [contradiction|].
  injection Hd as Hss Hself.
  pose proof (split_by_gap_nonempty gap_threshold (sort_values (e :: rows)))
    as Hall.
  rewrite Hss in Hall, Hself.
  destruct ss as [|s ss].
  { exfalso. destruct (sort_values (e :: rows)) as [|e0 l0] eqn:Hsv.
    - exact (sort_values_cons e rows Hsv).
    - exact (split_by_gap_cons _ e0 l0 Hss). }
  destruct (mapM_session_length (s :: ss) Hall) as [lens [Hm _]].
  assert (He : ensure_sessions self' = Ok (tt, self')).
  { subst self'. reflexivity. }
  assert (Hst : sessions self' = Some (s :: ss)) by (subst self'; reflexivity).
  eexists. split.
  - apply (session_statistics_stored self' self' s ss lens He Hst Hm).
  - reflexivity.
Qed.

Lemma session_statistics_after_detect_witness :
  frame TestData.session_analyzer <> [] /\
  detect_sessions 5 TestData.session_analyzer =
    Ok (split_by_gap 5 (stable_sort TestData.session_rows),
        mkAnalyzer (Some TestData.session_rows)
          (Some (split_by_gap 5 (stable_sort TestData.session_rows)))) /\
  exists d,
    session_statistics
      (mkAnalyzer (Some TestData.session_rows)
         (Some (split_by_gap 5 (stable_sort TestData.session_rows)))) =
    Ok (d, mkAnalyzer (Some TestData.session_rows)
             (Some (split_by_gap 5 (stable_sort TestData.session_rows)))) /\
    dict_get "total_sessions" d =
    Some (VInt (Z.of_nat
                  (length (split_by_gap 5
                             (stable_sort TestData.session_rows))))).
Proof.
  assert (Hne : frame TestData.session_analyzer <> []) by discriminate.
  assert (Hd : detect_sessions 5 TestData.session_analyzer =
               Ok (split_by_gap 5 (stable_sort TestData.session_rows),
                   mkAnalyzer (Some TestData.session_rows)
                     (Some (split_by_gap 5
                              (stable_sort TestData.session_rows)))))
    by (vm_compute; reflexivity).
  split; [exact Hne|]. split; [exact Hd|].
  exact (session_statistics_after_detect TestData.session_analyzer _ 5 _
           Hne Hd).
Defined.

(** ** Tracks per session *)

Lemma length_concat_nonempty {A} (ls : list (list A)) :
  Forall (fun l => l <> []) ls -> (length ls <= length (concat ls))%nat.
Proof.
  induction 1 as [|l ls Hne _ IH]; simpl; [lia|].
  rewrite length_app. destruct l; [contradiction|]. simpl. lia.
Qed.

Lemma exact_sum_lengths (ss : list session) :
  (exact_sum (map (fun s => inject_Z (Z.of_nat (length s))) ss)
   == inject_Z (Z.of_nat (length (concat ss))))%Q.
Proof.
  unfold exact_sum. induction ss as [|s ss IH].
  - reflexivity.
  - cbn [map concat fold_right]. rewrite IH, length_app, Nat2Z.inj_add.
    rewrite inject_Z_plus. reflexivity.
Qed.

Lemma lengths_count_valued (ss : list session) :
  Forall count_valued (map (fun s => inject_Z (Z.of_nat (length s))) ss).
Proof.
  rewrite Forall_map, Forall_forall. intros s _.
  exists (Z.of_nat (length s)). split; [lia | reflexivity].
Qed.

(** The mean of the session sizes is the number of plays divided by the
    number of sessions, rounded once: the sizes are counts, and counts
    below [2 ^ 53] are added without error. *)
Lemma mean_lengths {NS : Numpy.Summation} (ss : list (list event)) :
  ss <> [] -> Forall (fun s => s <> []) ss ->
  Z.of_nat (length (concat ss)) < 2 ^ 53 ->
  (Numpy.mean (map (fun s => inject_Z (Z.of_nat (length s))) ss)
   == Float64.round (inject_Z (Z.of_nat (length (concat ss)))
                     / inject_Z (Z.of_nat (length ss))))%Q.
Proof.
  intros Hne Hall Hb.
  pose proof (length_concat_nonempty ss Hall) as Hle.
  destruct ss as [|s ss]; [contradiction|].
  unfold Numpy.mean, Float64.div, Float64.of_Z. rewrite length_map.
  cbn [map].
  pose proof (Numpy.np_sum_added
                (inject_Z (Z.of_nat (length s)))
                (map (fun s0 => inject_Z (Z.of_nat (length s0))) ss)) as Hadd.
  change (inject_Z (Z.of_nat (length s))
          :: map (fun s0 => inject_Z (Z.of_nat (length s0))) ss)
    with (map (fun s0 : session => inject_Z (Z.of_nat (length s0))) (s :: ss))
    in *.
  pose proof (exact_sum_lengths (s :: ss)) as Hsum.
  apply added_counts in Hadd.
  - apply round_comp. rewrite Hadd, Hsum.
    rewrite round_integer by lia. reflexivity.
  - apply lengths_count_valued.
  - rewrite Hsum, <- Zlt_Qlt. exact Hb.
Qed.

(** X3. On a table of fewer than [2 ^ 53] plays on which
    [session_statistics] detects the sessions itself,
    [avg_tracks_per_session] is the number of plays of the table divided
    by [total_sessions], rounded once to binary64: no play is counted
    twice or left out.  It is at least 1 and at most the number of
    plays. *)
Theorem avg_tracks_per_session_counts_every_play {SV : SortValues}
  {NS : Numpy.Summation} (self : analyzer) :
  frame self <> [] -> no_sessions self = true ->
  Z.of_nat (length (frame self)) < 2 ^ 53 ->
  exists d self' n q,
    session_statistics self = Ok (d, self') /\
    dict_get "total_sessions" d = Some (VInt n) /\
    dict_get "avg_tracks_per_session" d = Some (VFloat q) /\
    (q == Float64.round (inject_Z (Z.of_nat (length (frame self)))
                         / inject_Z n))%Q /\
    (1 <= q)%Q /\ (q <= inject_Z (Z.of_nat (length (frame self))))%Q.
Proof.
  intros Hne Hno Hb.
  assert (Hwf : sessions_wf self).
  { unfold no_sessions in Hno. unfold sessions_wf.
    destruct (sessions self) as [[|? ?]|]; try discriminate; constructor. }
  destruct (ensure_sessions_ready self Hne Hwf) as [s [ss [He [Hall Hfrom]]]].
  rewrite Hno in Hfrom.
  destruct (mapM_session_length (s :: ss) (wf_nonempty _ Hall))
    as [lens [Hm _]].
  assert (Hplays : length (concat (s :: ss)) = length (frame self)).
  { rewrite Hfrom, split_by_gap_concat.
    apply (Permutation_length (sort_values_perm (frame self))). }
  pose proof (length_concat_nonempty _ (wf_nonempty _ Hall)) as Hle.
  rewrite Hplays in Hle.
  assert (Hmean := mean_lengths (s :: ss)).
  rewrite Hplays in Hmean.
  specialize (Hmean ltac:(discriminate) (wf_nonempty _ Hall) Hb).
  set (plays := Z.of_nat (length (frame self))) in *.
  set (n := Z.of_nat (length (s :: ss))) in *.
  change (Z.of_nat (length (s :: ss))) with n in Hmean.
  assert (Hn : 0 < n) by (unfold n; cbn [length]; lia).
  assert (Hnp : n <= plays) by (apply inj_le; exact Hle).
  assert (Hp0 : Z.abs plays < 2 ^ 53) by (unfold plays in *; lia).
  assert (Qn : (0 < inject_Z n)%Q) by (rewrite <- (Zlt_Qlt 0); exact Hn).
  assert (Qnp : (inject_Z n <= inject_Z plays)%Q)
    by (rewrite <- Zle_Qle; exact Hnp).
  eexists. eexists. exists n.
  exists (Numpy.mean
            (map (fun s0 => inject_Z (Z.of_nat (length s0))) (s :: ss))).
  split.
  - apply (session_statistics_stored self _ s ss lens He eq_refl Hm).
  - split; [reflexivity|]. split; [reflexivity|].
    split; [exact Hmean|]. rewrite Hmean. split.
    + apply (round_ge_integer _ 1); [reflexivity|].
      apply Qle_shift_div_l; [exact Qn|].
      change (inject_Z 1) with 1%Q. lra.
    + apply round_le_integer; [exact Hp0|].
      apply Qle_shift_div_r; [exact Qn|].
      assert (Q1 : (1 <= inject_Z n)%Q) by (rewrite <- (Zle_Qle 1); lia).
      assert (Q0 : (0 <= inject_Z plays)%Q) by lra.
      nra.
Qed.

Lemma avg_tracks_per_session_counts_every_play_witness :
  frame TestData.session_analyzer <> [] /\
  no_sessions TestData.session_analyzer = true /\
  Z.of_nat (length (frame TestData.session_analyzer)) < 2 ^ 53 /\
  exists d self' n q,
    session_statistics TestData.session_analyzer = Ok (d, self') /\
    dict_get "total_sessions" d = Some (VInt n) /\
    dict_get "avg_tracks_per_session" d = Some (VFloat q) /\
    (q == Float64.round
            (inject_Z (Z.of_nat (length (frame TestData.session_analyzer)))
             / inject_Z n))%Q /\
    (1 <= q)%Q /\
    (q <= inject_Z (Z.of_nat (length (frame TestData.session_analyzer))))%Q.
Proof.
  assert (Hne : frame TestData.session_analyzer <> []) by discriminate.
  assert (Hb : Z.of_nat (length (frame TestData.session_analyzer)) < 2 ^ 53)
    by reflexivity.
  split; [exact Hne|]. split; [reflexivity|]. split; [exact Hb|].
  exact (avg_tracks_per_session_counts_every_play
           TestData.session_analyzer Hne eq_refl Hb).
Defined.

(** ** Number of sessions *)

(** X4. On a table with rows [detect_sessions] stores the list it returns, and
    that list has at least one session and at most as many sessions as
    the table has plays. *)
Theorem detect_sessions_count_bounds {SV : SortValues} (self : analyzer)
  (gap_threshold : Q) :
  frame self <> [] ->
  exists ss,
    detect_sessions gap_threshold self =
      Ok (ss, mkAnalyzer (df self) (Some ss)) /\
    (1 <= length ss <= length (frame self))%nat.
Proof.
  intros Hne. rewrite detect_sessions_eq. cbv zeta.
  destruct (frame self) as [|e rows] eqn:Hf; [contradiction|].
  eexists. split; [reflexivity|].
  pose proof (split_by_gap_nonempty gap_threshold (sort_values (e :: rows)))
    as Hall.
  pose proof (length_concat_nonempty _ Hall) as Hle.
  rewrite split_by_gap_concat in Hle.
  rewrite (Permutation_length (sort_values_perm (e :: rows))) in Hle.
  split; [|exact Hle].
  destruct (sort_values (e :: rows)) as [|e0 l0] eqn:Hsv.
  - exfalso. exact (sort_values_cons e rows Hsv).
  - destruct (split_by_gap_head gap_threshold l0 e0) as [s [ss' H]].
    rewrite H. simpl. lia.
Qed.

Lemma detect_sessions_count_bounds_witness :
  frame TestData.session_analyzer <> [] /\
  exists ss,
    detect_sessions 30 TestData.session_analyzer =
      Ok (ss, mkAnalyzer (df TestData.session_analyzer) (Some ss)) /\
    (1 <= length ss <= length (frame TestData.session_analyzer))%nat.
Proof.
  assert (Hne : frame TestData.session_analyzer <> []) by discriminate.
  split; [exact Hne|].
  exact (detect_sessions_count_bounds TestData.session_analyzer 30 Hne).
Defined.

(** ** The histogram of session lengths *)

Lemma Qle_bool_false (x y : Q) : Qle_bool x y = false -> (y < x)%Q.
Proof.
  intros H. apply Qnot_le_lt. intros Hle.
  apply Qle_bool_iff in Hle. congruence.
Qed.

(** A length that is not negative falls in exactly one of the six bins. *)
Lemma one_bin_per_length (x : Q) :
  (0 <= x)%Q ->
  fold_right Z.add 0
    (map (fun b => Z.b2z (Numpy.in_bin (fst b) (snd b) x)) hist_bins) = 1.
Proof.
  intros H0. apply Qle_bool_iff in H0.
  cbv [hist_bins hist_edges edge_pairs map fst snd option_map Numpy.in_bin
       fold_right].
  change (inject_Z 0) with (0 : Q). rewrite H0.
  destruct (Qle_bool (inject_Z 15) x) eqn:E15;
    destruct (Qle_bool (inject_Z 30) x) eqn:E30;
    destruct (Qle_bool (inject_Z 60) x) eqn:E60;
    destruct (Qle_bool (inject_Z 120) x) eqn:E120;
    destruct (Qle_bool (inject_Z 240) x) eqn:E240;
    try reflexivity; exfalso;
    repeat match goal with
           | H : Qle_bool _ _ = true |- _ => apply Qle_bool_iff in H
           | H : Qle_bool _ _ = false |- _ => apply Qle_bool_false in H
           end;
    unfold inject_Z in *; lra.
Qed.

Lemma histogram_cons (x : Q) (xs : list Q) (bins : list (Q * option Q)) :
  fold_right Z.add 0 (Numpy.histogram (x :: xs) bins) =
  fold_right Z.add 0
    (map (fun b => Z.b2z (Numpy.in_bin (fst b) (snd b) x)) bins)
  + fold_right Z.add 0 (Numpy.histogram xs bins).
Proof.
  unfold Numpy.histogram. induction bins as [|b bins IH]; [reflexivity|].
  cbn [map fold_right]. rewrite IH. cbn [filter].
  destruct (Numpy.in_bin (fst b) (snd b) x); cbn [length Z.b2z]; lia.
Qed.

Lemma histogram_total (xs : list Q) :
  Forall (fun x => 0 <= x)%Q xs ->
  fold_right Z.add 0 (Numpy.histogram xs hist_bins) = Z.of_nat (length xs).
Proof.
  induction 1 as [|x xs Hx _ IH].
  - reflexivity.
  - rewrite histogram_cons, IH, (one_bin_per_length x Hx).
    cbn [length]. lia.
Qed.

Lemma fold_left_min_le (ts : list Z) (a : Z) : fold_left Z.min ts a <= a.
Proof.
  revert a. induction ts as [|t ts IH]; intros a; simpl; [lia|].
  specialize (IH (Z.min a t)). lia.
Qed.

Lemma fold_left_max_ge (ts : list Z) (a : Z) : a <= fold_left Z.max ts a.
Proof.
  revert a. induction ts as [|t ts IH]; intros a; simpl; [lia|].
  specialize (IH (Z.max a t)). lia.
Qed.

Lemma Timedelta_minutes_nonneg (m : Q) :
  (0 <= m)%Q -> 0 <= Timestamp.Timedelta_minutes m.
Proof.
  intros H. unfold Timestamp.Timedelta_minutes.
  apply Z.quot_pos; [|lia].
  unfold Qle in H. simpl in H. unfold Timestamp.ns_per_minute. lia.
Qed.

(** The length of a session is not negative when the play duration of its
    first event is not. *)
Lemma session_length_nonneg (s : session) (q : Q) :
  Forall (fun e => 0 <= minutes_played e)%Q s ->
  session_length s = Ok q -> (0 <= q)%Q.
Proof.
  intros Hall. destruct s as [|e s]; [discriminate|].
  inversion Hall as [|? ? He _]; subst.
  unfold session_length, first_track_start. cbn [iloc0 rbind].
  destruct (1 <? length (e :: s))%nat; intros H; injection H as <-.
  - pose proof (Timedelta_minutes_nonneg _ He) as Htd.
    pose proof (fold_left_min_le (map endTime s) (endTime e)) as Hmin.
    pose proof (fold_left_max_ge (map endTime s) (endTime e)) as Hmax.
    unfold Timestamp.total_minutes, Qle. cbn [map col_min col_max Qnum Qden].
    lia.
  - exact He.
Qed.

Lemma Forall2_session_length_nonneg (ss : list session) (lens : list Q) :
  Forall (Forall (fun e => 0 <= minutes_played e)%Q) ss ->
  Forall2 (fun s q => session_length s = Ok q) ss lens ->
  Forall (fun x => 0 <= x)%Q lens.
Proof.
  intros Hall H. induction H as [|s q ss lens Hq _ IH]; [constructor|].
  inversion Hall; subst. constructor.
  - eapply session_length_nonneg; eassumption.
  - apply IH; assumption.
Qed.

Lemma Forall_concat_each {A} (P : A -> Prop) (ls : list (list A)) :
  Forall P (concat ls) -> Forall (Forall P) ls.
Proof.
  induction ls as [|l ls IH]; simpl; intros H; constructor.
  - apply Forall_app in H. tauto.
  - apply IH. apply Forall_app in H. tauto.
Qed.

(** X5. When no play of the table has a negative duration and
    [session_statistics] detects the sessions itself,
    [session_length_distribution] has the six labels 0-15min, 15-30min,
    30-60min, 60-120min, 120-240min and 240min+ in that order, and its
    counts add up to [total_sessions]: every session is counted in exactly
    one bin. *)
Theorem session_length_distribution_counts_every_session {SV : SortValues}
  {NS : Numpy.Summation}
  (self : analyzer) :
  frame self <> [] -> no_sessions self = true ->
  Forall (fun e => 0 <= minutes_played e)%Q (frame self) ->
  exists d self' n dist,
    session_statistics self = Ok (d, self') /\
    dict_get "total_sessions" d = Some (VInt n) /\
    dict_get "session_length_distribution" d = Some (VDict dist) /\
    keys dist =
      ["0-15min"; "15-30min"; "30-60min"; "60-120min"; "120-240min";
       "240min+"]%string /\
    fold_right Z.add 0 (map snd dist) = n.
Proof.
  intros Hne Hno Hpos.
  assert (Hwf : sessions_wf self).
  { unfold no_sessions in Hno. unfold sessions_wf.
    destruct (sessions self) as [[|? ?]|]; try discriminate; constructor. }
  destruct (ensure_sessions_ready self Hne Hwf) as [s [ss [He [Hall Hfrom]]]].
  rewrite Hno in Hfrom.
  destruct (mapM_session_length (s :: ss) (wf_nonempty _ Hall))
    as [lens [Hm Hf2]].
  assert (Hlens : Forall (fun x => 0 <= x)%Q lens).
  { apply (Forall2_session_length_nonneg (s :: ss)); [|exact Hf2].
    apply Forall_concat_each. rewrite Hfrom, split_by_gap_concat.
    rewrite Forall_forall in *. intros e Hin. apply Hpos.
    eapply Permutation_in; [apply sort_values_perm | exact Hin]. }
  assert (Hlen : length lens = length (s :: ss)).
  { symmetry. eapply Forall2_length; exact Hf2. }
  pose proof (histogram_total lens Hlens) as Htot.
  eexists. eexists.
  exists (Z.of_nat (length (s :: ss))).
  exists (combine hist_ranges (Numpy.histogram lens hist_bins)).
  split.
  - apply (session_statistics_stored self _ s ss lens He eq_refl Hm).
  - split; [reflexivity|]. split; [reflexivity|]. split.
    + reflexivity.
    + rewrite <- Hlen, <- Htot. reflexivity.
Qed.

Lemma session_length_distribution_counts_every_session_witness :
  frame TestData.session_analyzer <> [] /\
  no_sessions TestData.session_analyzer = true /\
  Forall (fun e => 0 <= minutes_played e)%Q
    (frame TestData.session_analyzer) /\
  exists d self' n dist,
    session_statistics TestData.session_analyzer = Ok (d, self') /\
    dict_get "total_sessions" d = Some (VInt n) /\
    dict_get "session_length_distribution" d = Some (VDict dist) /\
    keys dist =
      ["0-15min"; "15-30min"; "30-60min"; "60-120min"; "120-240min";
       "240min+"]%string /\
    fold_right Z.add 0 (map snd dist) = n.
Proof.
  assert (Hne : frame TestData.session_analyzer <> []) by discriminate.
  assert (Hpos : Forall (fun e => 0 <= minutes_played e)%Q
                   (frame TestData.session_analyzer)).
  { repeat constructor; unfold Qle; simpl; lia. }
  split; [exact Hne|]. split; [reflexivity|]. split; [exact Hpos|].
  exact (session_length_distribution_counts_every_session
           TestData.session_analyzer Hne eq_refl Hpos).
Defined.

(** ** Shortest, mean and longest session *)

Lemma max_of_bounds (xs : list Q) (m : Q) :
  (m <= Numpy.max_of m xs)%Q /\
  Forall (fun x => x <= Numpy.max_of m xs)%Q xs.
Proof.
  unfold Numpy.max_of. revert m. induction xs as [|x xs IH]; intros m.
  - split; [apply Qle_refl | constructor].
  - cbn [fold_left]. destruct (Qle_bool x m) eqn:E.
    + destruct (IH m) as [Hm Hall]. split; [exact Hm|].
      constructor; [|exact Hall].
      apply Qle_bool_iff in E. eapply Qle_trans; eassumption.
    + destruct (IH x) as [Hx Hall]. split.
      * apply Qle_bool_false in E. apply Qlt_le_weak in E.
        eapply Qle_trans; eassumption.
      * constructor; assumption.
Qed.

Lemma min_of_bounds (xs : list Q) (m : Q) :
  (Numpy.min_of m xs <= m)%Q /\
  Forall (fun x => Numpy.min_of m xs <= x)%Q xs.
Proof.
  unfold Numpy.min_of. revert m. induction xs as [|x xs IH]; intros m.
  - split; [apply Qle_refl | constructor].
  - cbn [fold_left]. destruct (Qle_bool m x) eqn:E.
    + destruct (IH m) as [Hm Hall]. split; [exact Hm|].
      constructor; [|exact Hall].
      apply Qle_bool_iff in E. eapply Qle_trans; eassumption.
    + destruct (IH x) as [Hx Hall]. split.
      * apply Qle_bool_false in E. apply Qlt_le_weak in E.
        eapply Qle_trans; eassumption.
      * constructor; assumption.
Qed.

Lemma extremes_bound_all (x : Q) (xs : list Q) :
  Forall (fun y => Numpy.min_of x xs <= y /\ y <= Numpy.max_of x xs)%Q
    (x :: xs).
Proof.
  destruct (min_of_bounds xs x) as [Hmin Hmins].
  destruct (max_of_bounds xs x) as [Hmax Hmaxs].
  constructor; [split; assumption|].
  rewrite Forall_forall in *. intros y Hy. split; auto.
Qed.

(** Three sessions of one play of 42 seconds each: every session is 0.7
    minutes long (the binary64 number next to 0.7), and their mean in
    binary64 is below that. *)
Example mean_below_every_value :
  let x := Float64.div 42000 60000 in
  (Numpy.mean [x; x; x] < x)%Q.
Proof. vm_compute. reflexivity. Qed.

(** X6. On a table with rows the shortest session that
    [session_statistics] reports is no longer than the longest, and the
    mean session length lies between any two integers that bound every
    session length, so between the shortest length rounded down and the
    longest rounded up, as long as the number of sessions times the
    larger bound stays below [2 ^ 53].  (Between the shortest and the
    longest length themselves the mean need not lie: it is rounded.) *)
Theorem session_length_extremes_bracket_mean {SV : SortValues}
  {NS : Numpy.Summation} (self : analyzer) :
  frame self <> [] -> sessions_wf self ->
  exists d self' n shortest avg longest,
    session_statistics self = Ok (d, self') /\
    dict_get "total_sessions" d = Some (VInt n) /\
    dict_get "shortest_session_minutes" d = Some (VFloat shortest) /\
    dict_get "avg_session_length" d = Some (VFloat avg) /\
    dict_get "longest_session_minutes" d = Some (VFloat longest) /\
    (shortest <= longest)%Q /\
    forall lo hi : Z,
      (inject_Z lo <= shortest)%Q -> (longest <= inject_Z hi)%Q ->
      n * Z.max 1 (Z.max (Z.abs lo) (Z.abs hi)) < 2 ^ 53 ->
      (inject_Z lo <= avg /\ avg <= inject_Z hi)%Q.
Proof.
  intros Hne Hwf.
  destruct (ensure_sessions_ready self Hne Hwf) as [s [ss [He [Hall _]]]].
  destruct (mapM_session_length (s :: ss) (wf_nonempty _ Hall))
    as [lens [Hm Hf2]].
  pose proof (Forall2_length Hf2) as Hlen.
  destruct lens as [|x xs]; [inversion Hf2|].
  pose proof (extremes_bound_all x xs) as Hext.
  eexists. eexists. exists (Z.of_nat (length (s :: ss))).
  exists (Numpy.min_of x xs), (Numpy.mean (x :: xs)), (Numpy.max_of x xs).
  split.
  - apply (session_statistics_stored self _ s ss (x :: xs) He eq_refl Hm).
  - repeat (split; [reflexivity|]). split.
    + inversion Hext as [|? ? [A1 A2] _]; subst.
      eapply Qle_trans; eassumption.
    + intros lo hi Hlo Hhi Hb. rewrite Hlen in Hb.
      apply (mean_integer_bounds (x :: xs) lo hi
               (Z.max 1 (Z.max (Z.abs lo) (Z.abs hi))));
        [discriminate | | lia | lia | lia | exact Hb].
      revert Hext. apply Forall_impl. intros y [A1 A2].
      split; eapply Qle_trans; eassumption.
Qed.

Lemma session_length_extremes_bracket_mean_witness :
  frame TestData.session_analyzer <> [] /\
  sessions_wf TestData.session_analyzer /\
  exists d self' shortest avg longest,
    session_statistics TestData.session_analyzer = Ok (d, self') /\
    dict_get "shortest_session_minutes" d = Some (VFloat shortest) /\
    dict_get "avg_session_length" d = Some (VFloat avg) /\
    dict_get "longest_session_minutes" d = Some (VFloat longest) /\
    (8 <= shortest)%Q /\ (longest <= 14)%Q /\
    (8 <= avg)%Q /\ (avg <= 14)%Q.
Proof.
  assert (Hne : frame TestData.session_analyzer <> []) by discriminate.
  assert (Hwf : sessions_wf TestData.session_analyzer) by exact I.
  split; [exact Hne|]. split; [exact Hwf|].
  destruct (session_length_extremes_bracket_mean
              TestData.session_analyzer Hne Hwf)
    as (d & self' & n & shortest & avg & longest
        & Hs & Hn & Hsh & Havg & Hlg & _ & Hbr).
  exists d, self', shortest, avg, longest.
  repeat (split; [assumption|]).
  vm_compute in Hs. injection Hs as <- _.
  vm_compute in Hn. injection Hn as <-.
  vm_compute in Hsh. injection Hsh as <-.
  vm_compute in Hlg. injection Hlg as <-.
  assert (H8 : (inject_Z 8 <= 33 # 4)%Q) by (vm_compute; discriminate).
  split; [exact H8|].
  assert (H14 : (830 # 60 <= inject_Z 14)%Q) by (vm_compute; discriminate).
  split; [exact H14|].
  apply (Hbr 8 14 H8 H14). reflexivity.
Defined.

(** ** Counters *)

Lemma indicator_sum {A} (eq_dec : forall x y : A, {x = y} + {x <> y})
  (x : A) (ks : list A) :
  NoDup ks ->
  fold_right Z.add 0 (map (fun k => if eq_dec x k then 1 else 0) ks) =
  if in_dec eq_dec x ks then 1 else 0.
Proof.
  induction 1 as [|k ks Hnin _ IH]; [reflexivity|].
  cbn [map fold_right]. rewrite IH.
  destruct (eq_dec x k) as [<-|Hne].
  - destruct (in_dec eq_dec x ks) as [Hin|_]; [contradiction|].
    destruct (in_dec eq_dec x (x :: ks)) as [_|Hn]; [reflexivity|].
    exfalso. apply Hn. left; reflexivity.
  - destruct (in_dec eq_dec x ks) as [Hin|Hnin'];
      destruct (in_dec eq_dec x (k :: ks)) as [Hin2|Hnin2]; try reflexivity.
    + exfalso. apply Hnin2. right; exact Hin.
    + exfalso. destruct Hin2 as [->|Hin2]; [apply Hne; reflexivity|].
      contradiction.
Qed.

(** Over a list of distinct keys that holds every counted value, the
    counts of a [Counter] add up to the number of values. *)
Lemma counter_total {A} (eq_dec : forall x y : A, {x = y} + {x <> y})
  (ks xs : list A) :
  NoDup ks -> incl xs ks ->
  fold_right Z.add 0 (map (fun k => counter_get eq_dec xs k) ks) =
  Z.of_nat (length xs).
Proof.
  intros Hnd. induction xs as [|x xs IH]; intros Hincl.
  - clear. unfold counter_get. induction ks as [|k ks IHk];
      [reflexivity | exact IHk].
  - assert (Hstep :
      fold_right Z.add 0 (map (fun k => counter_get eq_dec (x :: xs) k) ks) =
      fold_right Z.add 0 (map (fun k => if eq_dec x k then 1 else 0) ks)
      + fold_right Z.add 0 (map (fun k => counter_get eq_dec xs k) ks)).
    { clear. induction ks as [|k ks IHk]; [reflexivity|].
      cbn [map fold_right]. rewrite IHk. unfold counter_get.
      cbn [count_occ]. destruct (eq_dec x k); lia. }
    rewrite Hstep, IH, (indicator_sum eq_dec x ks Hnd).
    + destruct (in_dec eq_dec x ks) as [_|Hn].
      * cbn [length]. lia.
      * exfalso. apply Hn, Hincl. left; reflexivity.
    + intros y Hy. apply Hincl. right; exact Hy.
Qed.

Lemma Counter_keys {A} (eq_dec : forall x y : A, {x = y} + {x <> y})
  (xs : list A) :
  NoDup (keys (Counter eq_dec xs)) /\ incl xs (keys (Counter eq_dec xs)).
Proof.
  unfold keys, Counter. rewrite map_map. cbn [fst]. rewrite map_id. split.
  - apply NoDup_rev, NoDup_nodup.
  - intros x Hx. apply in_rev. rewrite rev_involutive.
    apply nodup_In, in_rev. rewrite rev_involutive. exact Hx.
Qed.

Lemma Counter_total {A} (eq_dec : forall x y : A, {x = y} + {x <> y})
  (xs : list A) :
  fold_right Z.add 0 (map snd (Counter eq_dec xs)) = Z.of_nat (length xs).
Proof.
  destruct (Counter_keys eq_dec xs) as [Hnd Hincl].
  unfold keys, Counter in *. rewrite map_map in *. cbn [fst snd] in *.
  rewrite map_id in *. apply counter_total; assumption.
Qed.

(** ** [session_content_analysis] on a table with rows *)

Lemma session_content_analysis_stored {SV : SortValues} {NS : Numpy.Summation}
  (self self1 : analyzer) (s : session) (ss : list session) :
  ensure_sessions self = Ok (tt, self1) ->
  sessions self1 = Some (s :: ss) ->
  session_content_analysis self =
  Ok (mkContent
        (mean_or_zero
           (map (fun s => ratio (same_artist_count s)
                                (Z.of_nat (length s) - 1))
                (filter (fun s => (1 <? length s)%nat) (s :: ss))))
        (mean_or_zero
           (map (fun s => ratio (artists_in s) (Z.of_nat (length s)))
                (filter (fun s => (1 <? length s)%nat) (s :: ss))))
        (Counter session_type_eq_dec (map classify_session (s :: ss))),
      self1).
Proof.
  intros He Hs. unfold session_content_analysis, bind. rewrite He.
  unfold get_sessions. rewrite Hs. reflexivity.
Qed.

(** X7. On a table with rows the [session_types] counter of
    [session_content_analysis] lists each type at most once and its
    counts add up to the number of stored sessions: every session is
    counted under exactly one type. *)
Theorem session_types_count_every_session {SV : SortValues}
  {NS : Numpy.Summation}
  (self : analyzer) :
  frame self <> [] -> sessions_wf self ->
  exists c ss,
    session_content_analysis self = Ok (c, mkAnalyzer (df self) (Some ss)) /\
    NoDup (keys (session_types c)) /\
    fold_right Z.add 0 (map snd (session_types c)) = Z.of_nat (length ss).
Proof.
  intros Hne Hwf.
  destruct (ensure_sessions_ready self Hne Hwf) as [s [ss [He _]]].
  eexists. exists (s :: ss). split.
  - apply (session_content_analysis_stored self _ s ss He eq_refl).
  - cbn [session_types]. split.
    + apply Counter_keys.
    + rewrite Counter_total, length_map. reflexivity.
Qed.

Lemma session_types_count_every_session_witness :
  frame TestData.session_analyzer <> [] /\
  sessions_wf TestData.session_analyzer /\
  exists c ss,
    session_content_analysis TestData.session_analyzer =
      Ok (c, mkAnalyzer (df TestData.session_analyzer) (Some ss)) /\
    NoDup (keys (session_types c)) /\
    fold_right Z.add 0 (map snd (session_types c)) = Z.of_nat (length ss).
Proof.
  assert (Hne : frame TestData.session_analyzer <> []) by discriminate.
  assert (Hwf : sessions_wf TestData.session_analyzer) by exact I.
  split; [exact Hne|]. split; [exact Hwf|].
  exact (session_types_count_every_session TestData.session_analyzer Hne Hwf).
Defined.

(** ** The two ratios of [session_content_analysis] *)

Lemma ratio_unit (a b : Z) :
  0 <= a <= b -> 0 < b -> (0 <= ratio a b /\ ratio a b <= 1)%Q.
Proof.
  intros [Ha Hab] Hb. unfold ratio.
  assert (Hpos : (0 < inject_Z b)%Q) by (rewrite <- (Zlt_Qlt 0); exact Hb).
  split.
  - apply Qle_shift_div_l; [exact Hpos|].
    rewrite Qmult_0_l. rewrite <- (Zle_Qle 0). exact Ha.
  - apply Qle_shift_div_r; [exact Hpos|].
    rewrite Qmult_1_l. rewrite <- Zle_Qle. exact Hab.
Qed.

Lemma same_artist_count_bounds (e : event) (s : session) :
  0 <= same_artist_count (e :: s) <= Z.of_nat (length s).
Proof.
  revert e. induction s as [|e' s IH]; intros e; [simpl; lia|].
  specialize (IH e').
  change (same_artist_count (e :: e' :: s))
    with (Z.b2z (String.eqb (artistName e) (artistName e'))
          + same_artist_count (e' :: s)).
  cbn [length]. rewrite Nat2Z.inj_succ.
  destruct (String.eqb (artistName e) (artistName e')); cbn [Z.b2z]; lia.
Qed.

Lemma artists_in_bounds (s : session) :
  0 <= artists_in s <= Z.of_nat (length s).
Proof.
  unfold artists_in, nunique. split; [lia|].
  apply inj_le. rewrite <- (length_map artistName s).
  apply NoDup_incl_length; [apply NoDup_nodup|].
  intros x Hx. apply nodup_In in Hx. exact Hx.
Qed.

Lemma mean_or_zero_unit {NS : Numpy.Summation} (xs : list Q) :
  Forall (fun x => 0 <= x /\ x <= 1)%Q xs ->
  Z.of_nat (length xs) < 2 ^ 53 ->
  (0 <= mean_or_zero xs /\ mean_or_zero xs <= 1)%Q.
Proof.
  intros H Hb. destruct xs as [|x xs].
  - simpl. split; [apply Qle_refl | discriminate].
  - apply (mean_integer_bounds (x :: xs) 0 1 1);
      [discriminate | exact H | lia | lia | lia | lia].
Qed.

(** The sessions a method works on after its opening are fewer than
    [2 ^ 53] when the table and the stored list are. *)
Lemma ensure_sessions_count {SV : SortValues} (self : analyzer)
  (s : session) (ss : list session) :
  Z.of_nat (length (frame self)) < 2 ^ 53 ->
  (forall stored, sessions self = Some stored ->
                  Z.of_nat (length stored) < 2 ^ 53) ->
  Forall (fun s => s <> [] /\ Sorted le_endTime s) (s :: ss) ->
  (if no_sessions self
   then s :: ss =
        split_by_gap default_gap_threshold (sort_values (frame self))
   else sessions self = Some (s :: ss)) ->
  Z.of_nat (length (s :: ss)) < 2 ^ 53.
Proof.
  intros Hb Hstored Hall Hfrom. destruct (no_sessions self).
  - pose proof (length_concat_nonempty _ (wf_nonempty _ Hall)) as Hle.
    rewrite Hfrom in Hle at 2. rewrite split_by_gap_concat in Hle.
    rewrite (Permutation_length (sort_values_perm (frame self))) in Hle.
    apply inj_le in Hle. eapply Z.le_lt_trans; [exact Hle | exact Hb].
  - apply Hstored. exact Hfrom.
Qed.

(** X8. On a table with rows both averages of [session_content_analysis], the
    artist continuity and the ratio of distinct artists to tracks, lie
    between 0 and 1 (the table and a stored list of sessions having fewer
    than [2 ^ 53] entries, so that their counts are binary64 numbers). *)
Theorem session_content_ratios_are_fractions {SV : SortValues}
  {NS : Numpy.Summation} (self : analyzer) :
  frame self <> [] -> sessions_wf self ->
  Z.of_nat (length (frame self)) < 2 ^ 53 ->
  (forall stored, sessions self = Some stored ->
                  Z.of_nat (length stored) < 2 ^ 53) ->
  exists c self',
    session_content_analysis self = Ok (c, self') /\
    (0 <= avg_artist_continuity c)%Q /\ (avg_artist_continuity c <= 1)%Q /\
    (0 <= avg_unique_artists_ratio c)%Q /\
    (avg_unique_artists_ratio c <= 1)%Q.
Proof.
  intros Hne Hwf Hb Hstored.
  destruct (ensure_sessions_ready self Hne Hwf)
    as [s [ss [He [Hall Hfrom]]]].
  pose proof (ensure_sessions_count self s ss Hb Hstored Hall Hfrom) as Hn.
  assert (Hlonger :
            Z.of_nat (length (filter (fun s => (1 <? length s)%nat) (s :: ss)))
            < 2 ^ 53).
  { pose proof (filter_length_le (fun s => (1 <? length s)%nat) (s :: ss))
      as Hle.
    apply inj_le in Hle. eapply Z.le_lt_trans; [exact Hle | exact Hn]. }
  eexists. eexists. split.
  - apply (session_content_analysis_stored self _ s ss He eq_refl).
  - cbn [avg_artist_continuity avg_unique_artists_ratio].
    assert (H1 : Forall (fun x => 0 <= x /\ x <= 1)%Q
               (map (fun s => ratio (same_artist_count s)
                                    (Z.of_nat (length s) - 1))
                    (filter (fun s => (1 <? length s)%nat) (s :: ss)))).
    { rewrite Forall_map, Forall_forall. intros s0 Hs0.
      apply filter_In in Hs0. destruct Hs0 as [_ Hlen].
      apply Nat.ltb_lt in Hlen. destruct s0 as [|e s0]; [simpl in Hlen; lia|].
      pose proof (same_artist_count_bounds e s0) as Hb0.
      cbn [length] in *. apply ratio_unit; lia. }
    assert (H2 : Forall (fun x => 0 <= x /\ x <= 1)%Q
               (map (fun s => ratio (artists_in s) (Z.of_nat (length s)))
                    (filter (fun s => (1 <? length s)%nat) (s :: ss)))).
    { rewrite Forall_map, Forall_forall. intros s0 Hs0.
      apply filter_In in Hs0. destruct Hs0 as [_ Hlen].
      apply Nat.ltb_lt in Hlen.
      pose proof (artists_in_bounds s0) as Hb0. apply ratio_unit; lia. }
    destruct (mean_or_zero_unit _ H1) as [A1 A2];
      [rewrite length_map; exact Hlonger|].
    destruct (mean_or_zero_unit _ H2) as [B1 B2];
      [rewrite length_map; exact Hlonger|].
    repeat split; assumption.
Qed.

Lemma session_content_ratios_are_fractions_witness :
  frame TestData.session_analyzer <> [] /\
  sessions_wf TestData.session_analyzer /\
  Z.of_nat (length (frame TestData.session_analyzer)) < 2 ^ 53 /\
  (forall stored, sessions TestData.session_analyzer = Some stored ->
                  Z.of_nat (length stored) < 2 ^ 53) /\
  exists c self',
    session_content_analysis TestData.session_analyzer = Ok (c, self') /\
    (0 <= avg_artist_continuity c)%Q /\ (avg_artist_continuity c <= 1)%Q /\
    (0 <= avg_unique_artists_ratio c)%Q /\
    (avg_unique_artists_ratio c <= 1)%Q.
Proof.
  assert (Hne : frame TestData.session_analyzer <> []) by discriminate.
  assert (Hwf : sessions_wf TestData.session_analyzer) by exact I.
  assert (Hb : Z.of_nat (length (frame TestData.session_analyzer)) < 2 ^ 53)
    by reflexivity.
  assert (Hstored : forall stored,
             sessions TestData.session_analyzer = Some stored ->
             Z.of_nat (length stored) < 2 ^ 53)
    by (intros stored H; discriminate H).
  split; [exact Hne|]. split; [exact Hwf|]. split; [exact Hb|].
  split; [exact Hstored|].
  exact (session_content_ratios_are_fractions
           TestData.session_analyzer Hne Hwf Hb Hstored).
Defined.

(** ** Every start falls in one bucket of each distribution *)

Lemma hour_in_all_hours (ts : Z) : In (Timestamp.hour ts) all_hours.
Proof.
  unfold all_hours, Timestamp.hour.
  pose proof (Z.mod_pos_bound (ts / Timestamp.ns_per_hour) 24 eq_refl) as H.
  apply in_map_iff. exists (Z.to_nat ((ts / Timestamp.ns_per_hour) mod 24)).
  split; [lia|]. apply in_seq. lia.
Qed.

Lemma weekday_name_in_all_weekdays (ts : Z) :
  In (Timestamp.weekday_name ts) Timestamp.all_weekdays.
Proof.
  unfold Timestamp.weekday_name, Timestamp.dayofweek.
  pose proof (Z.mod_pos_bound (Timestamp.days ts + 3) 7 eq_refl) as H.
  apply nth_In. simpl. lia.
Qed.

(** The month computed from a timestamp is one of 1..12. *)
Lemma month_range (ts : Z) : 1 <= Timestamp.month ts <= 12.
Proof.
  unfold Timestamp.month. cbv zeta.
  remember (Timestamp.days ts + 719468) as z eqn:Hz. clear Hz.
  remember (z - z / 146097 * 146097) as doe eqn:Hdoe.
  assert (Hr : 0 <= doe < 146097).
  { subst doe. pose proof (Z.mod_pos_bound z 146097 eq_refl) as Hm.
    rewrite Z.mod_eq in Hm by lia. lia. }
  clear Hdoe.
  destruct ((5 * (doe - (365 * ((doe - doe / 1460 + doe / 36524
                                  - doe / 146096) / 365)
                         + (doe - doe / 1460 + doe / 36524
                            - doe / 146096) / 365 / 4
                         - (doe - doe / 1460 + doe / 36524
                            - doe / 146096) / 365 / 100)) + 2) / 153 <? 10)
    eqn:E; [apply Z.ltb_lt in E | apply Z.ltb_ge in E];
    revert E; Z.to_euclidean_division_equations; lia.
Qed.

Lemma month_name_in_all_months (ts : Z) :
  In (Timestamp.month_name ts) Timestamp.all_months.
Proof.
  unfold Timestamp.month_name. pose proof (month_range ts) as H.
  apply nth_In. simpl. lia.
Qed.

Lemma all_hours_NoDup : NoDup all_hours.
Proof.
  unfold all_hours. apply Finite.Injective_map_NoDup; [|apply seq_NoDup].
  intros x y. apply Nat2Z.inj.
Qed.

Lemma all_weekdays_NoDup : NoDup Timestamp.all_weekdays.
Proof.
  replace Timestamp.all_weekdays
    with (nodup string_dec Timestamp.all_weekdays) by reflexivity.
  apply NoDup_nodup.
Qed.

Lemma all_months_NoDup : NoDup Timestamp.all_months.
Proof.
  replace Timestamp.all_months
    with (nodup string_dec Timestamp.all_months) by reflexivity.
  apply NoDup_nodup.
Qed.

Lemma bucket_counts_total {A} (eq_dec : forall x y : A, {x = y} + {x <> y})
  (bucket : Z -> A) (buckets : list A) (starts : list Z) :
  NoDup buckets -> (forall t, In (bucket t) buckets) ->
  fold_right Z.add 0
    (map snd (map (fun k => (k, counter_get eq_dec (map bucket starts) k))
                  buckets)) =
  Z.of_nat (length starts).
Proof.
  intros Hnd Hin. rewrite map_map. cbn [snd].
  rewrite counter_total; [apply f_equal, length_map | exact Hnd|].
  intros x Hx. apply in_map_iff in Hx. destruct Hx as [t [<- _]]. apply Hin.
Qed.

(** X9. On a table with rows each of the three distributions of
    [session_patterns] adds up to the number of stored sessions: the start
    of every session is counted in exactly one hour, one weekday and one
    month. *)
Theorem session_patterns_count_every_session {SV : SortValues}
  (self : analyzer) :
  frame self <> [] -> sessions_wf self ->
  exists p ss,
    session_patterns self = Ok (p, mkAnalyzer (df self) (Some ss)) /\
    fold_right Z.add 0 (map snd (by_hour p)) = Z.of_nat (length ss) /\
    fold_right Z.add 0 (map snd (by_weekday p)) = Z.of_nat (length ss) /\
    fold_right Z.add 0 (map snd (by_month p)) = Z.of_nat (length ss).
Proof.
  intros Hne Hwf.
  destruct (ensure_sessions_ready self Hne Hwf) as [s [ss [He [Hall _]]]].
  destruct (mapM_first_track_start (s :: ss) Hall) as [starts [Hm Hf2]].
  assert (Hlen : length starts = length (s :: ss)).
  { symmetry. eapply Forall2_length; exact Hf2. }
  eexists. exists (s :: ss). split.
  - unfold session_patterns, bind. rewrite He.
    unfold get_sessions. cbn [sessions]. unfold lift. rewrite Hm.
    reflexivity.
  - cbn [by_hour by_weekday by_month]. rewrite <- Hlen.
    split; [|split].
    + apply bucket_counts_total;
        [apply all_hours_NoDup | apply hour_in_all_hours].
    + apply bucket_counts_total;
        [apply all_weekdays_NoDup | apply weekday_name_in_all_weekdays].
    + apply bucket_counts_total;
        [apply all_months_NoDup | apply month_name_in_all_months].
Qed.

Lemma session_patterns_count_every_session_witness :
  frame TestData.session_analyzer <> [] /\
  sessions_wf TestData.session_analyzer /\
  exists p ss,
    session_patterns TestData.session_analyzer =
      Ok (p, mkAnalyzer (df TestData.session_analyzer) (Some ss)) /\
    fold_right Z.add 0 (map snd (by_hour p)) = Z.of_nat (length ss) /\
    fold_right Z.add 0 (map snd (by_weekday p)) = Z.of_nat (length ss) /\
    fold_right Z.add 0 (map snd (by_month p)) = Z.of_nat (length ss).
Proof.
  assert (Hne : frame TestData.session_analyzer <> []) by discriminate.
  assert (Hwf : sessions_wf TestData.session_analyzer) by exact I.
  split; [exact Hne|]. split; [exact Hwf|].
  exact (session_patterns_count_every_session
           TestData.session_analyzer Hne Hwf).
Defined.

(** * Further properties of the context rules and the moods *)

Lemma determine_context_cases (has : bool) (r : row) :
  (workout_rule has r /\ determine_context has r = workout) \/
  (~ workout_rule has r /\ commute_rule r /\
   determine_context has r = commute) \/
  (~ workout_rule has r /\ ~ commute_rule r /\ work_rule has r /\
   determine_context has r = work) \/
  (~ workout_rule has r /\ ~ commute_rule r /\ ~ work_rule has r /\
   party_rule has r /\ determine_context has r = party) \/
  (~ workout_rule has r /\ ~ commute_rule r /\ ~ work_rule has r /\
   ~ party_rule has r /\ relaxation_rule has r /\
   determine_context has r = relaxation) \/
  (~ workout_rule has r /\ ~ commute_rule r /\ ~ work_rule has r /\
   ~ party_rule has r /\ ~ relaxation_rule has r /\
   determine_context has r = other).
Proof.
  pose proof (workout_test has r) as H1.
  pose proof (commute_test r) as H2.
  pose proof (work_test has r) as H3.
  pose proof (party_test has r) as H4.
  pose proof (relaxation_test has r) as H5.
  remember (workout_rule has r) as W eqn:HW.
  remember (commute_rule r) as C eqn:HC.
  remember (work_rule has r) as K eqn:HK.
  remember (party_rule has r) as P eqn:HP.
  remember (relaxation_rule has r) as R eqn:HR.
  clear HW HC HK HP HR.
  unfold determine_context. cbv zeta.
  repeat match goal with
         | H : ?c = true <-> _ |- context [if ?c then _ else _] =>
             destruct c; cbv iota
         end.
  all: assert (N1 : forall X : Prop, (false = true <-> X) -> ~ X)
         by (intros X [_ HX] HX'; discriminate (HX HX')).
  all: assert (Y1 : forall X : Prop, (true = true <-> X) -> X)
         by (intros X [HX _]; exact (HX eq_refl)).
  all: repeat match goal with
              | H : true = true <-> _ |- _ => apply Y1 in H
              | H : false = true <-> _ |- _ => apply N1 in H
              end.
  all: tauto.
Qed.

(** X10. What the rule table never does.  A play on a Saturday or Sunday is
    never labelled commute or work; party is given only on a Saturday or
    Sunday; party and relaxation are given only from hour 20 on; and
    workout is given only between hours 5 and 9 or 17 and 20. *)
Theorem context_labels_respect_day_and_hour (has_audio_features : bool)
  (r : row) :
  let label := determine_context has_audio_features r in
  (weekday r >= 5 -> label <> commute /\ label <> work) /\
  (label = party -> weekday r >= 5) /\
  (label = party \/ label = relaxation -> hour r >= 20) /\
  (label = workout -> 5 <= hour r <= 9 \/ 17 <= hour r <= 20).
Proof.
  intros label. subst label.
  destruct (determine_context_cases has_audio_features r)
    as [H|[H|[H|[H|[H|H]]]]];
    unfold workout_rule, commute_rule, work_rule, party_rule,
      relaxation_rule in H;
    repeat match goal with
           | H : _ /\ _ |- _ => destruct H
           end;
    match goal with
    | E : determine_context _ _ = _ |- _ => rewrite E
    end;
    repeat split; intros;
    try discriminate; try lia;
    try (match goal with
         | H : _ \/ _ |- _ => destruct H; discriminate
         end);
    try assumption.
Qed.

(** X11. Without the energy and tempo columns no play is labelled workout, and
    every play from hour 20 on is labelled party on a Saturday or Sunday
    and relaxation on the other days. *)
Theorem contexts_without_audio_features (r : row) :
  determine_context false r <> workout /\
  (hour r >= 20 -> weekday r >= 5 -> determine_context false r = party) /\
  (hour r >= 20 -> weekday r < 5 -> determine_context false r = relaxation).
Proof.
  destruct (determine_context_cases false r) as [H|[H|[H|[H|[H|H]]]]];
    unfold workout_rule, commute_rule, work_rule, party_rule,
      relaxation_rule in H;
    repeat match goal with
           | H : _ /\ _ |- _ => destruct H
           end;
    match goal with
    | E : determine_context _ _ = _ |- _ => rewrite E
    end;
    repeat split; intros; try discriminate; try reflexivity;
    exfalso; try lia;
    try (match goal with
         | H : ~ (_ /\ _) |- _ => apply H; repeat split; auto; lia
         end).
Qed.

Lemma get_mood_quadrant (energy valence : Q) :
  (get_mood energy valence = Happy \/ get_mood energy valence = Angry <->
   (5 # 10 < energy)%Q) /\
  (get_mood energy valence = Happy \/ get_mood energy valence = Relaxed <->
   (5 # 10 < valence)%Q).
Proof.
  unfold get_mood, Qgtb.
  destruct (Qle_bool energy (5 # 10)) eqn:Ee;
    destruct (Qle_bool valence (5 # 10)) eqn:Ev; cbn [negb andb];
    repeat match goal with
           | H : Qle_bool _ _ = true |- _ => apply Qle_bool_iff in H
           | H : Qle_bool _ _ = false |- _ => apply Qle_bool_false in H
           end;
    split; split; intros H;
    try (destruct H; discriminate);
    try (exfalso; lra);
    try assumption; auto.
Qed.

(** X12. [classify_moods] needs both feature columns and raises without one of
    them.  With both, every row gets a mood exactly when its energy and
    its valence are present, and that mood records the two values as two
    bits: it is Happy or Angry exactly when the energy is above 0.5, and
    Happy or Relaxed exactly when the valence is above 0.5 (a value of
    exactly 0.5 counts as low). *)
Theorem classify_moods_quadrants (columns : list string)
  (rows : list audio_row) :
  (has_column columns "energy" = true ->
   has_column columns "valence" = true ->
   exists moods,
     classify_moods columns rows = Ok moods /\
     Forall2
       (fun r m =>
          match row_energy r, row_valence r with
          | Some energy, Some valence =>
              exists md,
                m = Some md /\
                (md = Happy \/ md = Angry <-> (5 # 10 < energy)%Q) /\
                (md = Happy \/ md = Relaxed <-> (5 # 10 < valence)%Q)
          | _, _ => m = None
          end) rows moods) /\
  (has_column columns "energy" = false \/
   has_column columns "valence" = false ->
   classify_moods columns rows =
   Err (ValueError
          "Energy and valence features required. Run enrich_with_audio_features() first")).
Proof.
  split.
  - intros He Hv. unfold classify_moods. cbn [forallb]. rewrite He, Hv.
    cbn [andb]. eexists. split; [reflexivity|].
    induction rows as [|r rows IH]; [constructor|].
    cbn [map]. constructor; [|exact IH].
    destruct (row_energy r) as [e|]; [|reflexivity].
    destruct (row_valence r) as [v|]; [|reflexivity].
    exists (get_mood e v). split; [reflexivity|]. apply get_mood_quadrant.
  - intros H. unfold classify_moods. cbn [forallb].
    destruct H as [H|H]; rewrite H; [reflexivity|].
    rewrite andb_false_r. reflexivity.
Qed.

(** * Thresholds at the two ends *)

Lemma total_minutes_le (a b : Z) :
  a <= b -> (Timestamp.total_minutes a <= Timestamp.total_minutes b)%Q.
Proof. intros H. unfold Timestamp.total_minutes, Qle. simpl. lia. Qed.

Lemma total_minutes_nonneg (a : Z) :
  0 <= a -> (0 <= Timestamp.total_minutes a)%Q.
Proof. intros H. unfold Timestamp.total_minutes, Qle. simpl. lia. Qed.

Lemma split_by_gap_two (t : Q) (e e' : event) (l : list event) :
  split_by_gap t (e :: e' :: l) =
  match split_by_gap t (e' :: l) with
  | s :: ss => if exceedsb t e e' then [e] :: s :: ss else (e :: s) :: ss
  | [] => [[e]]
  end.
Proof. reflexivity. Qed.

Lemma split_by_gap_all_exceed (t : Q) (l : list event) :
  Sorted (fun a b => exceeds t a b) l ->
  split_by_gap t l = map (fun e => [e]) l.
Proof.
  induction l as [|e l IH]; intros Hs; [reflexivity|].
  inversion Hs as [|? ? Hs' Hhd]; subst. specialize (IH Hs').
  destruct l as [|e' l]; [reflexivity|].
  rewrite split_by_gap_two, IH. inversion Hhd as [|? ? Hex]; subst.
  apply exceedsb_true in Hex. rewrite Hex. reflexivity.
Qed.

Lemma split_by_gap_none_exceed (t : Q) (e : event) (l : list event) :
  Sorted (fun a b => ~ exceeds t a b) (e :: l) ->
  split_by_gap t (e :: l) = [e :: l].
Proof.
  revert e. induction l as [|e' l IH]; intros e Hs; [reflexivity|].
  inversion Hs as [|? ? Hs' Hhd]; subst. specialize (IH e' Hs').
  rewrite split_by_gap_two, IH. inversion Hhd as [|? ? Hex]; subst.
  apply exceedsb_false in Hex. rewrite Hex. reflexivity.
Qed.

Lemma Sorted_weaken {A} (R R' : A -> A -> Prop) (l : list A) :
  (forall a b, In a l -> In b l -> R a b -> R' a b) ->
  Sorted R l -> Sorted R' l.
Proof.
  intros Himp Hs. induction Hs as [|a l Hs IH Hhd]; [constructor|].
  constructor.
  - apply IH. intros x y Hx Hy. apply Himp; right; assumption.
  - destruct Hhd as [|b l Hab]; constructor.
    apply Himp; [left; reflexivity | right; left; reflexivity | exact Hab].
Qed.

(** X13. With a negative threshold every play is a session of its own: the
    sessions are the plays of the sorted table, one by one. *)
Theorem detect_sessions_negative_threshold {SV : SortValues}
  (self : analyzer) (gap_threshold : Q) :
  (gap_threshold < 0)%Q ->
  exists ss self',
    detect_sessions gap_threshold self = Ok (ss, self') /\
    ss = map (fun e => [e]) (sort_values (frame self)) /\
    length ss = length (frame self).
Proof.
  intros Hneg.
  destruct (detect_sessions_returns gap_threshold self) as [self' H].
  eexists. exists self'. split; [exact H|].
  assert (Heq : split_by_gap gap_threshold (sort_values (frame self)) =
                map (fun e => [e]) (sort_values (frame self))).
  { apply split_by_gap_all_exceed.
    eapply Sorted_weaken; [|apply sort_values_sorted].
    intros a b _ _ Hab. unfold exceeds, gap_minutes.
    eapply Qlt_le_trans; [exact Hneg|].
    apply total_minutes_nonneg. unfold le_endTime in Hab. lia. }
  split; [exact Heq|].
  rewrite Heq, length_map.
  apply Permutation_length, sort_values_perm.
Qed.

Lemma detect_sessions_negative_threshold_witness :
  (-1 < 0)%Q /\
  exists ss self',
    detect_sessions (-1) TestData.session_analyzer = Ok (ss, self') /\
    ss = map (fun e => [e]) (sort_values (frame TestData.session_analyzer)) /\
    length ss = length (frame TestData.session_analyzer).
Proof.
  assert (H : (-1 < 0)%Q) by reflexivity.
  split; [exact H|].
  exact (detect_sessions_negative_threshold TestData.session_analyzer (-1) H).
Defined.

Lemma fold_left_min_In (ts : list Z) (a t : Z) :
  In t ts -> fold_left Z.min ts a <= t.
Proof.
  revert a. induction ts as [|b ts IH]; intros a; [intros []|].
  intros [<-|Hin]; simpl.
  - pose proof (fold_left_min_le ts (Z.min a b)). lia.
  - apply IH; exact Hin.
Qed.

Lemma fold_left_max_In (ts : list Z) (a t : Z) :
  In t ts -> t <= fold_left Z.max ts a.
Proof.
  revert a. induction ts as [|b ts IH]; intros a; [intros []|].
  intros [<-|Hin]; simpl.
  - pose proof (fold_left_max_ge ts (Z.max a b)). lia.
  - apply IH; exact Hin.
Qed.

Lemma col_min_le (ts : list Z) (t : Z) : In t ts -> col_min ts <= t.
Proof.
  destruct ts as [|a ts]; [intros []|]. intros [<-|Hin]; simpl.
  - apply fold_left_min_le.
  - apply fold_left_min_In; exact Hin.
Qed.

Lemma col_max_ge (ts : list Z) (t : Z) : In t ts -> t <= col_max ts.
Proof.
  destruct ts as [|a ts]; [intros []|]. intros [<-|Hin]; simpl.
  - apply fold_left_max_ge.
  - apply fold_left_max_In; exact Hin.
Qed.

(** X14. With a threshold of at least the minutes between the earliest and the
    latest end time of the table, all plays are one session: the sorted
    table. *)
Theorem detect_sessions_threshold_over_span {SV : SortValues}
  (self : analyzer) (gap_threshold : Q) :
  frame self <> [] ->
  (Timestamp.total_minutes
     (col_max (map endTime (frame self)) - col_min (map endTime (frame self)))
   <= gap_threshold)%Q ->
  exists self',
    detect_sessions gap_threshold self =
    Ok ([sort_values (frame self)], self').
Proof.
  intros Hne Hspan.
  destruct (detect_sessions_returns gap_threshold self) as [self' H].
  exists self'. rewrite H. f_equal. f_equal.
  destruct (sort_values (frame self)) as [|e l] eqn:Hsv.
  { exfalso. destruct (frame self) as [|e0 rows]; [contradiction|].
    exact (sort_values_cons e0 rows Hsv). }
  apply split_by_gap_none_exceed.
  eapply Sorted_weaken; [|rewrite <- Hsv; apply sort_values_sorted].
  intros a b Ha Hb _. unfold exceeds, gap_minutes. apply Qle_not_lt.
  eapply Qle_trans; [|exact Hspan].
  apply total_minutes_le.
  assert (Hin : forall x, In x (e :: l) ->
                          In (endTime x) (map endTime (frame self))).
  { intros x Hx. apply in_map. rewrite <- Hsv in Hx.
    eapply Permutation_in; [apply sort_values_perm | exact Hx]. }
  pose proof (col_min_le _ _ (Hin a Ha)).
  pose proof (col_max_ge _ _ (Hin b Hb)). lia.
Qed.

Lemma detect_sessions_threshold_over_span_witness :
  frame TestData.session_analyzer <> [] /\
  (Timestamp.total_minutes
     (col_max (map endTime (frame TestData.session_analyzer))
      - col_min (map endTime (frame TestData.session_analyzer)))
   <= 1390)%Q /\
  exists self',
    detect_sessions 1390 TestData.session_analyzer =
    Ok ([sort_values (frame TestData.session_analyzer)], self').
Proof.
  assert (Hne : frame TestData.session_analyzer <> []) by discriminate.
  assert (Hspan : (Timestamp.total_minutes
                     (col_max (map endTime (frame TestData.session_analyzer))
                      - col_min (map endTime
                                   (frame TestData.session_analyzer)))
                   <= 1390)%Q).
  { vm_compute. discriminate. }
  split; [exact Hne|]. split; [exact Hspan|].
  exact (detect_sessions_threshold_over_span
           TestData.session_analyzer 1390 Hne Hspan).
Defined.

(** * Loading the table *)

(** X15. [load_data] raises exactly when no record was read.  Otherwise the
    table holds the records played for more than 30000 ms and no others
    (a record of 30000 ms or less is dropped), each with [minutes_played]
    its milliseconds over 60000, more than half a minute; the table may
    come out without rows, and that raises nothing. *)
Theorem load_data_keeps_long_plays (to_datetime : string -> Z)
  (data : list raw_play) :
  (data = [] ->
   load_data to_datetime data =
   Err (ValueError "No data could be loaded from the provided files")) /\
  (data <> [] ->
   exists rows,
     load_data to_datetime data = Ok rows /\
     (forall e, In e rows <->
                exists p, In p data /\ e = to_event to_datetime p /\
                          30000 < raw_msPlayed p) /\
     Forall (fun e => 30000 < msPlayed e /\
                      minutes_played e = msPlayed e # 60000 /\
                      (1 # 2 < minutes_played e)%Q) rows /\
     ((forall p, In p data -> raw_msPlayed p <= 30000) -> rows = [])).
Proof.
  split.
  - intros ->. reflexivity.
  - intros Hne. destruct data as [|p0 data]; [contradiction|].
    eexists. split; [reflexivity|].
    set (ps := p0 :: data). split; [|split].
    + intros e. rewrite filter_In, in_map_iff. split.
      * intros [[p [<- Hp]] Hms]. exists p. apply Z.ltb_lt in Hms.
        repeat split; assumption.
      * intros [p [Hp [-> Hms]]]. split; [exists p; split; auto|].
        apply Z.ltb_lt. exact Hms.
    + rewrite Forall_forall. intros e He.
      apply filter_In in He. destruct He as [He Hms].
      apply in_map_iff in He. destruct He as [p [<- _]].
      apply Z.ltb_lt in Hms. simpl in *.
      repeat split; [exact Hms|]. unfold Qlt. simpl. lia.
    + intros Hall. induction ps as [|p ps IH]; [reflexivity|].
      cbn [map filter]. cbn [to_event msPlayed].
      destruct (30000 <? raw_msPlayed p) eqn:E.
      * apply Z.ltb_lt in E. specialize (Hall p (or_introl eq_refl)). lia.
      * apply IH. intros q Hq. apply Hall. right; exact Hq.
Qed.

(** * Listening streaks *)

Lemma insert_key_In (k x : Z) (ks : list Z) :
  In x (insert_key k ks) <-> x = k \/ In x ks.
Proof.
  induction ks as [|k' ks IH]; simpl; [intuition|].
  destruct (k <? k') eqn:E1; [simpl; intuition|].
  destruct (k =? k') eqn:E2.
  - apply Z.eqb_eq in E2. subst k'. simpl. intuition.
  - simpl. rewrite IH. intuition.
Qed.

Lemma unique_sorted_In (x : Z) (l : list Z) :
  In x (unique_sorted l) <-> In x l.
Proof.
  induction l as [|k l IH]; [reflexivity|].
  change (unique_sorted (k :: l)) with (insert_key k (unique_sorted l)).
  rewrite insert_key_In, IH. simpl. intuition.
Qed.

Lemma insert_key_sorted (k : Z) (ks : list Z) :
  Sorted Z.lt ks -> Sorted Z.lt (insert_key k ks).
Proof.
  induction ks as [|k' ks IH]; intros Hs; simpl; [repeat constructor|].
  destruct (k <? k') eqn:E1.
  - apply Z.ltb_lt in E1. constructor; [exact Hs | constructor; exact E1].
  - destruct (k =? k') eqn:E2; [exact Hs|].
    apply Z.ltb_ge in E1. apply Z.eqb_neq in E2.
    inversion Hs as [|? ? Hs' Hhd]; subst. constructor; [apply IH; exact Hs'|].
    destruct ks as [|k2 ks]; simpl.
    + constructor. lia.
    + inversion Hhd; subst.
      destruct (k <? k2); [constructor; lia|].
      destruct (k =? k2); constructor; assumption.
Qed.

Lemma unique_sorted_sorted (l : list Z) : Sorted Z.lt (unique_sorted l).
Proof.
  induction l as [|k l IH]; [constructor|].
  change (unique_sorted (k :: l)) with (insert_key k (unique_sorted l)).
  apply insert_key_sorted, IH.
Qed.

Lemma last_default {A} (l : list A) (x d d' : A) :
  last (x :: l) d = last (x :: l) d'.
Proof.
  revert x. induction l as [|y l IH]; intros x; [reflexivity|].
  change (last (x :: y :: l) d) with (last (y :: l) d).
  change (last (x :: y :: l) d') with (last (y :: l) d').
  apply IH.
Qed.

Lemma sorted_lt_last (a : Z) (l : list Z) :
  Sorted Z.lt (a :: l) -> Z.of_nat (length l) <= last (a :: l) a - a.
Proof.
  revert a. induction l as [|b l IH]; intros a Hs; [simpl; lia|].
  inversion Hs as [|? ? Hs' Hhd]; subst. inversion Hhd; subst.
  specialize (IH b Hs').
  change (last (a :: b :: l) a) with (last (b :: l) a).
  rewrite (last_default l b a b). cbn [length]. lia.
Qed.

Lemma streak_inv_ext (A B : Z -> Prop) (prev : Z) (st : streak_state)
  (n : Z) :
  (forall d, A d <-> B d) -> streak_inv A prev st n -> streak_inv B prev st n.
Proof.
  intros Hiff (H1 & H2 & H3 & H4 & H5 & H6 & H7 & H8 & H9).
  unfold streak_inv. repeat split.
  - intros d Hd. apply H1, Hiff, Hd.
  - apply Hiff, H2.
  - exact H3.
  - intros k Hk. apply Hiff, H4, Hk.
  - intros Hb. apply H5, Hiff, Hb.
  - exact H6.
  - intros k Hk. apply Hiff, H7, Hk.
  - intros a m Hm Hrun. apply (H8 a m Hm). intros d Hd. apply Hiff, Hrun, Hd.
  - exact H9.
Qed.

(** One turn of the loop keeps the invariant, for one more day. *)
Lemma streak_step_inv (A : Z -> Prop) (prev day : Z) (st : streak_state)
  (n : Z) :
  prev < day -> streak_inv A prev st n ->
  streak_inv (fun d => A d \/ d = day) day (streak_step prev day st) (n + 1).
Proof.
  intros Hlt (H1 & H2 & H3 & H4 & H5 & H6 & H7 & H8 & H9).
  assert (Hbelow : forall d, d < day -> A d \/ d = day -> A d).
  { intros d Hd [Ha| ->]; [exact Ha | lia]. }
  assert (Habove : forall d, day < d -> ~ (A d \/ d = day)).
  { intros d Hd [Ha| ->]; [apply H1 in Ha|]; lia. }
  assert (Hrun : forall a m, 0 < m ->
            (forall d, a <= d < a + m -> A d \/ d = day) ->
            a + m - 1 <> day -> m <= longest st).
  { intros a m Hm Hr Hend.
    destruct (Z.lt_ge_cases day (a + m - 1)) as [Hgt|Hle].
    - exfalso. apply (Habove (a + m - 1) Hgt). apply Hr. lia.
    - apply (H8 a m Hm). intros d Hd. apply Hbelow; [lia|]. apply Hr, Hd. }
  unfold streak_step.
  destruct (day - prev =? 1) eqn:E.
  - apply Z.eqb_eq in E.
    assert (Hc : forall k, 0 <= k < current st + 1 ->
                           A (day - k) \/ day - k = day).
    { intros k Hk. destruct (Z.eq_dec k 0) as [->|Hk0]; [right; lia|].
      left. replace (day - k) with (prev - (k - 1)) by lia. apply H4. lia. }
    assert (Hnc : ~ (A (day - (current st + 1))
                     \/ day - (current st + 1) = day)).
    { intros [Ha|He]; [|lia].
      apply H5. replace (prev - current st) with (day - (current st + 1))
        by lia. exact Ha. }
    assert (Hend : forall a m, 0 < m ->
              (forall d, a <= d < a + m -> A d \/ d = day) ->
              a + m - 1 = day -> m <= current st + 1).
    { intros a m Hm Hr He.
      destruct (Z.le_gt_cases m (current st + 1)) as [Hle|Hgt]; [exact Hle|].
      exfalso. apply Hnc. apply Hr. lia. }
    destruct (current st + 1 >? longest st) eqn:G.
    + apply Z.gtb_lt in G. unfold streak_inv. cbn [longest current longest_end].
      repeat split.
      * intros d [Hd| ->]; [apply H1 in Hd|]; lia.
      * right; reflexivity.
      * lia.
      * exact Hc.
      * exact Hnc.
      * lia.
      * exact Hc.
      * intros a m Hm Hr.
        destruct (Z.eq_dec (a + m - 1) day) as [He|Hne].
        -- apply (Hend a m Hm Hr He).
        -- pose proof (Hrun a m Hm Hr Hne). lia.
      * lia.
    + assert (G' : current st + 1 <= longest st).
      { destruct (Z.le_gt_cases (current st + 1) (longest st)) as [?|Hgt];
          [assumption|]. apply Z.gtb_lt in Hgt. congruence. }
      unfold streak_inv. cbn [longest current longest_end].
      repeat split.
      * intros d [Hd| ->]; [apply H1 in Hd|]; lia.
      * right; reflexivity.
      * lia.
      * exact Hc.
      * exact Hnc.
      * exact G'.
      * intros k Hk. left. apply H7, Hk.
      * intros a m Hm Hr.
        destruct (Z.eq_dec (a + m - 1) day) as [He|Hne].
        -- pose proof (Hend a m Hm Hr He). lia.
        -- apply (Hrun a m Hm Hr Hne).
      * lia.
  - apply Z.eqb_neq in E.
    unfold streak_inv. cbn [longest current longest_end].
    repeat split.
    + intros d [Hd| ->]; [apply H1 in Hd|]; lia.
    + right; reflexivity.
    + lia.
    + intros k Hk. right. lia.
    + intros [Ha|He]; [apply H1 in Ha|]; lia.
    + lia.
    + intros k Hk. left. apply H7, Hk.
    + intros a m Hm Hr.
      destruct (Z.eq_dec (a + m - 1) day) as [He|Hne].
      * destruct (Z.le_gt_cases m 1) as [Hle|Hgt]; [lia|].
        exfalso. assert (Hd : A (day - 1) \/ day - 1 = day)
          by (apply Hr; lia).
        destruct Hd as [Hd|Hd]; [apply H1 in Hd|]; lia.
      * apply (Hrun a m Hm Hr Hne).
    + lia.
Qed.

Lemma streak_loop_inv (rest : list Z) :
  forall (A : Z -> Prop) (prev : Z) (st : streak_state) (n : Z),
    Sorted Z.lt (prev :: rest) ->
    streak_inv A prev st n ->
    streak_inv (fun d => A d \/ In d rest) (last rest prev)
               (streak_loop prev rest st) (n + Z.of_nat (length rest)).
Proof.
  induction rest as [|day rest IH]; intros A prev st n Hs Hinv.
  - cbn [streak_loop last length]. rewrite Z.add_0_r.
    eapply streak_inv_ext; [|exact Hinv]. intros d. simpl. tauto.
  - inversion Hs as [|? ? Hs' Hhd]; subst. inversion Hhd; subst.
    pose proof (streak_step_inv A prev day st n ltac:(assumption) Hinv)
      as Hstep.
    specialize (IH _ day _ _ Hs' Hstep).
    cbn [streak_loop].
    replace (last (day :: rest) prev) with (last rest day).
    2:{ destruct rest as [|x rest]; [reflexivity|].
        change (last (day :: x :: rest) prev) with (last (x :: rest) prev).
        apply last_default. }
    replace (n + Z.of_nat (length (day :: rest)))
      with (n + 1 + Z.of_nat (length rest)) by (cbn [length]; lia).
    eapply streak_inv_ext; [|exact IH].
    intros d. simpl. intuition.
Qed.

Lemma streak_inv_start (first : Z) :
  streak_inv (fun d => d = first) first (mkStreakState 1 1 first) 1.
Proof.
  unfold streak_inv. cbn [longest current longest_end]. repeat split.
  - intros d ->. lia.
  - lia.
  - intros k Hk. lia.
  - lia.
  - lia.
  - intros k Hk. lia.
  - intros a m Hm Hr.
    destruct (Z.le_gt_cases m 1) as [Hle|Hgt]; [exact Hle|].
    exfalso. pose proof (Hr a ltac:(lia)). pose proof (Hr (a + 1) ltac:(lia)).
    lia.
  - lia.
Qed.

Lemma active_day_iff (rows : list event) (d : Z) :
  active_day rows d <-> In d (unique_sorted (map date_of rows)).
Proof.
  rewrite unique_sorted_In, in_map_iff. unfold active_day.
  split; intros [e [H1 H2]]; exists e; tauto.
Qed.

(** What the loop leaves behind on a table with rows. *)
Lemma listening_streaks_inv (rows : list event) (first : Z) (rest : list Z) :
  unique_sorted (map date_of rows) = first :: rest ->
  streak_inv (active_day rows) (last rest first)
    (streak_loop first rest (mkStreakState 1 1 first))
    (Z.of_nat (length (first :: rest))).
Proof.
  intros Hu.
  pose proof (unique_sorted_sorted (map date_of rows)) as Hs. rewrite Hu in Hs.
  pose proof (streak_loop_inv rest _ first _ 1 Hs (streak_inv_start first))
    as H.
  replace (Z.of_nat (length (first :: rest)))
    with (1 + Z.of_nat (length rest)) by (cbn [length]; lia).
  eapply streak_inv_ext; [|exact H].
  intros d. rewrite active_day_iff, Hu. simpl. intuition.
Qed.

Lemma active_days_nonempty (rows : list event) :
  rows <> [] -> unique_sorted (map date_of rows) <> [].
Proof.
  intros Hne Hu. destruct rows as [|e rows]; [contradiction|].
  assert (Hin : In (date_of e) (unique_sorted (map date_of (e :: rows)))).
  { apply unique_sorted_In. left; reflexivity. }
  rewrite Hu in Hin. destruct Hin.
Qed.

Lemma ratio_pos (a b : Z) : 0 < a -> 0 < b -> (0 < ratio a b)%Q.
Proof.
  intros Ha Hb. unfold ratio. apply Qlt_shift_div_l.
  - rewrite <- (Zlt_Qlt 0). exact Hb.
  - rewrite Qmult_0_l. rewrite <- (Zlt_Qlt 0). exact Ha.
Qed.

(** X16. [listening_streaks] on a table without rows returns only
    [longest_streak], 0.  On a table with rows the longest streak it
    reports is a real one: every day from [longest_streak_start] to
    [longest_streak_end] has a play, the two are [longest_streak] - 1 days
    apart, the streak has at least one day and at most as many as there
    are days with activity, these are at most the days of the whole
    range, and the activity ratio is above 0 and at most 1. *)
Theorem listening_streaks_reports_a_streak (rows : list event) :
  (rows = [] -> listening_streaks rows = OnlyLongestStreak 0) /\
  (rows <> [] ->
   exists r,
     listening_streaks rows = FullReport r /\
     1 <= longest_streak r <= days_with_activity r /\
     days_with_activity r <= total_days_range r /\
     longest_streak_start r = longest_streak_end r - (longest_streak r - 1) /\
     (forall d, longest_streak_start r <= d <= longest_streak_end r ->
                active_day rows d) /\
     (0 < activity_ratio r)%Q /\ (activity_ratio r <= 1)%Q).
Proof.
  split; [intros ->; reflexivity|].
  intros Hne. unfold listening_streaks. cbv zeta.
  destruct (unique_sorted (map date_of rows)) as [|first rest] eqn:Hu.
  { exfalso. exact (active_days_nonempty rows Hne Hu). }
  pose proof (listening_streaks_inv rows first rest Hu)
    as (H1 & H2 & H3 & H4 & H5 & H6 & H7 & H8 & H9).
  pose proof (unique_sorted_sorted (map date_of rows)) as Hs. rewrite Hu in Hs.
  pose proof (sorted_lt_last first rest Hs) as Hlast.
  assert (Hlen : Z.of_nat (length (first :: rest))
                 <= last (first :: rest) first - first + 1).
  { cbn [length]. lia. }
  eexists. split; [reflexivity|].
  cbn [longest_streak days_with_activity total_days_range
       longest_streak_start longest_streak_end activity_ratio].
  split; [lia|]. split; [exact Hlen|]. split; [reflexivity|]. split.
  - intros d Hd.
    replace d
      with (longest_end (streak_loop first rest (mkStreakState 1 1 first))
            - (longest_end (streak_loop first rest (mkStreakState 1 1 first))
               - d)) by lia.
    apply H7. lia.
  - split.
    + apply ratio_pos; cbn [length]; lia.
    + apply ratio_unit; cbn [length] in *; lia.
Qed.

(** X17. The streak [listening_streaks] reports is the longest: no run of
    consecutive days that all have a play is longer than
    [longest_streak]. *)
Theorem listening_streaks_is_longest (rows : list event) :
  match listening_streaks rows with
  | FullReport r =>
      forall a n, 0 < n ->
                  (forall d, a <= d < a + n -> active_day rows d) ->
                  n <= longest_streak r
  | OnlyLongestStreak _ => rows = []
  end.
Proof.
  unfold listening_streaks. cbv zeta.
  destruct (unique_sorted (map date_of rows)) as [|first rest] eqn:Hu.
  - destruct rows as [|e rows]; [reflexivity|].
    exfalso. apply (active_days_nonempty (e :: rows)); [discriminate | exact Hu].
  - pose proof (listening_streaks_inv rows first rest Hu)
      as (_ & _ & _ & _ & _ & _ & _ & H8 & _).
    cbn [longest_streak]. exact H8.
Qed.

(** A table of five plays on the days 1, 2, 4, 5 and 6 after the epoch. *)
Example listening_streaks_five_days :
  listening_streaks
    (map (fun d => mkEvent (d * Timestamp.ns_per_day) "Artist" "Track"
                           60000 1)
         [2; 1; 4; 6; 5; 5]) =
  FullReport (mkStreakReport 5 6 (ratio 5 6) 3 4 6).
Proof. vm_compute. reflexivity. Qed.

(** * The tally of plays per song *)

Lemma has_key_In {V} (k : string) (d : list (string * V)) :
  Tally.has_key k d = true <-> In k (map fst d).
Proof.
  unfold Tally.has_key. rewrite existsb_exists, in_map_iff. split.
  - intros [kv [Hin Heq]]. apply String.eqb_eq in Heq. exists kv. auto.
  - intros [kv [Heq Hin]]. exists kv. split; [exact Hin|].
    apply String.eqb_eq. auto.
Qed.

Lemma has_key_same_keys {V W} (k : string) (d : list (string * V))
  (d' : list (string * W)) :
  map fst d = map fst d' -> Tally.has_key k d = Tally.has_key k d'.
Proof.
  intros Heq. apply eq_true_iff_eq. rewrite !has_key_In, Heq. reflexivity.
Qed.

Lemma update_keys {V} (k : string) (f : V -> V) (d : list (string * V)) :
  map fst (Tally.update k f d) = map fst d.
Proof.
  induction d as [|[k' v] d IH]; [reflexivity|]. simpl.
  destruct (String.eqb k k'); simpl; [reflexivity | f_equal; exact IH].
Qed.

Lemma update_sum {V} (F : V -> Z) (c : Z) (k : string) (f : V -> V)
  (d : list (string * V)) :
  (forall v, F (f v) = F v + c) ->
  Tally.has_key k d = true ->
  Tally.sum_of F (map snd (Tally.update k f d)) =
  Tally.sum_of F (map snd d) + c.
Proof.
  intros HF. unfold Tally.sum_of, Tally.has_key.
  induction d as [|[k' v] d IH]; [discriminate|]. simpl.
  destruct (String.eqb k k'); simpl.
  - intros _. rewrite HF. lia.
  - intros H. rewrite IH by exact H. lia.
Qed.

Lemma update_Forall {V} (P : string * V -> Prop) (k : string) (f : V -> V)
  (d : list (string * V)) :
  (forall k' v, P (k', v) -> P (k', f v)) ->
  Forall P d -> Forall P (Tally.update k f d).
Proof.
  intros HP. induction 1 as [|[k' v] d Hkv Hd IH]; [constructor|]. simpl.
  destruct (String.eqb k k'); constructor; auto.
Qed.

Lemma sum_of_app {A} (f : A -> Z) (l l' : list A) :
  Tally.sum_of f (l ++ l') = Tally.sum_of f l + Tally.sum_of f l'.
Proof.
  unfold Tally.sum_of. induction l as [|x l IH]; simpl; [reflexivity|].
  rewrite IH. lia.
Qed.

(** One entry that has its artist and its track keeps the invariant. *)
Lemma process_entry_inv (t t' : Tally.tally) (done : list Tally.entry)
  (e : Tally.entry) :
  Tally.tally_inv t done -> Tally.process_entry t e = Some t' ->
  Tally.tally_inv t' (done ++ [e]).
Proof.
  intros (I1 & I2 & I3 & I4 & I5 & I6 & I7 & I8).
  unfold Tally.process_entry.
  destruct (Tally.artistName e) as [artist|] eqn:Ea; [|discriminate].
  destruct (Tally.trackName e) as [track|] eqn:Et; [|discriminate].
  cbv zeta. fold (Tally.joined_key artist track).
  rewrite (has_key_same_keys _ _ _ I1).
  destruct (Tally.has_key (Tally.joined_key artist track) (Tally.play_stats t))
    eqn:Hk; intros H; injection H as <-; unfold Tally.tally_inv;
    cbn [Tally.unique_songs Tally.play_stats Tally.total_plays].
  - assert (Hin : In (Tally.joined_key artist track)
                     (map fst (Tally.play_stats t)))
      by (apply has_key_In; exact Hk).
    rewrite update_keys.
    split; [exact I1|]. split; [exact I2|]. split.
    { apply update_Forall; [|exact I3]. intros k' v [H1 H2]. simpl in *.
      split; [exact H1 | lia]. }
    split; [exact I4|]. split.
    { apply Forall_app. split; [exact I5|]. constructor; [|constructor].
      intros a tr Ha Htr. rewrite Ea in Ha. rewrite Et in Htr.
      injection Ha as <-. injection Htr as <-. exact Hin. }
    split.
    { rewrite (update_sum Tally.playCount 1) by (auto; intros; reflexivity).
      lia. }
    split.
    { rewrite length_app. cbn [length]. lia. }
    rewrite (update_sum Tally.totalMsPlayed (Tally.ms_or_zero e))
      by (auto; intros; reflexivity).
    rewrite sum_of_app, I8. unfold Tally.sum_of. simpl. lia.
  - assert (Hnin : ~ In (Tally.joined_key artist track)
                       (map fst (Tally.play_stats t))).
    { intros Hin. apply has_key_In in Hin. congruence. }
    rewrite !map_app. cbn [map fst snd].
    split; [rewrite I1; reflexivity|]. split.
    { apply (Permutation_NoDup
               (l := Tally.joined_key artist track
                     :: map fst (Tally.play_stats t)));
        [apply Permutation_cons_append | constructor; assumption]. }
    split.
    { apply Forall_app. split; [exact I3|]. constructor; [|constructor].
      simpl. split; [reflexivity | lia]. }
    split.
    { apply Forall_app. split; [exact I4|]. constructor; [|constructor].
      reflexivity. }
    split.
    { apply Forall_app. split.
      - eapply Forall_impl; [|exact I5]. intros e0 H0 a tr Ha Htr.
        apply in_or_app. left. exact (H0 a tr Ha Htr).
      - constructor; [|constructor]. intros a tr Ha Htr.
        rewrite Ea in Ha. rewrite Et in Htr.
        injection Ha as <-. injection Htr as <-.
        apply in_or_app. right. left. reflexivity. }
    split.
    { rewrite sum_of_app, I6. unfold Tally.sum_of. simpl. lia. }
    split.
    { rewrite length_app. cbn [length]. lia. }
    rewrite !sum_of_app, I8. unfold Tally.sum_of. simpl. lia.
Qed.

Lemma process_entry_defined (t : Tally.tally) (e : Tally.entry) :
  (exists t', Tally.process_entry t e = Some t') <->
  (exists artist track,
      Tally.artistName e = Some artist /\ Tally.trackName e = Some track).
Proof.
  unfold Tally.process_entry.
  destruct (Tally.artistName e) as [artist|];
    destruct (Tally.trackName e) as [track|]; split.
  all: try (intros [? H]; discriminate H).
  all: try (intros [? [? [H1 H2]]]; discriminate).
  - intros _. exists artist, track. split; reflexivity.
  - intros _. eexists. reflexivity.
Qed.

(** The entries of one file keep the invariant, for those that are
    tallied. *)
Lemma process_entries_inv (entries : list Tally.entry) :
  forall (t : Tally.tally) (done : list Tally.entry),
    Tally.tally_inv t done ->
    Tally.tally_inv (Tally.process_entries t entries)
                    (done ++ Tally.tallied entries).
Proof.
  induction entries as [|e entries IH]; intros t done Hinv.
  - simpl. rewrite app_nil_r. exact Hinv.
  - cbn [Tally.process_entries Tally.tallied].
    destruct (Tally.process_entry t e) as [t'|] eqn:Hp.
    + pose proof (process_entry_inv t t' done e Hinv Hp) as Hinv'.
      destruct (proj1 (process_entry_defined t e) (ex_intro _ t' Hp))
        as [artist [track [Ha Ht]]].
      rewrite Ha, Ht. specialize (IH t' (done ++ [e]) Hinv').
      rewrite <- app_assoc in IH. exact IH.
    + assert (Hn : ~ exists artist track,
                 Tally.artistName e = Some artist /\
                 Tally.trackName e = Some track).
      { intros H. apply process_entry_defined with (t := t) in H.
        destruct H as [t' H]. congruence. }
      destruct (Tally.artistName e) as [artist|];
        destruct (Tally.trackName e) as [track|];
        try (rewrite app_nil_r; exact Hinv).
      exfalso. apply Hn. exists artist, track. split; reflexivity.
Qed.

Lemma process_files_inv (files : list (option (list Tally.entry))) :
  Tally.tally_inv (Tally.process_files files) (Tally.tallied_of_files files).
Proof.
  unfold Tally.process_files, Tally.tallied_of_files.
  assert (Hgen : forall t done,
            Tally.tally_inv t done ->
            Tally.tally_inv
              (fold_left (fun t file =>
                            match file with
                            | Some entries => Tally.process_entries t entries
                            | None => t
                            end) files t)
              (done ++ concat (map (fun file =>
                                      match file with
                                      | Some entries => Tally.tallied entries
                                      | None => []
                                      end) files))).
  { induction files as [|file files IH]; intros t done Hinv.
    - simpl. rewrite app_nil_r. exact Hinv.
    - cbn [fold_left map concat]. rewrite app_assoc. apply IH.
      destruct file as [entries|].
      + apply process_entries_inv; exact Hinv.
      + rewrite app_nil_r. exact Hinv. }
  apply (Hgen Tally.empty_tally []).
  unfold Tally.tally_inv, Tally.empty_tally, Tally.sum_of. simpl.
  repeat split; constructor.
Qed.

(** X18. The numbers of the play statistics add up, also when files could not
    be read and when the entries of a file were abandoned at one without
    artist or track: [totalPlays] is the number of tallied entries and
    the sum of [playCount] over [songStats], the sum of [totalMsPlayed]
    is the sum of the tallied entries' [msPlayed] (0 where an entry has
    none), and [totalUniqueSongs] is the number of records in
    [songStats]. *)
Theorem play_statistics_add_up (files : list (option (list Tally.entry))) :
  let s := Tally.play_stats_summary (Tally.process_files files) in
  Tally.totalPlays s = Z.of_nat (length (Tally.tallied_of_files files)) /\
  Tally.sum_of Tally.playCount (Tally.songStats s) = Tally.totalPlays s /\
  Tally.sum_of Tally.totalMsPlayed (Tally.songStats s) =
    Tally.sum_of Tally.ms_or_zero (Tally.tallied_of_files files) /\
  Tally.totalUniqueSongs s = Z.of_nat (length (Tally.songStats s)).
Proof.
  intros s. subst s.
  destruct (process_files_inv files) as (I1 & _ & _ & _ & _ & I6 & I7 & I8).
  unfold Tally.play_stats_summary.
  cbn [Tally.totalPlays Tally.songStats Tally.totalUniqueSongs].
  split; [exact I7|]. split; [exact I6|]. split; [exact I8|].
  rewrite !length_map. f_equal.
  rewrite <- (length_map fst (Tally.unique_songs _)), I1. apply length_map.
Qed.

(** X19. [songStats] has one record for each joined key "artist|track": no two
    of its records have the same joined key, every record counts at least
    one play, and every tallied entry has its record. *)
Theorem play_statistics_one_record_per_key
  (files : list (option (list Tally.entry))) :
  let s := Tally.play_stats_summary (Tally.process_files files) in
  let key_of := fun st => Tally.joined_key (Tally.stat_artistName st)
                                           (Tally.stat_trackName st) in
  NoDup (map key_of (Tally.songStats s)) /\
  Forall (fun st => 1 <= Tally.playCount st) (Tally.songStats s) /\
  (forall e artist track,
      In e (Tally.tallied_of_files files) ->
      Tally.artistName e = Some artist ->
      Tally.trackName e = Some track ->
      In (Tally.joined_key artist track) (map key_of (Tally.songStats s))).
Proof.
  intros s key_of. subst s.
  destruct (process_files_inv files) as (_ & I2 & I3 & _ & I5 & _).
  unfold Tally.play_stats_summary. cbn [Tally.songStats].
  assert (Hkeys : map key_of (map snd (Tally.play_stats
                                         (Tally.process_files files))) =
                  map fst (Tally.play_stats (Tally.process_files files))).
  { rewrite map_map. apply map_ext_in. intros kv Hkv.
    rewrite Forall_forall in I3. destruct (I3 kv Hkv) as [Hk _].
    symmetry. exact Hk. }
  rewrite Hkeys. split; [exact I2|]. split.
  - rewrite Forall_map. eapply Forall_impl; [|exact I3].
    intros kv [_ H]. exact H.
  - intros e artist track He Ha Ht.
    rewrite Forall_forall in I5. exact (I5 e He artist track Ha Ht).
Qed.

(** * Weighted averages of the audio features *)





(** One row with energy 0.7 and three hours of listening: the weighted
    average of the one value, computed in binary64, is below it. *)
Example weighted_avg_below_the_value :
  let x := Float64.div 7 10 in
  exists v,
    weighted_avg "energy"
      [mkFeatureRow 3 (fun f => if String.eqb f "energy" then Some x else None)]
    = Average v /\ (v < x)%Q.
Proof. eexists. split; [vm_compute; reflexivity | vm_compute; reflexivity]. Qed.

